(** * image_downloader: a shallow embedding and its verified properties

    The development follows [image_downloader.py]:
    - [PyStr]: the [str] methods the script calls ([strip], [partition],
      [rpartition], [lower], [replace], [endswith], [repr], ...);
    - [PosixPath]: [os.path.join], [dirname], [basename] on POSIX;
    - [World]: the file system, the logger, the HTTP traffic and the
      object allocator the script acts on, with a state-and-exception
      monad [M] for Python's control flow;
    - [Env]: what the script imports ([requests], [rfc6266],
      [pathvalidate], the text layer of [open], the thread pool and its
      scheduler), as parameters;
    - the functions of the script, in the order of their dependencies:
      [get_session], [rename_if_exists], [get_filename], [download_image],
      [download_manager], and [main];
    - [Stepwise]: the functions a pool thread runs, once more, as the
      sequence of their calls on the world, so that the calls of several
      tasks can be interleaved;
    - [Mock]: the test doubles of [test_image_downloader.py];
    - the properties.

    Characters are code points below 256 (Rocq's [ascii]): this is exactly
    the range of HTTP header values as the [requests] library decodes them
    (ISO-8859-1), and it covers ASCII input files. Paths are compared as
    strings.

    A call of the script on the world (a log record, a request, a test of
    existence, the opening of a file, the copy of a body) is one atomic
    step. The pool runs up to [max_workers] tasks at a time and interleaves
    their calls, and the calls of the manager's loop, in any order: the
    order is a parameter ([schedule]), and the properties of
    [download_manager] hold for every one. The copy of a body is a single
    step, and the file system accepts every write to an open file. *)

From Stdlib Require Import ZArith NArith Ascii String DecimalString.
From stdpp Require Import gmap strings list.

Local Open Scope string_scope.
Local Open Scope Z_scope.

(** ** Python strings *)

Module PyStr.

Definition code (c : ascii) : N := N_of_ascii c.

Definition is_empty (s : string) : bool :=
  match s with "" => true | String _ _ => false end.

(** [len(s)] *)
Definition len (s : string) : nat := String.length s.

(** [c.isspace()]: the white space of [str.strip()] among the code points
    below 256 (TAB..CR, FS..US, SPACE, NEL, NBSP). *)
Definition isspace (c : ascii) : bool :=
  let n := code c in
  ((9 <=? n) && (n <=? 13) || (28 <=? n) && (n <=? 32)
   || (n =? 133) || (n =? 160))%N.

(** [c.lower()] on the code points below 256: A-Z and the Latin-1 capitals
    (all of U+00C0..U+00DE but the multiplication sign) move up by 32. *)
Definition lower_char (c : ascii) : ascii :=
  let n := code c in
  if ((65 <=? n) && (n <=? 90)
      || (192 <=? n) && (n <=? 222) && negb (n =? 215))%N
  then ascii_of_N (n + 32) else c.

(** [s.lower()] *)
Fixpoint lower (s : string) : string :=
  match s with
  | "" => ""
  | String c s' => String (lower_char c) (lower s')
  end.

(** [s.lstrip()] *)
Fixpoint lstrip (s : string) : string :=
  match s with
  | "" => ""
  | String c s' => if isspace c then lstrip s' else s
  end.

(** [s.rstrip()] *)
Fixpoint rstrip (s : string) : string :=
  match s with
  | "" => ""
  | String c s' =>
      let r := rstrip s' in
      if isspace c && is_empty r then "" else String c r
  end.

(** [s.strip()] *)
Definition strip (s : string) : string := lstrip (rstrip s).

(** [s.lstrip(c)] for a single character [c] *)
Fixpoint lstrip_char (c0 : ascii) (s : string) : string :=
  match s with
  | "" => ""
  | String c s' => if Ascii.eqb c c0 then lstrip_char c0 s' else s
  end.

(** [s.rstrip(c)] for a single character [c] *)
Fixpoint rstrip_char (c0 : ascii) (s : string) : string :=
  match s with
  | "" => ""
  | String c s' =>
      let r := rstrip_char c0 s' in
      if Ascii.eqb c c0 && is_empty r then "" else String c r
  end.

(** [s.partition(sep)] for a one-character separator: split at the first
    occurrence; [(s, '', '')] when there is none. *)
Fixpoint partition (sep : ascii) (s : string) : string * string * string :=
  match s with
  | "" => ("", "", "")
  | String c s' =>
      if Ascii.eqb c sep then ("", String sep "", s')
      else let '(a, m, b) := partition sep s' in (String c a, m, b)
  end.

(** [s.rpartition(sep)] for a one-character separator: split at the last
    occurrence; [('', '', s)] when there is none. *)
Fixpoint rpartition (sep : ascii) (s : string) : string * string * string :=
  match s with
  | "" => ("", "", "")
  | String c s' =>
      let '(a, m, b) := rpartition sep s' in
      if is_empty m then
        if Ascii.eqb c sep then ("", String sep "", s')
        else ("", "", String c b)
      else (String c a, m, b)
  end.

(** [s.split(sep, 1)[0]] *)
Definition split1_head (sep : ascii) (s : string) : string :=
  (partition sep s).1.1.

(** [s.rsplit(sep, 1)[-1]] *)
Definition rsplit1_last (sep : ascii) (s : string) : string :=
  (rpartition sep s).2.

(** [s.startswith(p)] *)
Fixpoint startswith (s p : string) {struct p} : bool :=
  match p, s with
  | "", _ => true
  | String _ _, "" => false
  | String a p', String b s' => Ascii.eqb a b && startswith s' p'
  end.

(** [s.endswith(suf)] *)
Fixpoint endswith (s suf : string) : bool :=
  String.eqb s suf
  || match s with "" => false | String _ s' => endswith s' suf end.

(** [sub in s] *)
Fixpoint contains (sub s : string) : bool :=
  startswith s sub
  || match s with "" => false | String _ s' => contains sub s' end.

(** [s.replace(old, new)]: every non-overlapping occurrence, scanning from
    the left. [skip] counts the characters of a match still to be dropped. *)
Fixpoint replace_go (old new : string) (skip : nat) (s : string) : string :=
  match s with
  | "" => ""
  | String c s' =>
      match skip with
      | S k => replace_go old new k s'
      | O =>
          if startswith s old
          then new +:+ replace_go old new (len old - 1) s'
          else String c (replace_go old new 0 s')
      end
  end.

Fixpoint intersperse (new s : string) : string :=
  match s with
  | "" => new
  | String c s' => new +:+ String c (intersperse new s')
  end.

Definition replace (old new s : string) : string :=
  if is_empty old then intersperse new s else replace_go old new 0 s.

(** [str(i)] for an integer *)
Definition str_of_int (i : Z) : string := NilZero.string_of_int (Z.to_int i).

(** *** [repr(s)] (Python 3) *)

Definition hex_digit (n : N) : ascii :=
  ascii_of_N (if (n <? 10)%N then 48 + n else 87 + n).

(** Characters [repr] prints as they are: printable ASCII, and the printable
    Latin-1 characters (U+00A1..U+00FF without the soft hyphen). *)
Definition isprintable (c : ascii) : bool :=
  let n := code c in
  ((32 <=? n) && (n <=? 126) || (161 <=? n) && negb (n =? 173))%N.

Definition repr_char (quote : ascii) (c : ascii) : string :=
  let n := code c in
  if Ascii.eqb c quote || Ascii.eqb c "\" then String "\" (String c "")
  else if (n =? 9)%N then "\t"
  else if (n =? 10)%N then "\n"
  else if (n =? 13)%N then "\r"
  else if isprintable c then String c ""
  else String "\" (String "x" (String (hex_digit (n / 16))
                                 (String (hex_digit (n mod 16)) ""))).

Fixpoint repr_body (quote : ascii) (s : string) : string :=
  match s with
  | "" => ""
  | String c s' => repr_char quote c +:+ repr_body quote s'
  end.

Fixpoint has_char (c0 : ascii) (s : string) : bool :=
  match s with
  | "" => false
  | String c s' => Ascii.eqb c c0 || has_char c0 s'
  end.

Definition dquote : ascii := ascii_of_N 34.

Definition repr (s : string) : string :=
  let quote : ascii :=
    if has_char "'" s && negb (has_char dquote s) then dquote else "'"%char in
  String quote (repr_body quote s +:+ String quote "").

End PyStr.

(** ** [os.path] on POSIX ([posixpath]) *)

Module PosixPath.
Import PyStr.

(** [posixpath.join(a, b)] *)
Definition join (a b : string) : string :=
  if startswith b "/" then b
  else if is_empty a || endswith a "/" then a +:+ b
  else a +:+ "/" +:+ b.

(** [posixpath.basename(p)]: what follows the last slash. *)
Definition basename (p : string) : string := rsplit1_last "/" p.

(** [posixpath.dirname(p)]: what precedes the basename, without its
    trailing slashes unless it consists of slashes only. *)
Definition dirname (p : string) : string :=
  let '(a, m, _) := rpartition "/" p in
  let head := a +:+ m in
  if is_empty (rstrip_char "/" head) then head else rstrip_char "/" head.

End PosixPath.

(** ** The world the script acts on *)

(** Exceptions the script raises or lets through. *)
Inductive exn : Type :=
  | ValueError (args : list string)       (* [ValueError] with its arguments *)
  | OSError (path : string)               (* [open] failed on [path] *)
  | AssertionError                        (* a failed [assert] *)
  | AttributeError (name : string)        (* a missing attribute *)
  | HTTPError (status : Z)                (* [Response.raise_for_status] *)
  | RequestException (descr : string)     (* any other error of [requests] *)
  | ParseError (descr : string)           (* anything [rfc6266] raises *)
  | UnicodeDecodeError (reason : string). (* a byte that does not decode *)

Inductive Level : Type := DEBUG | INFO | WARNING | ERROR.

(** An argument of a log format: a string or an exception object. *)
Inductive LogArg : Type :=
  | Str (s : string)
  | Exn (e : exn).

(** A record handed to [logger]: a format with its arguments, or an exception
    object ([logger.error(error)]). *)
Inductive LogRecord : Type :=
  | LogMsg (lvl : Level) (fmt : string) (args : list LogArg)
  | LogExn (lvl : Level) (e : exn).

Inductive Node : Type :=
  | Dir
  | File (content : string).

(** The response object of [requests], as far as the script reads it.
    [raw] is what the stream [response.raw] delivers, and [raw_error] the
    exception that reading the stream raises once that is delivered, when
    the transfer breaks. *)
Record Response : Type := mkResponse {
  status_code : Z;
  headers : list (string * string);
  url : string;
  raw : string;
  raw_error : option exn
}.

Record World : Type := mkWorld {
  files : gmap string Node;      (* the file system, by path *)
  log : list LogRecord;          (* newest first *)
  requests : list string;        (* URLs of the GETs issued, newest first *)
  closed : list string;          (* URLs of the responses closed, newest first *)
  next_id : nat                  (* next free object identity *)
}.

Definition set_files (f : gmap string Node) (w : World) : World :=
  mkWorld f (log w) (requests w) (closed w) (next_id w).
Definition add_log (r : LogRecord) (w : World) : World :=
  mkWorld (files w) (r :: log w) (requests w) (closed w) (next_id w).
Definition add_request (u : string) (w : World) : World :=
  mkWorld (files w) (log w) (u :: requests w) (closed w) (next_id w).
Definition add_closed (u : string) (w : World) : World :=
  mkWorld (files w) (log w) (requests w) (u :: closed w) (next_id w).
Definition bump_id (w : World) : World :=
  mkWorld (files w) (log w) (requests w) (closed w) (S (next_id w)).

(** ** Control flow: state and exceptions *)

Definition M (A : Type) : Type := World -> (exn + A) * World.

Definition ret {A} (a : A) : M A := fun w => (inr a, w).
Definition raise {A} (e : exn) : M A := fun w => (inl e, w).
Definition bind {A B} (m : M A) (k : A -> M B) : M B :=
  fun w => match m w with
           | (inr a, w') => k a w'
           | (inl e, w') => (inl e, w')
           end.
Definition lift_result {A} (r : exn + A) : M A := fun w => (r, w).

Notation "'let!' x ':=' m 'in' k" := (bind m (fun x => k))
  (at level 10, x pattern, m at level 100, k at level 200).
Notation "m ';;' k" := (bind m (fun _ => k))
  (at level 100, k at level 200, right associativity).

(** [attempt m] runs [m] and hands back its outcome, value or exception,
    without raising: a [try] block, and what a pool worker does with a task. *)
Definition attempt {A} (m : M A) : M (exn + A) :=
  fun w => let '(r, w') := m w in (inr r, w').

(** *** The logger *)

Definition logger_debug (fmt : string) (args : list LogArg) : M unit :=
  fun w => (inr tt, add_log (LogMsg DEBUG fmt args) w).
Definition logger_warning (fmt : string) (args : list LogArg) : M unit :=
  fun w => (inr tt, add_log (LogMsg WARNING fmt args) w).
Definition logger_error (e : exn) : M unit :=
  fun w => (inr tt, add_log (LogExn ERROR e) w).

(** *** The file system *)

(** [path.exists(p)] *)
Definition path_exists (p : string) (w : World) : bool :=
  match files w !! p with Some _ => true | None => false end.

(** [path.isdir(p)] *)
Definition path_isdir (p : string) (w : World) : bool :=
  match files w !! p with Some Dir => true | _ => false end.

(** [open(p, 'r')]: the bytes of a regular file, still to be decoded. *)
Definition open_read (p : string) : M string :=
  fun w => match files w !! p with
           | Some (File content) => (inr content, w)
           | _ => (inl (OSError p), w)
           end.

(** [open(p, 'wb')]: creates [p] or truncates it; fails when [p] is a
    directory or when its directory does not exist (the empty directory name
    is the current directory). *)
Definition open_wb (p : string) : M unit :=
  fun w =>
    let parent := PosixPath.dirname p in
    if path_isdir p w || negb (PyStr.is_empty parent || path_isdir parent w)
    then (inl (OSError p), w)
    else (inr tt, set_files (<[p := File ""]> (files w)) w).

(** What a file holds once [data] is written from its start. *)
Fixpoint overwrite (data old : string) : string :=
  match data with
  | "" => old
  | String c data' =>
      String c (overwrite data'
                  match old with "" => "" | String _ old' => old' end)
  end.

(** ** What the script imports

    The third-party packages and the platform are parameters of the
    embedding; nothing is assumed about them but their types. *)

(** A task handed to the pool: [download_image(url, out_dir)]. *)
Definition Task : Type := string * string.

(** [rfc6266.ContentDisposition], as far as the script reads it. *)
Record ContentDisposition : Type := mkContentDisposition {
  filename_unsafe : string
}.

(** A text file open for reading, by what its iteration does: the lines it
    yields, and the exception that ends the iteration early (a byte that
    does not decode, a failing device), if any. The lines are those the
    file held when it was opened: no task writes to the input while it is
    read. *)
Record TextFile : Type := mkTextFile {
  file_lines : list string;
  read_error : option exn
}.

(** [io.StringIO(text)], given by the lines of [text]: reading it does not
    fail. *)
Definition StringIO (lines : list string) : TextFile := mkTextFile lines None.

(** Whose turn it is, while the pool is at work. *)
Inductive Turn : Type :=
  | WorkerTurn (k : nat)    (* the [k]-th thread at work performs its next call *)
  | MainTurn (j : nat).     (* the manager's loop gets the [j]-th future that
                               is done and not yet yielded *)

Record Env : Type := mkEnv {
  (** [Session.get(url, stream=True)]: the outcome of the [n]-th request
      of the run, a response or an exception of [requests]. *)
  http_get : nat -> string -> exn + Response;
  (** [rfc6266.parse_requests_response(response)] *)
  parse_requests_response : Response -> exn + ContentDisposition;
  (** [requests.utils.unquote_unreserved(uri)] *)
  unquote_unreserved : string -> exn + string;
  (** [pathvalidate.sanitize_filename(name, replacement_text='_')] *)
  sanitize_filename : string -> string;
  (** [sys.version_info.major] *)
  python_major : Z;
  (** the pool size [ThreadPoolExecutor] picks when given [None] *)
  default_workers : positive;
  (** the text layer of [open(name, 'r')]: what iterating a file of these
      bytes does *)
  decode : string -> TextFile;
  (** the order in which the threads get their turns *)
  schedule : list Turn
}.

(** [ContentDisposition.filename_sanitized(extension)] of rfc6266 0.0.4,
    with its default [default_filename='file']: the base name of
    [filename_unsafe] without leading dots, ['file'] if nothing is left,
    with ['.' + extension] appended unless it already ends with it. *)
Definition filename_sanitized (cd : ContentDisposition) (extension : string)
  : exn + string :=
  if PyStr.is_empty extension then inl AssertionError
  else if PyStr.startswith extension "." then inl AssertionError
  else
    let extension := "." +:+ extension in
    let fname := filename_unsafe cd in
    let fname := PosixPath.basename fname in      (* posixpath.basename *)
    let fname := PosixPath.basename fname in      (* os.path.basename *)
    let fname := PyStr.lstrip_char "." fname in
    let fname := if PyStr.is_empty fname then "file" else fname in
    if negb (PyStr.endswith fname extension)
    then inr (fname +:+ extension)
    else inr fname.

(** [concurrent.futures.ThreadPoolExecutor(max_workers)] (Python 3.5 and
    later, and the [futures] back-port from 3.1): [None] selects the default
    size, a value that is not positive is rejected. The result is the size of
    the pool. *)
Definition ThreadPoolExecutor (E : Env) (max_workers : option Z) : M Z :=
  match max_workers with
  | None => ret (Z.pos (default_workers E))
  | Some n =>
      if n <=? 0 then raise (ValueError ["max_workers must be greater than 0"])
      else ret n
  end.

(** [CaseInsensitiveDict.get(name, default)] *)
Fixpoint headers_get (hs : list (string * string)) (name default : string)
  : string :=
  match hs with
  | [] => default
  | (k, v) :: hs' =>
      if String.eqb (PyStr.lower k) (PyStr.lower name) then v
      else headers_get hs' name default
  end.

(** [Response.raise_for_status()] *)
Definition raise_for_status (r : Response) : M unit :=
  if (400 <=? status_code r) && (status_code r <? 600)
  then raise (HTTPError (status_code r))
  else ret tt.

(** [Response.close()] *)
Definition response_close (r : Response) : M unit :=
  fun w => (inr tt, add_closed (url r) w).

(** [requests.Session()]: a new object. *)
Definition new_Session : M nat :=
  fun w => (inr (next_id w), bump_id w).

(** [session.get(url, stream=True)] *)
Definition session_get (E : Env) (session : nat) (u : string) : M Response :=
  fun w => (http_get E (length (requests w)) u, add_request u w).

(** [shutil.copyfileobj(response.raw, f)] for the file [f] that
    [open(p, 'wb')] returned, and the closing of [f]: what the stream
    delivers is written from the start of the file, and the error of the
    stream, if any, is raised after that. *)
Definition copyfileobj (response : Response) (p : string) : M unit :=
  fun w =>
    let w' :=
      match files w !! p with
      | Some (File old) =>
          set_files (<[p := File (overwrite (raw response) old)]> (files w)) w
      | _ => w
      end in
    (match raw_error response with Some e => inl e | None => inr tt end, w').

(** [threading.local()]: a new object without attributes; an attribute set
    on it is seen by the thread that set it only. *)
Definition threading_local : gmap (nat * string) nat := ∅.

Definition getattr (o : gmap (nat * string) nat) (tid : nat) (name : string)
  : M nat :=
  match o !! (tid, name) with
  | Some v => ret v
  | None => raise (AttributeError name)
  end.

(** ** The script *)

Record DownloadStats : Type := mkDownloadStats {
  success : Z;
  failed : Z;
  total : Z
}.

(** [url_file]: a file-like object, or the name of a file still to be
    opened. *)
Inductive UrlFile : Type :=
  | FileObj (f : TextFile)
  | FileName (name : string).

Definition LF : ascii := ascii_of_N 10.
Definition CR : ascii := ascii_of_N 13.

(** Text mode: CR LF and CR are read as LF. *)
Fixpoint universal_newlines (s : string) : string :=
  match s with
  | "" => ""
  | String c s' =>
      if Ascii.eqb c CR then
        match s' with
        | String c2 s'' =>
            if Ascii.eqb c2 LF then String LF (universal_newlines s'')
            else String LF (universal_newlines s')
        | "" => String LF ""
        end
      else String c (universal_newlines s')
  end.

(** Iterating a text file: the lines, each with its line feed. *)
Fixpoint readlines (s : string) : list string :=
  match s with
  | "" => []
  | String c s' =>
      if Ascii.eqb c LF then String c "" :: readlines s'
      else match readlines s' with
           | [] => [String c ""]
           | l :: ls => String c l :: ls
           end
  end.

(** [range(lo, hi)] *)
Fixpoint range_from (lo : Z) (n : nat) : list Z :=
  match n with
  | O => []
  | S n' => lo :: range_from (lo + 1) n'
  end.

Definition range (lo hi : Z) : list Z := range_from lo (Z.to_nat (hi - lo)).

Section Script.
Variable E : Env.

(** [get_session()], called on thread [tid]. *)
Definition get_session (tid : nat) : M nat :=
  let local := threading_local in
  let! r := attempt (getattr local tid "session") in
  match r with
  | inr session => ret session
  | inl (AttributeError _) =>
      let! session := new_Session in
      let local := <[(tid, "session") := session]> local in
      ret session
  | inl e => raise e
  end.

(** The name tried at index [i]: ['{}_{}.{}'.format(basename, i, ext)]
    joined to [dirname]. *)
Definition candidate (file_path : string) (i : Z) : string :=
  let dirname := PosixPath.dirname file_path in
  let '(basename, _, ext) := PyStr.rpartition "." (PosixPath.basename file_path) in
  PosixPath.join dirname
    (basename +:+ "_" +:+ PyStr.str_of_int i +:+ "." +:+ ext).

(** The [for ... else] loop of [rename_if_exists]: the path it leaves in
    [file_path], and whether it left by [break]. *)
Fixpoint rename_loop (orig : string) (w : World) (indices : list Z)
    (file_path : string) : string * bool :=
  match indices with
  | [] => (file_path, false)
  | i :: rest =>
      let file_path := candidate orig i in
      if negb (path_exists file_path w) then (file_path, true)
      else rename_loop orig w rest file_path
  end.

Definition rename_if_exists (file_path : string) : M string :=
  fun w =>
    if negb (path_exists file_path w) then (inr file_path, w)
    else
      match rename_loop file_path w (range 1 10000) file_path with
      | (file_path, true) => (inr file_path, w)
      | (file_path, false) =>
          (logger_warning "Failed to rename %r" [Str file_path];;
           ret file_path) w
      end.

(** [safe_aliases] of [get_filename] *)
Definition safe_aliases (extension : string) : list string :=
  [ PyStr.lower extension;
    PyStr.replace "jpeg" "jpg" (PyStr.lower extension);
    PyStr.replace "jpg" "jpeg" (PyStr.lower extension) ].

(** [expected_extension in safe_aliases] *)
Definition in_aliases (expected_extension extension : string) : bool :=
  existsb (String.eqb expected_extension) (safe_aliases extension).

Definition get_filename (response : Response) (expected_extension : string)
  : M string :=
  let! parsed := attempt (lift_result (parse_requests_response E response)) in
  match parsed with
  | inl error =>
      logger_warning
        "Failed to parse content_disposition header from %r, error: %r"
        [Str (url response); Exn error];;
      let! unquoted := lift_result (unquote_unreserved E (url response)) in
      let basename := PyStr.rsplit1_last "/" unquoted in
      ret ((if PyStr.is_empty basename then "file" else basename)
           +:+ "." +:+ expected_extension)
  | inr content_disposition =>
      let extension := PyStr.rsplit1_last "." (filename_unsafe content_disposition) in
      let expected_extension :=
        if in_aliases expected_extension extension then extension
        else expected_extension in
      lift_result (filename_sanitized content_disposition expected_extension)
  end.

(** The message of the content-type error:
    ['Invalid image type {!r} from {!r}'.format(content_type, url)] *)
Definition invalid_image_type (content_type u : string) : string :=
  "Invalid image type " +:+ PyStr.repr content_type
    +:+ " from " +:+ PyStr.repr u.

(** [download_image(url, out_dir)], run by thread [tid]. *)
Definition download_image (tid : nat) (u out_dir : string) : M string :=
  logger_debug "Requesting %r" [Str u];;
  let! session := get_session tid in
  let! response := session_get E session u in
  raise_for_status response;;
  let content_type :=
    PyStr.split1_head ";" (headers_get (headers response) "content-type" "") in
  let '(media_type, _, subtype) := PyStr.partition "/" content_type in
  if negb (String.eqb media_type "image") || PyStr.is_empty subtype then
    response_close response;;
    raise (ValueError [invalid_image_type content_type u])
  else
    let! filename := get_filename response subtype in
    let filename := sanitize_filename E filename in
    let! file_path := rename_if_exists (PosixPath.join out_dir filename) in
    open_wb file_path;;
    copyfileobj response file_path;;
    logger_debug "Saved %r" [Str (PosixPath.basename file_path)];;
    ret filename.

End Script.

(** ** The script, call by call

    A pool thread runs [download_image] while other threads run theirs. What
    one thread does between two of its calls on the world is invisible to
    the others; the calls themselves are the steps that interleave. *)

(** The calls of a task on the world. *)
Inductive Call : Type -> Type :=
  | LoggerDebug (fmt : string) (args : list LogArg) : Call unit
  | LoggerWarning (fmt : string) (args : list LogArg) : Call unit
  | NewSession : Call nat
  | SessionGet (session : nat) (u : string) : Call Response
  | ResponseClose (r : Response) : Call unit
  | PathExists (p : string) : Call bool
  | OpenWb (p : string) : Call unit
  | CopyFileObj (r : Response) (p : string) : Call unit.

(** What a call does, in terms of the operations above. *)
Definition perform (E : Env) {X : Type} (c : Call X) : M X :=
  match c with
  | LoggerDebug fmt args => logger_debug fmt args
  | LoggerWarning fmt args => logger_warning fmt args
  | NewSession => new_Session
  | SessionGet session u => session_get E session u
  | ResponseClose r => response_close r
  | PathExists p => fun w => (inr (path_exists p w), w)
  | OpenWb p => open_wb p
  | CopyFileObj r p => copyfileobj r p
  end.

(** A computation of a thread: it has returned or raised, or it is about
    to perform a call and goes on with the outcome of it. *)
Inductive Thread (A : Type) : Type :=
  | Return (r : exn + A)
  | Do {X : Type} (c : Call X) (k : exn + X -> Thread A).

Arguments Return {A} r.
Arguments Do {A X} c k.

(** One step of a thread. *)
Definition step (E : Env) {A : Type} (t : Thread A)
  : World -> Thread A * World :=
  fun w =>
    match t with
    | Return r => (Return r, w)
    | Do c k => let '(r, w') := perform E c w in (k r, w')
    end.

(** A thread run to its end without interruption. *)
Fixpoint run (E : Env) {A : Type} (t : Thread A) : M A :=
  fun w =>
    match t with
    | Return r => (r, w)
    | Do c k => let '(r, w') := perform E c w in run E (k r) w'
    end.

Declare Scope thread_scope.

Module Stepwise.

Definition ret {A} (a : A) : Thread A := Return (inr a).
Definition raise {A} (e : exn) : Thread A := Return (inl e).
Definition lift_result {A} (r : exn + A) : Thread A := Return r.

Fixpoint bind {A B} (t : Thread A) (k : A -> Thread B) : Thread B :=
  match t with
  | Return (inr a) => k a
  | Return (inl e) => Return (inl e)
  | Do c k' => Do c (fun r => bind (k' r) k)
  end.

Fixpoint attempt {A} (t : Thread A) : Thread (exn + A) :=
  match t with
  | Return r => Return (inr r)
  | Do c k => Do c (fun r => attempt (k r))
  end.

Definition call {X} (c : Call X) : Thread X := Do c Return.

Notation "'let!' x ':=' m 'in' k" := (bind m (fun x => k))
  (at level 10, x pattern, m at level 100, k at level 200) : thread_scope.
Notation "m ';;' k" := (bind m (fun _ => k))
  (at level 100, k at level 200, right associativity) : thread_scope.

Local Open Scope thread_scope.

Definition logger_debug (fmt : string) (args : list LogArg) : Thread unit :=
  call (LoggerDebug fmt args).
Definition logger_warning (fmt : string) (args : list LogArg) : Thread unit :=
  call (LoggerWarning fmt args).
Definition new_Session : Thread nat := call NewSession.
Definition session_get (session : nat) (u : string) : Thread Response :=
  call (SessionGet session u).
Definition response_close (r : Response) : Thread unit :=
  call (ResponseClose r).
Definition path_exists (p : string) : Thread bool := call (PathExists p).
Definition open_wb (p : string) : Thread unit := call (OpenWb p).
Definition copyfileobj (response : Response) (p : string) : Thread unit :=
  call (CopyFileObj response p).

Definition raise_for_status (r : Response) : Thread unit :=
  if (400 <=? status_code r) && (status_code r <? 600)
  then raise (HTTPError (status_code r))
  else ret tt.

Definition getattr (o : gmap (nat * string) nat) (tid : nat) (name : string)
  : Thread nat :=
  match o !! (tid, name) with
  | Some v => ret v
  | None => raise (AttributeError name)
  end.

Definition get_session (tid : nat) : Thread nat :=
  let local := threading_local in
  let! r := attempt (getattr local tid "session") in
  match r with
  | inr session => ret session
  | inl (AttributeError _) =>
      let! session := new_Session in
      let local := <[(tid, "session") := session]> local in
      ret session
  | inl e => raise e
  end.

Fixpoint rename_loop (orig : string) (indices : list Z) (file_path : string)
  : Thread (string * bool) :=
  match indices with
  | [] => ret (file_path, false)
  | i :: rest =>
      let file_path := candidate orig i in
      let! taken := path_exists file_path in
      if negb taken then ret (file_path, true)
      else rename_loop orig rest file_path
  end.

Definition rename_if_exists (file_path : string) : Thread string :=
  let! taken := path_exists file_path in
  if negb taken then ret file_path
  else
    let! found := rename_loop file_path (range 1 10000) file_path in
    match found with
    | (file_path, true) => ret file_path
    | (file_path, false) =>
        logger_warning "Failed to rename %r" [Str file_path];;
        ret file_path
    end.

Definition get_filename (E : Env) (response : Response)
    (expected_extension : string) : Thread string :=
  let! parsed := attempt (lift_result (parse_requests_response E response)) in
  match parsed with
  | inl error =>
      logger_warning
        "Failed to parse content_disposition header from %r, error: %r"
        [Str (url response); Exn error];;
      let! unquoted := lift_result (unquote_unreserved E (url response)) in
      let basename := PyStr.rsplit1_last "/" unquoted in
      ret ((if PyStr.is_empty basename then "file" else basename)
           +:+ "." +:+ expected_extension)
  | inr content_disposition =>
      let extension := PyStr.rsplit1_last "." (filename_unsafe content_disposition) in
      let expected_extension :=
        if in_aliases expected_extension extension then extension
        else expected_extension in
      lift_result (filename_sanitized content_disposition expected_extension)
  end.

Definition download_image (E : Env) (tid : nat) (u out_dir : string)
  : Thread string :=
  logger_debug "Requesting %r" [Str u];;
  let! session := get_session tid in
  let! response := session_get session u in
  raise_for_status response;;
  let content_type :=
    PyStr.split1_head ";" (headers_get (headers response) "content-type" "") in
  let '(media_type, _, subtype) := PyStr.partition "/" content_type in
  if negb (String.eqb media_type "image") || PyStr.is_empty subtype then
    response_close response;;
    raise (ValueError [invalid_image_type content_type u])
  else
    let! filename := get_filename E response subtype in
    let filename := sanitize_filename E filename in
    let! file_path := rename_if_exists (PosixPath.join out_dir filename) in
    open_wb file_path;;
    copyfileobj response file_path;;
    logger_debug "Saved %r" [Str (PosixPath.basename file_path)];;
    ret filename.

End Stepwise.

(** ** The pool *)

(** A worker thread at work on a task. *)
Record Worker : Type := mkWorker {
  worker_id : nat;
  work_item : Task;
  thread : Thread string
}.

(** The executor while it runs: the tasks submitted that no worker has
    taken yet, first in, first out; the workers at work, never more than
    [max_workers]; the futures that are done and that the manager's loop
    has not been handed yet, each with its outcome, value or exception. *)
Record Pool : Type := mkPool {
  work_queue : list Task;
  workers : list Worker;
  finished : list (Task * (exn + string))
}.

Section Manager.
Variable E : Env.

(** Worker [tid] takes a task. *)
Definition start (tid : nat) (item : Task) : Worker :=
  mkWorker tid item (Stepwise.download_image E tid item.1 item.2).

(** [executor.submit(download_image, url, out_dir)] for each task of [fs],
    on an executor of [executor] workers: the first tasks are taken by a
    worker each, the others wait. *)
Definition submit (executor : Z) (fs : list Task) : Pool :=
  let n := Z.to_nat executor in
  mkPool (drop n fs) (imap start (take n fs)) [].

(** The turn of the [k]-th worker at work: its thread performs a call. When
    the task has returned or raised, its future is done, and the worker
    takes the next task of the queue, or rests when there is none. *)
Definition worker_turn (k : nat) (pool : Pool) : World -> Pool * World :=
  fun w =>
    match workers pool !! k with
    | None => (pool, w)
    | Some worker =>
        let '(t, w') := step E (thread worker) w in
        match t with
        | Return outcome =>
            let finished :=
              (finished pool ++ [(work_item worker, outcome)])%list in
            match work_queue pool with
            | [] => (mkPool [] (delete k (workers pool)) finished, w')
            | item :: rest =>
                (mkPool rest
                   (<[k := start (worker_id worker) item]> (workers pool))
                   finished,
                 w')
            end
        | Do _ _ =>
            (mkPool (work_queue pool)
               (<[k := mkWorker (worker_id worker) (work_item worker) t]>
                  (workers pool))
               (finished pool),
             w')
        end
    end.

(** The tasks run to their end one after the other, each outcome kept. *)
Fixpoint run_each (items : list (Task * Thread string))
  : M (list (Task * (exn + string))) :=
  match items with
  | [] => ret []
  | (item, t) :: rest =>
      let! outcome := attempt (run E t) in
      let! outcomes := run_each rest in
      ret ((item, outcome) :: outcomes)
  end.

(** The pool left to itself until every future is done: the tasks under
    way end in the order of their workers, then the tasks of the queue in
    theirs. The futures that are done, oldest first. *)
Definition drain (pool : Pool) : M (list (Task * (exn + string))) :=
  let! outcomes :=
    run_each
      (map (fun worker => (work_item worker, thread worker)) (workers pool)
       ++ map (fun item => (item, thread (start 0 item))) (work_queue pool)) in
  ret (finished pool ++ outcomes)%list.

(** [for f in ...: error = f.exception(); if error: ...], over futures that
    are done: log and count errors. *)
Fixpoint count_errors (completed : list (Task * (exn + string)))
    (error_count : Z) : M Z :=
  match completed with
  | [] => ret error_count
  | (_, inl error) :: rest =>
      let error_count := error_count + 1 in
      logger_error error;;
      count_errors rest error_count
  | (_, inr _) :: rest => count_errors rest error_count
  end.

(** [for f in futures.as_completed(fs)] while the pool is at work: the
    workers and the loop take their turns as the schedule has it; once the
    schedule is used up, the pool is left to itself and the loop gets the
    futures that remain. The futures in the order in which the loop got
    them, and the count of the errors. *)
Fixpoint as_completed (turns : list Turn) (pool : Pool)
    (completed : list (Task * (exn + string))) (error_count : Z)
  : M (list (Task * (exn + string)) * Z) :=
  match turns with
  | [] =>
      let! rest := drain pool in
      let! error_count := count_errors rest error_count in
      ret ((completed ++ rest)%list, error_count)
  | WorkerTurn k :: turns =>
      fun w =>
        let '(pool, w) := worker_turn k pool w in
        as_completed turns pool completed error_count w
  | MainTurn j :: turns =>
      match finished pool !! j with
      | None => as_completed turns pool completed error_count
      | Some f =>
          let pool :=
            mkPool (work_queue pool) (workers pool) (delete j (finished pool)) in
          let! error_count := count_errors [f] error_count in
          as_completed turns pool (completed ++ [f])%list error_count
      end
  end.

(** Leaving the [with] block by an exception: [executor.shutdown(wait=True)]
    lets the workers run every task submitted; nobody looks at the
    futures. *)
Fixpoint shutdown (turns : list Turn) (pool : Pool) : M unit :=
  match turns with
  | [] => drain pool;; ret tt
  | WorkerTurn k :: turns =>
      fun w =>
        let '(pool, w) := worker_turn k pool w in
        shutdown turns pool w
  | MainTurn _ :: turns => shutdown turns pool
  end.

(** [url_file] as a file object; a name is opened first. *)
Definition open_url_file (url_file : UrlFile) : M TextFile :=
  match url_file with
  | FileObj f => ret f
  | FileName name =>
      let! bytes := open_read name in
      ret (decode E bytes)
  end.

(** [(line.strip() for line in url_file if line.strip())] *)
Definition read_urls (lines : list string) : list string :=
  map PyStr.strip
    (List.filter (fun line => negb (PyStr.is_empty (PyStr.strip line))) lines).

(** [download_manager]. The file is read while the tasks are submitted: an
    error of the reading is raised from within the [with] block, with the
    tasks of the lines read so far in the pool. *)
Definition download_manager (url_file : UrlFile) (out_dir : string)
    (max_workers : option Z) : M DownloadStats :=
  let! url_file := open_url_file url_file in
  (fun w =>
     if negb (path_isdir out_dir w)
     then raise (ValueError ["Invalid output directory %r"; out_dir]) w
     else ret tt w);;
  let max_workers :=
    match max_workers with
    | None => if python_major E <? 3 then Some 10 else None
    | Some n => Some n
    end in
  let error_count := 0 in
  let! executor := ThreadPoolExecutor E max_workers in
  let urls := read_urls (file_lines url_file) in
  let fs := map (fun u => (u, out_dir)) urls in
  match read_error url_file with
  | Some error =>
      shutdown (schedule E) (submit executor fs);;
      raise error
  | None =>
      let! counted :=
        as_completed (schedule E) (submit executor fs) [] error_count in
      let '(completed, error_count) := counted in
      ret (mkDownloadStats (Z.of_nat (length fs) - error_count)
             error_count (Z.of_nat (length fs)))
  end.

End Manager.

(** A decoder that cannot fail: every byte is a character (ISO-8859-1),
    and CR LF and CR end a line as LF does. *)
Definition latin_1 (bytes : string) : TextFile :=
  mkTextFile (readlines (universal_newlines bytes)) None.

(** ** The specification's notions, in its own words *)

(** "Treat jpg and jpeg as mutually interchangeable aliases
    (case-insensitive)": two extensions are alias-equivalent when, letter
    case aside, they are the same or one is jpg and the other jpeg. *)
Definition alias_equivalent (parsed expected : string) : bool :=
  let p := PyStr.lower parsed in
  let e := PyStr.lower expected in
  String.eqb p e
  || (String.eqb p "jpg" || String.eqb p "jpeg")
     && (String.eqb e "jpg" || String.eqb e "jpeg").

(** ** Observations on a run *)

(** The exceptions logged at level ERROR, newest first. *)
Fixpoint error_records (l : list LogRecord) : list exn :=
  match l with
  | [] => []
  | LogExn ERROR e :: l' => e :: error_records l'
  | _ :: l' => error_records l'
  end.

(** The warnings logged, newest first. *)
Fixpoint warnings (l : list LogRecord) : list (string * list LogArg) :=
  match l with
  | [] => []
  | LogMsg WARNING fmt args :: l' => (fmt, args) :: warnings l'
  | _ :: l' => warnings l'
  end.

(** The exceptions among the outcomes of the completed tasks, in order. *)
Fixpoint failures (completed : list (Task * (exn + string))) : list exn :=
  match completed with
  | [] => []
  | (_, inl e) :: rest => e :: failures rest
  | (_, inr _) :: rest => failures rest
  end.

(** [raise_for_status] lets the response through. *)
Definition status_ok (r : Response) : bool :=
  negb ((400 <=? status_code r) && (status_code r <? 600)).

(** The declared content type of a response and its two parts, as
    [download_image] computes them. *)
Definition declared_content_type (r : Response) : string :=
  PyStr.split1_head ";" (headers_get (headers r) "content-type" "").
Definition media_type (r : Response) : string :=
  (PyStr.partition "/" (declared_content_type r)).1.1.
Definition subtype (r : Response) : string :=
  (PyStr.partition "/" (declared_content_type r)).2.

(** Strings [repr] leaves as they are between single quotes. *)
Definition plain_char (c : ascii) : bool :=
  PyStr.isprintable c && negb (Ascii.eqb c "\") && negb (Ascii.eqb c "'").

Fixpoint plain (s : string) : bool :=
  match s with
  | "" => true
  | String c s' => plain_char c && plain s'
  end.

(** The world a task leaves when it stops at the content-type check: one
    debug record, one session allocated, one request issued, its response
    closed. *)
Definition rejected (u : string) (response : Response) (w : World) : World :=
  add_closed (url response)
    (add_request u (bump_id (add_log (LogMsg DEBUG "Requesting %r" [Str u]) w))).

(** A computation leaves an observation of the world as it found it. *)
Definition preserves {A X : Type} (obs : World -> X) (m : M A) : Prop :=
  forall w, obs (m w).2 = obs w.

(** An observation that does not depend on the messages logged, on the
    files, on the responses closed, or on the objects allocated. *)
Class Quiet {X : Type} (obs : World -> X) : Prop := {
  quiet_log : forall lvl fmt args w,
    obs (add_log (LogMsg lvl fmt args) w) = obs w;
  quiet_files : forall f w, obs (set_files f w) = obs w;
  quiet_closed : forall u w, obs (add_closed u w) = obs w;
  quiet_id : forall w, obs (bump_id w) = obs w
}.

(** The exceptions logged at level ERROR so far, newest first. *)
Definition logged_errors (w : World) : list exn := error_records (log w).

(** The world after [logger.error] was called on each exception in turn. *)
Definition log_errors (errors : list exn) (w : World) : World :=
  fold_left (fun w e => add_log (LogExn ERROR e) w) errors w.

(** The tasks [download_manager] queues for the lines read. *)
Definition tasks_of (lines : list string) (out_dir : string) : list Task :=
  map (fun u => (u, out_dir)) (read_urls lines).

(** The lines of the input that are not blank. *)
Definition non_blank (lines : list string) : list string :=
  List.filter (fun line => negb (PyStr.is_empty (PyStr.strip line))) lines.

(** The world once a task has logged its start, allocated its session and
    issued its request. *)
Definition started (u : string) (w : World) : World :=
  add_request u (bump_id (add_log (LogMsg DEBUG "Requesting %r" [Str u]) w)).

(** The warnings of [rename_if_exists] among the records logged. *)
Fixpoint rename_failures (l : list LogRecord) : nat :=
  match l with
  | [] => 0
  | LogMsg WARNING fmt _ :: l' =>
      ((if String.eqb fmt "Failed to rename %r" then 1 else 0)
       + rename_failures l')%nat
  | _ :: l' => rename_failures l'
  end.

(** The warning [get_filename] logs when the header does not parse. *)
Definition parse_warning (response : Response) (error : exn) : LogRecord :=
  LogMsg WARNING
    "Failed to parse content_disposition header from %r, error: %r"
    [Str (url response); Exn error].

(** The number of tasks that returned a file name. *)
Fixpoint successes (completed : list (Task * (exn + string))) : nat :=
  match completed with
  | [] => 0
  | (_, inr _) :: rest => S (successes rest)
  | (_, inl _) :: rest => successes rest
  end.

(** The response is an image as far as [download_image] checks: the status
    is no error and the declared content type is [image/] and a subtype. *)
Definition is_image (r : Response) : bool :=
  status_ok r
  && negb (negb (String.eqb (media_type r) "image")
           || PyStr.is_empty (subtype r)).

(** A task for the URL [u] has the outcome that the answer to its request
    calls for. When the request raised, that exception; for a response with
    an error status, [HTTPError]; for one that is no image, the content-type
    [ValueError]; when [get_filename] raises, its exception. Otherwise the
    task has returned the sanitized name and the body has arrived
    unbroken, or it has raised the [OSError] of the opening of the file or
    the error that broke the stream. ([get_filename] is run in the world
    [w], on which its result does not depend.) *)
Definition explained (E : Env) (w : World) (u : string)
    (answer : exn + Response) (outcome : exn + string) : Prop :=
  match answer with
  | inl e => outcome = inl e
  | inr response =>
      if negb (status_ok response)
      then outcome = inl (HTTPError (status_code response))
      else if negb (String.eqb (media_type response) "image")
              || PyStr.is_empty (subtype response)
      then outcome
           = inl (ValueError
                    [invalid_image_type (declared_content_type response) u])
      else
        match (get_filename E response (subtype response) w).1 with
        | inl e => outcome = inl e
        | inr name =>
            match outcome with
            | inr returned =>
                returned = sanitize_filename E name
                /\ raw_error response = None
            | inl e => (exists p, e = OSError p) \/ raw_error response = Some e
            end
        end
  end.

(** The answer settles the outcome of the task before any file comes into
    play: the request raised, the status is an error, the response is no
    image, or [get_filename] raises. *)
Definition settled_early (E : Env) (w : World) (answer : exn + Response)
  : bool :=
  match answer with
  | inl _ => true
  | inr response =>
      negb (is_image response)
      || match (get_filename E response (subtype response) w).1 with
         | inl _ => true
         | inr _ => false
         end
  end.

(** No response of the server breaks while its body is read. *)
Definition streams_intact (E : Env) : Prop :=
  forall n u response,
    http_get E n u = inr response -> raw_error response = None.

(** One list extends another at its front. *)
Definition extends {A : Type} (l l0 : list A) : Prop :=
  exists added, l = (added ++ l0)%list.

(** ** Test doubles, after [test_image_downloader.py] *)

Module Mock.

(** [responses.add(responses.GET, url, status=..., content_type=...)] *)
Definition response (status : Z) (hs : list (string * string)) (u : string)
  : Response :=
  mkResponse status hs u "image data" None.

Definition content_type (ct : string) : list (string * string) :=
  [("Content-Type", ct)].

(** Turns in which two workers and the manager's loop alternate without
    any regularity; what is left when they are used up is left to the
    pool. *)
Definition turns : list Turn :=
  [ WorkerTurn 1; WorkerTurn 0; WorkerTurn 0; WorkerTurn 1; WorkerTurn 1;
    WorkerTurn 0; MainTurn 0; WorkerTurn 0; WorkerTurn 1; WorkerTurn 0;
    MainTurn 1; MainTurn 0; WorkerTurn 1; WorkerTurn 1; WorkerTurn 0;
    WorkerTurn 1; WorkerTurn 0; WorkerTurn 0; MainTurn 0; WorkerTurn 1;
    WorkerTurn 0 ].

(** A server that answers every URL with the headers [hs], except the URLs
    containing "raise", which get a 404; the parser finds the file name
    [name]. *)
Definition env (hs : list (string * string)) (name : string) : Env :=
  mkEnv
    (fun _ u =>
       if PyStr.contains "raise" u
       then inr (response 404 (content_type "text/plain") u)
       else inr (response 200 hs u))
    (fun _ => inr (mkContentDisposition name))
    (fun uri => inr uri)
    (fun name => name)
    3
    5
    latin_1
    turns.

(** The server of [test_download_manager]: JPEG images named foobar.jpg. *)
Definition jpg_env : Env := env (content_type "image/jpg") "foobar.jpg".

(** An empty directory [tmpdir]. *)
Definition tmpdir : World := mkWorld {[ "tmpdir" := Dir ]} [] [] [] 0.

Definition touch (p : string) (w : World) : World :=
  set_files (<[p := File ""]> (files w)) w.

(** [url_list] of [test_download_manager] *)
Definition url_list : list string :=
  [ String LF "";
    "        success" +:+ String LF "";
    "        success" +:+ String LF "";
    String LF "";
    "        raise" +:+ String LF "";
    "        raise" +:+ String LF "";
    "        success" +:+ String LF "";
    "    " ].

(** [tmpdir] holding [test.jpg] and [test_1.jpg] ... [test_9999.jpg]. *)
Definition crowded : World :=
  fold_right (fun i w => touch (candidate "tmpdir/test.jpg" i) w)
    (touch "tmpdir/test.jpg" tmpdir) (range 1 10000).

End Mock.

(** ** The command line: [main] *)

Module Cli.

(** The namespace [parser.parse_args] returns. [filename] is the file
    [argparse.FileType('r')] has opened. *)
Record Options : Type := mkOptions {
  filename : TextFile;
  out_dir : string;
  max_workers : option Z;
  verbose : bool
}.

(** What [main] takes from the [os] module; nothing is assumed about it. *)
Record Platform : Type := mkPlatform {
  (** [os.makedirs(name)] *)
  makedirs : string -> M unit;
  (** [os.path.normpath(path)] *)
  normpath : string -> string
}.

(** [main] also sets the level of the logger. *)
Record Process : Type := mkProcess {
  logger_level : Level;
  world : World
}.

Definition logger_info (fmt : string) (args : list LogArg) : M unit :=
  fun w => (inr tt, add_log (LogMsg INFO fmt args) w).

(** [logger.error(fmt, arg)] *)
Definition logger_error_msg (fmt : string) (args : list LogArg) : M unit :=
  fun w => (inr tt, add_log (LogMsg ERROR fmt args) w).

(** The world once [main] has announced that it creates the directory. *)
Definition creating (P : Platform) (options : Options) (w : World) : World :=
  add_log (LogMsg INFO "Creating %r" [Str (normpath P (out_dir options))]) w.

(** The step of [main] that creates the output directory: [Some (-1)] is
    its [return -1], [None] is falling through. *)
Definition ensure_out_dir (P : Platform) (options : Options) : M (option Z) :=
  fun w =>
    if negb (path_exists (out_dir options) w) then
      (logger_info "Creating %r" [Str (normpath P (out_dir options))];;
       let! created := attempt (makedirs P (out_dir options)) in
       match created with
       | inr _ => ret None
       | inl (OSError _) =>
           logger_error_msg "Invalid output directory %r"
             [Str (normpath P (out_dir options))];;
           ret (Some (-1))
       | inl e => raise e
       end) w
    else ret None w.

(** The record [main] logs at the end. *)
Definition summary (stats : DownloadStats) : LogRecord :=
  LogMsg INFO "Downloaded %d files, %d failed (%s entries in file)"
    [Str (PyStr.str_of_int (success stats));
     Str (PyStr.str_of_int (failed stats));
     Str (PyStr.str_of_int (total stats))].

(** [main], from the parsed options on. The result is the value returned:
    [Some (-1)], or [None]. Numbers logged are given by their digits. *)
Definition main (P : Platform) (E : Env) (options : Options) (p : Process)
  : (exn + option Z) * Process :=
  let level := if verbose options then DEBUG else INFO in
  let run : M (option Z) :=
    let! returned := ensure_out_dir P options in
    match returned with
    | Some code => ret (Some code)
    | None =>
        let! stats :=
          download_manager E (FileObj (filename options)) (out_dir options)
            (max_workers options) in
        logger_info "Downloaded %d files, %d failed (%s entries in file)"
          [Str (PyStr.str_of_int (success stats));
           Str (PyStr.str_of_int (failed stats));
           Str (PyStr.str_of_int (total stats))];;
        ret None
    end in
  let '(r, w') := run (world p) in
  (r, mkProcess level w').

End Cli.

(** ** More test doubles *)

Module MockCli.

(** A host that cannot be reached, as in [test_invalid_url]. *)
Definition offline : Env :=
  mkEnv
    (fun _ u => inl (RequestException "ConnectionError"))
    (fun _ => inr (mkContentDisposition "foobar.jpg"))
    (fun uri => inr uri)
    (fun name => name)
    3
    5
    latin_1
    [].

(** A server that answers 404 to every request, without any header. *)
Definition not_found : Env :=
  mkEnv
    (fun _ u => inr (Mock.response 404 [] u))
    (fun _ => inr (mkContentDisposition "foobar.jpg"))
    (fun uri => inr uri)
    (fun name => name)
    3
    5
    latin_1
    [].

(** A server of JPEG images whose content disposition does not parse. *)
Definition unparsed : Env :=
  mkEnv
    (fun _ u => inr (Mock.response 200 (Mock.content_type "image/jpeg") u))
    (fun _ => inl (ParseError "content-disposition"))
    (fun uri => inr uri)
    (fun name => name)
    3
    5
    latin_1
    [].


(** The server of [Mock.jpg_env] and two workers in step: each has looked
    for its file name before the other opens its file. *)
Definition racing : Env :=
  mkEnv
    (http_get Mock.jpg_env)
    (parse_requests_response Mock.jpg_env)
    (fun uri => inr uri)
    (fun name => name)
    3
    5
    latin_1
    [ WorkerTurn 0; WorkerTurn 0; WorkerTurn 0; WorkerTurn 0;
      WorkerTurn 1; WorkerTurn 1; WorkerTurn 1; WorkerTurn 1 ].

(** Two lines with the same URL. *)
Definition twice : list string :=
  [ "success" +:+ String LF ""; "success" +:+ String LF "" ].

(** A file whose third line does not decode. *)
Definition undecodable : TextFile :=
  mkTextFile
    [ "success" +:+ String LF ""; "raise" +:+ String LF "" ]
    (Some (UnicodeDecodeError "invalid start byte")).

(** [os.makedirs] that creates the directory, and one that may not. *)
Definition permissive : Cli.Platform :=
  Cli.mkPlatform
    (fun name w => (inr tt, set_files (<[name := Dir]> (files w)) w))
    (fun p => p).

Definition read_only : Cli.Platform :=
  Cli.mkPlatform (fun name => raise (OSError name)) (fun p => p).

Definition options (out_dir : string) : Cli.Options :=
  Cli.mkOptions (StringIO Mock.url_list) out_dir None false.

End MockCli.

(** ** The course of a task

    Where a task for the URL [u] stands between two of its calls, which
    calls it may perform there, and with which outcome it may end. *)

Inductive Phase : Type :=
  | Starting (has_session : bool)          (* no request yet *)
  | Refused (e : exn)                      (* the request raised [e] *)
  | Checking (response : Response)         (* answered; no file opened yet *)
  | Writing (response : Response)          (* the file is open *)
  | Saved (response : Response)            (* the body is copied *)
  | Broken (response : Response) (e : exn). (* opening or copying raised [e] *)

(** The answer to the request of a task, once it has one. *)
Definition answer (ph : Phase) : option (exn + Response) :=
  match ph with
  | Starting _ => None
  | Refused e => Some (inl e)
  | Checking response | Writing response | Saved response
  | Broken response _ => Some (inr response)
  end.

(** The outcomes a call can have. *)
Definition possible {X : Type} (c : Call X) : exn + X -> Prop :=
  match c in Call X return exn + X -> Prop with
  | LoggerDebug _ _ => fun r => r = inr tt
  | LoggerWarning _ _ => fun r => r = inr tt
  | NewSession => fun r => exists session, r = inr session
  | SessionGet _ _ => fun _ => True
  | ResponseClose _ => fun r => r = inr tt
  | PathExists _ => fun r => exists taken, r = inr taken
  | OpenWb p => fun r => r = inr tt \/ r = inl (OSError p)
  | CopyFileObj response _ =>
      fun r =>
        r = match raw_error response with Some e => inl e | None => inr tt end
  end.

Section Course.
Variable E : Env.
Variable w0 : World.
Variable u : string.

(** The response is an image and [get_filename] finds a name for it. *)
Definition passes (response : Response) : Prop :=
  is_image response = true
  /\ exists name, (get_filename E response (subtype response) w0).1 = inr name.

(** The calls allowed in a phase, and the phase each outcome leads to. *)
Definition moves (ph : Phase) {X : Type} (c : Call X) (r : exn + X)
    (ph' : Phase) : Prop :=
  match c in Call X return exn + X -> Prop with
  | LoggerDebug _ _ => fun _ => ph' = ph
  | LoggerWarning _ _ => fun _ => ph' = ph
  | NewSession => fun _ => ph = Starting false /\ ph' = Starting true
  | SessionGet _ u' =>
      fun r =>
        ph = Starting true /\ u' = u
        /\ ph' = match r with
                 | inl e => Refused e
                 | inr response => Checking response
                 end
  | ResponseClose response => fun _ => ph = Checking response /\ ph' = ph
  | PathExists _ => fun _ => (exists response, ph = Checking response) /\ ph' = ph
  | OpenWb _ =>
      fun r =>
        exists response,
          ph = Checking response /\ passes response
          /\ ph' = match r with
                   | inl e => Broken response e
                   | inr _ => Writing response
                   end
  | CopyFileObj response _ =>
      fun r =>
        ph = Writing response
        /\ ph' = match r with
                 | inl e => Broken response e
                 | inr _ => Saved response
                 end
  end r.

(** The outcomes with which a task may end in a phase. *)
Definition final (ph : Phase) (outcome : exn + string) : Prop :=
  match ph with
  | Starting _ | Writing _ => False
  | Refused e | Broken _ e => outcome = inl e
  | Checking response =>
      explained E w0 u (inr response) outcome /\ exists e, outcome = inl e
  | Saved response =>
      exists name,
        (get_filename E response (subtype response) w0).1 = inr name
        /\ outcome = inr (sanitize_filename E name)
  end.

(** A thread in phase [ph] performs allowed calls only, whatever their
    outcomes, and ends in a phase and with a result that satisfy [Q]. *)
Fixpoint proceeds {A : Type} (ph : Phase) (t : Thread A)
    (Q : Phase -> exn + A -> Prop) : Prop :=
  match t with
  | Return r => Q ph r
  | Do c k =>
      forall r, possible c r -> exists ph', moves ph c r ph' /\ proceeds ph' (k r) Q
  end.

(** A thread that keeps to the course of a task. *)
Definition obeys (ph : Phase) (t : Thread string) : Prop :=
  proceeds ph t final.

(** What is known of the response in a phase, and that the answer is the
    one the server gave to a request of this run. *)
Definition sound (ph : Phase) : Prop :=
  match ph with
  | Writing response => passes response
  | Saved response => passes response /\ raw_error response = None
  | Broken response e =>
      passes response
      /\ ((exists p, e = OSError p) \/ raw_error response = Some e)
  | _ => True
  end.

Definition good (ph : Phase) : Prop :=
  sound ph
  /\ forall got,
       answer ph = Some got ->
       exists n, (length (requests w0) <= n)%nat /\ http_get E n u = got.

End Course.

(** ** Keeping account of the tasks of a run *)

Inductive Status : Type :=
  | Queued
  | Working (ph : Phase)
  | Done (outcome : exn + string).

(** The task has yet to issue its request, to allocate its session; it may
    yet open a file; it has a file open or written. *)
Definition owes_request (st : Status) : bool :=
  match st with Queued | Working (Starting _) => true | _ => false end.
Definition owes_session (st : Status) : bool :=
  match st with Queued | Working (Starting false) => true | _ => false end.
Definition may_open (st : Status) : bool :=
  match st with
  | Queued | Working (Starting _) | Working (Checking _) => true
  | _ => false
  end.
Definition holds_file (st : Status) : bool :=
  match st with
  | Working (Writing _) | Working (Saved _) | Done (inr _) => true
  | _ => false
  end.

Definition count (f : Status -> bool) (entries : list (Task * Status)) : nat :=
  sum_list_with (fun entry => if f entry.2 then 1%nat else 0%nat) entries.

Definition owed_requests (entries : list (Task * Status)) : list string :=
  flat_map (fun entry => if owes_request entry.2 then [entry.1.1] else [])
    entries.

(** The world [w] of a run that began in [w0], against the states of its
    tasks: the requests issued and those to come are the URLs of the tasks;
    so for the sessions; no path has gone, and the new paths are no more
    than the tasks that may have opened a file, and, when no stream breaks,
    than the tasks that hold one. *)
Definition accounted (E : Env) (w0 w : World) (entries : list (Task * Status))
  : Prop :=
  Permutation (requests w ++ owed_requests entries)
    (map fst (map fst entries) ++ requests w0)
  /\ extends (requests w) (requests w0)
  /\ (next_id w + count owes_session entries
      = next_id w0 + length entries)%nat
  /\ (size (files w) + count may_open entries
      <= size (files w0) + length entries)%nat
  /\ (forall p, path_exists p w0 = true -> path_exists p w = true)
  /\ (streams_intact E ->
      (size (files w) <= size (files w0) + count holds_file entries)%nat).

(** What is known of a task in each state. *)
Definition entry_ok (E : Env) (w0 : World) (entry : Task * Status) : Prop :=
  match entry.2 with
  | Queued => True
  | Working ph => good E w0 entry.1.1 ph
  | Done outcome =>
      exists n,
        (length (requests w0) <= n)%nat
        /\ explained E w0 entry.1.1 (http_get E n entry.1.1) outcome
  end.

(** A worker and the state of its task. *)
Definition tracked (E : Env) (w0 : World) (worker : Worker)
    (entry : Task * Status) : Prop :=
  entry.1 = work_item worker
  /\ exists ph,
       entry.2 = Working ph /\ obeys E w0 (work_item worker).1 ph (thread worker).

(** A thread and the state of its task. *)
Definition follows (E : Env) (w0 : World) (it : Task * Thread string)
    (entry : Task * Status) : Prop :=
  tracked E w0 (mkWorker 0 it.1 it.2) entry.

Definition queued (item : Task) : Task * Status := (item, Queued).
Definition done (f : Task * (exn + string)) : Task * Status := (f.1, Done f.2).

(** The states of the tasks of a run, against its tasks [fs] and the
    world. *)
Definition consistent (E : Env) (w0 : World) (fs : list Task) (w : World)
    (entries : list (Task * Status)) : Prop :=
  Permutation (map fst entries) fs
  /\ Forall (entry_ok E w0) entries
  /\ accounted E w0 w entries.

(** The pool, and the futures the manager's loop has got, in a run. *)
Definition pool_accounted (E : Env) (w0 : World) (fs : list Task) (w : World)
    (pool : Pool) (completed : list (Task * (exn + string))) : Prop :=
  exists at_work : list (Task * Status),
    Forall2 (tracked E w0) (workers pool) at_work
    /\ consistent E w0 fs w
         (map queued (work_queue pool) ++ at_work
          ++ map done (finished pool ++ completed))%list.

(** * Properties *)

(** ** The string and path operations on examples

    The values are those the Python interpreter returns. *)

Module PyStrExamples.
Import PyStr PosixPath.

Example strip_line : strip ("   success " +:+ String LF "") = "success".
Proof. reflexivity. Qed.

Example partition_found : partition "/" "image/jpeg" = ("image", "/", "jpeg").
Proof. reflexivity. Qed.

Example partition_missing : partition "/" "image" = ("image", "", "").
Proof. reflexivity. Qed.

Example rpartition_found : rpartition "." "a.tar.gz" = ("a.tar", ".", "gz").
Proof. reflexivity. Qed.

Example rpartition_missing : rpartition "." "README" = ("", "", "README").
Proof. reflexivity. Qed.

Example split_parameters :
  split1_head ";" "text/html; charset=utf-8" = "text/html".
Proof. reflexivity. Qed.

Example lower_mixed : lower "FooBar.JpEg" = "foobar.jpeg".
Proof. reflexivity. Qed.

Example replace_all : replace "jpeg" "jpg" "xjpegyjpeg" = "xjpgyjpg".
Proof. reflexivity. Qed.

Example replace_overlap : replace "aa" "b" "aaaaa" = "bba".
Proof. reflexivity. Qed.

Example repr_simple : repr "text/plain" = "'text/plain'".
Proof. reflexivity. Qed.

Example repr_backslash : repr "a\b" = "'a\\b'".
Proof. reflexivity. Qed.

Example repr_control : repr (String (ascii_of_N 9) "x") = "'\tx'".
Proof. reflexivity. Qed.

Example str_of_int_9999 : str_of_int 9999 = "9999".
Proof. reflexivity. Qed.

Example join_plain : join "out" "a.jpg" = "out/a.jpg".
Proof. reflexivity. Qed.

Example join_slash : join "out/" "a.jpg" = "out/a.jpg".
Proof. reflexivity. Qed.

Example join_absolute : join "out" "/a.jpg" = "/a.jpg".
Proof. reflexivity. Qed.

Example dirname_plain : dirname "out/a.jpg" = "out".
Proof. reflexivity. Qed.

Example dirname_root : dirname "/a.jpg" = "/".
Proof. reflexivity. Qed.

Example dirname_none : dirname "a.jpg" = "".
Proof. reflexivity. Qed.

Example basename_plain : basename "out/a.jpg" = "a.jpg".
Proof. reflexivity. Qed.

Example readlines_text :
  readlines (universal_newlines
               ("a" +:+ String CR (String LF "") +:+ String LF "" +:+ "b"))
  = ["a" +:+ String LF ""; String LF ""; "b"].
Proof. reflexivity. Qed.

Example candidate_test : candidate "tmpdir/test.jpg" 7 = "tmpdir/test_7.jpg".
Proof. reflexivity. Qed.

(** A base name without a dot: [rpartition] takes all of it as the
    extension, and the stem is empty. *)
Example candidate_no_dot : candidate "tmpdir/README" 1 = "tmpdir/_1.README".
Proof. reflexivity. Qed.

End PyStrExamples.

(** ** Facts about the string operations *)

Module PyStrFacts.
Import PyStr.

Lemma app_nil_l (s : string) : "" +:+ s = s.
Proof. reflexivity. Qed.

Lemma app_cons (c : ascii) (s t : string) :
  String c s +:+ t = String c (s +:+ t).
Proof. reflexivity. Qed.

Ltac app_simpl := rewrite ?app_cons, ?app_nil_l; simpl.

Lemma app_nil_r (s : string) : s +:+ "" = s.
Proof. induction s as [|c s IH]; app_simpl; [reflexivity | now rewrite IH]. Qed.

Lemma app_assoc (a b c : string) : (a +:+ b) +:+ c = a +:+ (b +:+ c).
Proof. induction a as [|x a IH]; app_simpl; [reflexivity | now rewrite IH]. Qed.

Lemma endswith_unfold (s suf : string) :
  endswith s suf =
  String.eqb s suf
  || match s with "" => false | String _ s' => endswith s' suf end.
Proof. destruct s; reflexivity. Qed.

Lemma endswith_refl (s : string) : endswith s s = true.
Proof. rewrite endswith_unfold, String.eqb_refl. reflexivity. Qed.

Lemma endswith_app (a b : string) : endswith (a +:+ b) b = true.
Proof.
  induction a as [|c a IH]; app_simpl.
  - apply endswith_refl.
  - rewrite IH. apply orb_true_r.
Qed.

Lemma endswith_inv (s suf : string) :
  endswith s suf = true -> exists p, s = p +:+ suf.
Proof.
  induction s as [|c s IH]; rewrite endswith_unfold; intros H.
  - rewrite orb_false_r in H. apply String.eqb_eq in H. exists "". now subst.
  - apply orb_true_iff in H as [H|H].
    + apply String.eqb_eq in H. exists "". now rewrite H.
    + destruct (IH H) as [p ->]. now exists (String c p).
Qed.

Lemma startswith_app (p s : string) : startswith (p +:+ s) p = true.
Proof.
  induction p as [|c p IH]; app_simpl; [reflexivity |].
  now rewrite Ascii.eqb_refl, IH.
Qed.

Lemma contains_unfold (sub s : string) :
  contains sub s =
  startswith s sub
  || match s with "" => false | String _ s' => contains sub s' end.
Proof. destruct s; reflexivity. Qed.

Lemma contains_app (a sub b : string) : contains sub (a +:+ sub +:+ b) = true.
Proof.
  induction a as [|c a IH]; app_simpl.
  - rewrite contains_unfold, startswith_app. reflexivity.
  - rewrite IH. apply orb_true_r.
Qed.

(** [rpartition] when the separator does not occur. *)
Lemma rpartition_none (sep : ascii) (s : string) :
  has_char sep s = false -> rpartition sep s = ("", "", s).
Proof.
  induction s as [|c s IH]; simpl; [reflexivity |].
  intros H. apply orb_false_iff in H as [Hc Hs].
  rewrite (IH Hs). simpl. now rewrite Hc.
Qed.

(** [rpartition] splits at the last separator. *)
Lemma rpartition_last (sep : ascii) (stem ext : string) :
  has_char sep ext = false ->
  rpartition sep (stem +:+ String sep ext) = (stem, String sep "", ext).
Proof.
  intros Hext. induction stem as [|c stem IH]; app_simpl.
  - rewrite (rpartition_none _ _ Hext). simpl. now rewrite Ascii.eqb_refl.
  - rewrite IH. reflexivity.
Qed.

(** What [rpartition] returns: a decomposition of its argument at a
    separator after which no separator follows, or no separator at all. *)
Lemma rpartition_spec (sep : ascii) (s : string) :
  let '(a, m, b) := rpartition sep s in
  s = a +:+ m +:+ b /\ has_char sep b = false
  /\ (m = String sep "" \/ m = "" /\ a = "").
Proof.
  induction s as [|c s IH]; simpl; [now auto |].
  destruct (rpartition sep s) as [[a m] b].
  destruct IH as (Hs & Hb & [-> | [-> ->]]); simpl.
  - rewrite app_cons, <- Hs. now auto.
  - rewrite !app_nil_l in Hs. subst b.
    destruct (Ascii.eqb_spec c sep) as [->|Hne].
    + now auto.
    + rewrite !app_nil_l. simpl. rewrite Hb.
      apply Ascii.eqb_neq in Hne. rewrite Hne. now auto.
Qed.

Lemma startswith_char (c0 c : ascii) (s : string) :
  startswith (String c s) (String c0 "") = Ascii.eqb c0 c.
Proof. cbn [startswith]. apply andb_true_r. Qed.

Lemma has_char_startswith (c0 : ascii) (s : string) :
  has_char c0 s = false -> startswith s (String c0 "") = false.
Proof.
  destruct s as [|c s]; [reflexivity |].
  cbn [has_char]. intros H. apply orb_false_iff in H as [H _].
  now rewrite startswith_char, Ascii.eqb_sym.
Qed.

Lemma lstrip_char_id (c0 : ascii) (s : string) :
  startswith s (String c0 "") = false -> lstrip_char c0 s = s.
Proof.
  destruct s as [|c s]; [reflexivity |].
  rewrite startswith_char. intros H. cbn [lstrip_char].
  now rewrite Ascii.eqb_sym, H.
Qed.

Lemma has_char_plain (s : string) : plain s = true -> has_char "'" s = false.
Proof.
  induction s as [|c s IH]; simpl; [reflexivity |].
  unfold plain_char. intros H.
  repeat (apply andb_true_iff in H as [H ?]).
  rewrite IH by assumption.
  destruct (Ascii.eqb c "'"); [discriminate | reflexivity].
Qed.

Lemma repr_char_plain (c : ascii) :
  plain_char c = true -> repr_char "'" c = String c "".
Proof.
  unfold plain_char, repr_char, isprintable. intros H.
  apply andb_true_iff in H as [H Hq]. apply andb_true_iff in H as [Hp Hb].
  apply negb_true_iff in Hq, Hb. rewrite Hq, Hb. simpl.
  unfold isprintable. rewrite Hp.
  destruct (N.eqb_spec (code c) 9) as [e|_];
    [rewrite e in Hp; discriminate |].
  destruct (N.eqb_spec (code c) 10) as [e|_];
    [rewrite e in Hp; discriminate |].
  destruct (N.eqb_spec (code c) 13) as [e|_];
    [rewrite e in Hp; discriminate |].
  reflexivity.
Qed.

Lemma repr_body_plain (s : string) : plain s = true -> repr_body "'" s = s.
Proof.
  induction s as [|c s IH]; simpl; [reflexivity |].
  intros H. apply andb_true_iff in H as [Hc Hs].
  now rewrite (repr_char_plain _ Hc), (IH Hs).
Qed.

(** [repr] of a plain string is the string between single quotes. *)
Lemma repr_plain (s : string) :
  plain s = true -> repr s = "'" +:+ s +:+ "'".
Proof.
  intros H. unfold repr. rewrite (has_char_plain _ H). simpl.
  now rewrite (repr_body_plain _ H).
Qed.

End PyStrFacts.

(** ** Facts about [range] *)

Lemma range_from_app (lo : Z) (n m : nat) :
  range_from lo (n + m)
  = (range_from lo n ++ range_from (lo + Z.of_nat n) m)%list.
Proof.
  revert lo. induction n as [|n IH]; intros lo.
  - simpl. now rewrite Z.add_0_r.
  - cbn [Nat.add range_from]. rewrite IH. cbn [app]. do 3 f_equal. lia.
Qed.

Lemma in_range_from (lo : Z) (n : nat) (j : Z) :
  In j (range_from lo n) <-> lo <= j < lo + Z.of_nat n.
Proof.
  revert lo. induction n as [|n IH]; intros lo; cbn [range_from In].
  - lia.
  - rewrite IH. lia.
Qed.

Lemma range_split (lo k hi : Z) :
  lo <= k < hi -> range lo hi = (range lo k ++ k :: range (k + 1) hi)%list.
Proof.
  intros Hk. unfold range.
  replace (Z.to_nat (hi - lo))
    with (Z.to_nat (k - lo) + S (Z.to_nat (hi - (k + 1))))%nat by lia.
  rewrite range_from_app. cbn [range_from].
  now replace (lo + Z.of_nat (Z.to_nat (k - lo))) with k by lia.
Qed.

Lemma in_range (lo hi j : Z) : In j (range lo hi) <-> lo <= j < hi.
Proof. unfold range. rewrite in_range_from. lia. Qed.

Lemma last_nonempty {A} (x y : A) (l : list A) (d d' : A) :
  List.last (x :: l) d = List.last (y :: x :: l) d'.
Proof.
  change (List.last (y :: x :: l) d') with (List.last (x :: l) d').
  revert x. induction l as [|z l IH]; intros x; [reflexivity |].
  change (List.last (z :: l) d = List.last (z :: l) d'). apply IH.
Qed.

(** ** [get_session] *)

(** CLAIM C6 (refuted by the code): the session provider does not reuse its
    client. [get_session] builds its [threading.local()] object inside the
    call, so the attribute lookup always fails and every call, on whatever
    thread and in whatever state, allocates a new session: two successive
    calls on one thread return two different objects. *)
Theorem get_session_allocates_every_time (tid : nat) (w : World) :
  let first := get_session tid w in
  let second := get_session tid first.2 in
  first.1 = inr (next_id w)
  /\ second.1 = inr (S (next_id w))
  /\ first.1 <> second.1.
Proof.
  unfold get_session, bind, attempt, getattr, threading_local.
  rewrite lookup_empty. simpl.
  repeat split. intros [= H]. lia.
Qed.

(** ** [rename_if_exists] *)

Section RenameIfExists.
Variable file_path : string.
Variable w : World.

Lemma rename_loop_break (before after : list Z) (k : Z) (current : string) :
  (forall j, In j before -> path_exists (candidate file_path j) w = true) ->
  path_exists (candidate file_path k) w = false ->
  rename_loop file_path w (before ++ k :: after)%list current
  = (candidate file_path k, true).
Proof.
  revert current. induction before as [|i before IH]; intros current Hall Hk.
  - simpl. now rewrite Hk.
  - simpl. rewrite (Hall i) by now left. simpl.
    apply IH; [| assumption]. intros j Hj. apply Hall. now right.
Qed.

Lemma rename_loop_exhausted (indices : list Z) (current : string) :
  (forall j, In j indices -> path_exists (candidate file_path j) w = true) ->
  rename_loop file_path w indices current
  = (List.last (map (candidate file_path) indices) current, false).
Proof.
  revert current. induction indices as [|i indices IH]; intros current Hall.
  - reflexivity.
  - cbn [rename_loop]. rewrite (Hall i) by now left. cbn [negb].
    rewrite IH by (intros j Hj; apply Hall; now right).
    destruct indices as [|i' indices]; [reflexivity |].
    f_equal. cbn [map]. apply last_nonempty.
Qed.

(** CLAIM C3: [rename_if_exists] returns a path that does not exist
    unchanged; for a path that exists it returns the candidate with the
    smallest index from 1 whose name is free, the number being inserted
    before the extension ([stem.ext] becomes [stem_i.ext], in the same
    directory); it tries the indices 1 to 9999 and no more, and when all of
    them are taken it returns the candidate of index 9999 and logs a warning.
    It never raises. *)
Theorem rename_if_exists_spec :
  (path_exists file_path w = false ->
     rename_if_exists file_path w = (inr file_path, w))
  /\ (path_exists file_path w = true ->
      forall k : Z,
        1 <= k <= 9999 ->
        (forall j, 1 <= j < k ->
                   path_exists (candidate file_path j) w = true) ->
        path_exists (candidate file_path k) w = false ->
        rename_if_exists file_path w = (inr (candidate file_path k), w))
  /\ (path_exists file_path w = true ->
      (forall j, 1 <= j <= 9999 ->
                 path_exists (candidate file_path j) w = true) ->
      rename_if_exists file_path w
      = (inr (candidate file_path 9999),
         add_log (LogMsg WARNING "Failed to rename %r"
                    [Str (candidate file_path 9999)]) w))
  /\ (forall (stem ext : string) (i : Z),
        PosixPath.basename file_path = stem +:+ "." +:+ ext ->
        PyStr.has_char "." ext = false ->
        candidate file_path i
        = PosixPath.join (PosixPath.dirname file_path)
            (stem +:+ "_" +:+ PyStr.str_of_int i +:+ "." +:+ ext))
  /\ (exists r : string, (rename_if_exists file_path w).1 = inr r).
Proof.
  split; [| split; [| split; [| split]]].
  - intros Hfree. unfold rename_if_exists. now rewrite Hfree.
  - intros Htaken k Hk Hbelow Hfree.
    unfold rename_if_exists. rewrite Htaken. cbn [negb].
    rewrite (range_split 1 k 10000) by lia.
    rewrite rename_loop_break; [reflexivity | | assumption].
    intros j Hj. apply in_range in Hj. now apply Hbelow.
  - intros Htaken Hall.
    unfold rename_if_exists. rewrite Htaken. cbn [negb].
    rewrite rename_loop_exhausted
      by (intros j Hj; apply in_range in Hj; apply Hall; lia).
    rewrite (range_split 1 9999 10000) by lia.
    change (range (9999 + 1) 10000) with (@nil Z).
    rewrite map_app. cbn [map]. now rewrite List.last_last.
  - intros stem ext i Hbase Hext. unfold candidate.
    rewrite Hbase.
    change (stem +:+ "." +:+ ext) with (stem +:+ String "." ext).
    now rewrite (PyStrFacts.rpartition_last _ _ _ Hext).
  - unfold rename_if_exists.
    destruct (negb (path_exists file_path w)); [now eexists |].
    destruct (rename_loop _ _ _ _) as [r [|]]; now eexists.
Qed.

End RenameIfExists.

(** The cases of [test_rename_if_exists], and a directory in which all the
    9999 names are taken. *)
Lemma rename_if_exists_tests :
  let p := "tmpdir/test.jpg" in
  let w1 := Mock.touch "tmpdir/test.jpg" Mock.tmpdir in
  let w2 := Mock.touch "tmpdir/test_1.jpg" w1 in
  rename_if_exists p Mock.tmpdir = (inr "tmpdir/test.jpg", Mock.tmpdir)
  /\ rename_if_exists p w1 = (inr "tmpdir/test_1.jpg", w1)
  /\ rename_if_exists p w2 = (inr "tmpdir/test_2.jpg", w2)
  /\ rename_if_exists p Mock.crowded
     = (inr "tmpdir/test_9999.jpg",
        add_log (LogMsg WARNING "Failed to rename %r"
                   [Str "tmpdir/test_9999.jpg"])
          Mock.crowded).
Proof.
  intros p w1 w2. split; [| split; [| split]].
  - apply (proj1 (rename_if_exists_spec p Mock.tmpdir)). reflexivity.
  - apply (proj1 (proj2 (rename_if_exists_spec p w1)) eq_refl 1).
    + lia.
    + intros j Hj. lia.
    + reflexivity.
  - apply (proj1 (proj2 (rename_if_exists_spec p w2)) eq_refl 2).
    + lia.
    + intros j Hj. assert (j = 1) as -> by lia. reflexivity.
    + reflexivity.
  - apply (proj1 (proj2 (proj2 (rename_if_exists_spec p Mock.crowded)))).
    + vm_compute. reflexivity.
    + intros j Hj.
      assert (forallb (fun j => path_exists (candidate p j) Mock.crowded)
                (range 1 10000) = true) as Hall by (vm_compute; reflexivity).
      rewrite forallb_forall in Hall. apply Hall, in_range. lia.
Defined.

(** ** [get_filename] *)

Section GetFilename.
Variable E : Env.

Lemma filename_sanitized_endswith (cd : ContentDisposition)
    (extension name : string) :
  filename_sanitized cd extension = inr name ->
  PyStr.endswith name ("." +:+ extension) = true.
Proof.
  unfold filename_sanitized.
  destruct (PyStr.is_empty extension); [discriminate |].
  destruct (PyStr.startswith extension "."); [discriminate |].
  destruct (PyStr.endswith _ _) eqn:Hends; simpl; intros [= <-].
  - exact Hends.
  - apply PyStrFacts.endswith_app.
Qed.

(** A parsed name that is a plain file name with an extension is what
    [filename_sanitized] returns for that extension. *)
Lemma filename_sanitized_keeps (cd : ContentDisposition) :
  let name := filename_unsafe cd in
  let extension := PyStr.rsplit1_last "." name in
  PyStr.has_char "/" name = false ->
  PyStr.startswith name "." = false ->
  PyStr.has_char "." name = true ->
  extension <> "" ->
  filename_sanitized cd extension = inr name.
Proof.
  intros name extension Hslash Hdot Hhas Hne.
  unfold filename_sanitized. fold name. fold extension.
  assert (PosixPath.basename name = name) as Hbase.
  { unfold PosixPath.basename, PyStr.rsplit1_last.
    now rewrite (PyStrFacts.rpartition_none _ _ Hslash). }
  rewrite !Hbase, (PyStrFacts.lstrip_char_id _ _ Hdot).
  pose proof (PyStrFacts.rpartition_spec "." name) as Hsplit.
  unfold extension, PyStr.rsplit1_last in *.
  destruct (PyStr.rpartition "." name) as [[stem m] ext].
  cbn [snd] in *.
  destruct Hsplit as (Hname & Hext & [-> | [-> ->]]).
  - rewrite (PyStrFacts.has_char_startswith _ _ Hext).
    destruct ext as [|c ext]; [congruence |]. cbn [PyStr.is_empty].
    assert (PyStr.is_empty name = false) as ->.
    { rewrite Hname. destruct stem; reflexivity. }
    assert (PyStr.endswith name ("." +:+ String c ext) = true) as ->.
    { rewrite Hname at 1. apply PyStrFacts.endswith_app. }
    reflexivity.
  - rewrite !PyStrFacts.app_nil_l in Hname. subst ext.
    rewrite Hext in Hhas. discriminate.
Qed.

Lemma in_aliases_spec (expected_extension extension : string) :
  in_aliases expected_extension extension = true
  <-> expected_extension = PyStr.lower extension
      \/ expected_extension
         = PyStr.replace "jpeg" "jpg" (PyStr.lower extension)
      \/ expected_extension
         = PyStr.replace "jpg" "jpeg" (PyStr.lower extension).
Proof.
  unfold in_aliases, safe_aliases. cbn [existsb].
  rewrite orb_false_r, !orb_true_iff, !String.eqb_eq. reflexivity.
Qed.

(** With a lower-case expected extension, every alias-equivalent parsed
    extension is among the aliases the code accepts. *)
Lemma alias_equivalent_in_aliases (expected_extension extension : string) :
  PyStr.lower expected_extension = expected_extension ->
  alias_equivalent extension expected_extension = true ->
  in_aliases expected_extension extension = true.
Proof.
  intros Hlow. unfold alias_equivalent. rewrite Hlow.
  rewrite in_aliases_spec, !orb_true_iff, andb_true_iff, !orb_true_iff,
    !String.eqb_eq.
  intros [Heq | [[Hp | Hp] [He | He]]]; rewrite ?Hp, ?He; auto.
Qed.

(** CLAIM C4 (as amended): when the content-disposition file name parses,
    [get_filename] returns [filename_sanitized] of the parsed name for a
    chosen extension, and changes nothing else. The chosen extension is the
    parsed one exactly when the expected extension, taken as it is, equals
    the parsed extension, or the parsed extension in lower case, or that
    with "jpeg" replaced by "jpg", or with "jpg" replaced by "jpeg";
    otherwise it is the expected extension, which is appended to the parsed
    name. So the letter case of the parsed extension is ignored and
    that of the expected extension is not; for a lower-case expected
    extension every alias-equivalent parsed extension is kept. The name
    returned ends with a dot and the chosen extension, and when the parsed
    extension is chosen and the parsed name is a plain file name, the name
    returned is the parsed name, spelled as it was. *)
Theorem get_filename_extension (response : Response)
    (expected_extension : string) (cd : ContentDisposition) (w : World) :
  parse_requests_response E response = inr cd ->
  let extension := PyStr.rsplit1_last "." (filename_unsafe cd) in
  let chosen :=
    if in_aliases expected_extension extension then extension
    else expected_extension in
  get_filename E response expected_extension w
  = (filename_sanitized cd chosen, w)
  /\ (chosen = extension
      <-> in_aliases expected_extension extension = true
          \/ expected_extension = extension)
  /\ (in_aliases expected_extension extension = true
      <-> expected_extension = PyStr.lower extension
          \/ expected_extension
             = PyStr.replace "jpeg" "jpg" (PyStr.lower extension)
          \/ expected_extension
             = PyStr.replace "jpg" "jpeg" (PyStr.lower extension))
  /\ (PyStr.lower expected_extension = expected_extension ->
      alias_equivalent extension expected_extension = true ->
      chosen = extension)
  /\ (forall name, filename_sanitized cd chosen = inr name ->
                   PyStr.endswith name ("." +:+ chosen) = true)
  /\ (in_aliases expected_extension extension = true ->
      PyStr.has_char "/" (filename_unsafe cd) = false ->
      PyStr.startswith (filename_unsafe cd) "." = false ->
      PyStr.has_char "." (filename_unsafe cd) = true ->
      extension <> "" ->
      get_filename E response expected_extension w
      = (inr (filename_unsafe cd), w)).
Proof.
  intros Hparse extension chosen.
  assert (get_filename E response expected_extension w
          = (filename_sanitized cd chosen, w)) as Hrun.
  { unfold get_filename, bind, attempt, lift_result. rewrite Hparse.
    reflexivity. }
  split; [exact Hrun |].
  split.
  { unfold chosen.
    destruct (in_aliases expected_extension extension); split; auto.
    intros [? | ?]; [discriminate | assumption]. }
  split; [apply in_aliases_spec |].
  split.
  { intros Hlow Heq. unfold chosen.
    now rewrite (alias_equivalent_in_aliases _ _ Hlow Heq). }
  split; [intros name; apply filename_sanitized_endswith |].
  intros Hin Hslash Hdot Hhas Hne. rewrite Hrun. unfold chosen.
  rewrite Hin. f_equal. now apply filename_sanitized_keeps.
Qed.

End GetFilename.

(** The alias cases of [test_download_image], by the theorem: the parsed
    spelling is kept for jpg against jpeg in either direction and for an
    upper-case parsed extension; bmp is appended to foobar.jpg. *)
Lemma get_filename_tests :
  let run (ct name : string) :=
    get_filename (Mock.env (Mock.content_type ("image/" +:+ ct)) name)
      (Mock.response 200 (Mock.content_type ("image/" +:+ ct))
         "http://abc.de/bla/x")
      ct Mock.tmpdir in
  run "jpg" "foobar.jpeg" = (inr "foobar.jpeg", Mock.tmpdir)
  /\ run "jpeg" "foobar.jpg" = (inr "foobar.jpg", Mock.tmpdir)
  /\ run "jpeg" "foobar.JPEG" = (inr "foobar.JPEG", Mock.tmpdir)
  /\ run "bmp" "foobar.jpg" = (inr "foobar.jpg.bmp", Mock.tmpdir).
Proof.
  intros run. unfold run.
  split; [| split; [| split]];
    match goal with
    | |- get_filename ?E ?r ?x ?w = _ =>
        exact (proj1 (get_filename_extension E r x
                        (mkContentDisposition _) w eq_refl))
    end.
Defined.

(** CLAIM C4 (counterexample): a response declared [image/JPG] whose parsed
    file name is [foobar.jpg]. The parsed extension is alias-equivalent to the
    expected one, letter case aside, but the expected extension is compared as
    it is: the parsed extension is not kept, and the name becomes
    [foobar.jpg.JPG]. *)
Lemma get_filename_upper_case_subtype :
  let E := Mock.env (Mock.content_type "image/JPG") "foobar.jpg" in
  let response :=
    Mock.response 200 (Mock.content_type "image/JPG") "http://abc.de/bla/x" in
  subtype response = "JPG"
  /\ alias_equivalent "jpg" "JPG" = true
  /\ get_filename E response "JPG" Mock.tmpdir
     = (inr "foobar.jpg.JPG", Mock.tmpdir)
  /\ get_filename E response "JPG" Mock.tmpdir
     <> (filename_sanitized (mkContentDisposition "foobar.jpg") "jpg",
         Mock.tmpdir).
Proof.
  cbv zeta. split; [| split; [| split]]; [reflexivity .. |].
  vm_compute. intros [= H].
Qed.

(** ** [download_image] *)

Section DownloadImage.
Variable E : Env.

Lemma download_image_rejects (tid : nat) (u out_dir : string) (w : World)
    (response : Response) :
  http_get E (length (requests w)) u = inr response ->
  status_ok response = true ->
  media_type response <> "image" \/ subtype response = "" ->
  download_image E tid u out_dir w
  = (inl (ValueError [invalid_image_type (declared_content_type response) u]),
     rejected u response w).
Proof.
  intros Hget Hstatus Hbad.
  unfold download_image, bind, logger_debug, get_session, attempt, getattr,
    threading_local, new_Session, session_get, raise_for_status.
  rewrite lookup_empty. cbn.
  rewrite Hget.
  unfold status_ok in Hstatus. apply negb_true_iff in Hstatus.
  rewrite Hstatus. cbn.
  unfold media_type, subtype, declared_content_type in Hbad.
  destruct (PyStr.partition "/" _) as [[media sep] sub] eqn:Hpart.
  cbn [fst snd] in Hbad.
  assert (negb (String.eqb media "image") || PyStr.is_empty sub = true)
    as ->.
  { destruct Hbad as [Hmedia | ->].
    - apply String.eqb_neq in Hmedia. now rewrite Hmedia.
    - apply orb_true_r. }
  reflexivity.
Qed.

(** CLAIM C8 (as amended): when the response passes the status check and
    its declared content type, the part before any semicolon, has a primary
    type other than [image] or an empty subtype, [download_image] raises the
    content-type [ValueError], the response has been closed, no file is
    written, and the message contains the [repr] of the declared content
    type; it contains the content type itself, letter for letter, whenever
    that is made of printable characters other than the backslash and the
    single quote. *)
Theorem download_image_invalid_content_type (tid : nat) (u out_dir : string)
    (w : World) (response : Response) :
  http_get E (length (requests w)) u = inr response ->
  status_ok response = true ->
  media_type response <> "image" \/ subtype response = "" ->
  let content_type := declared_content_type response in
  let message := invalid_image_type content_type u in
  exists w' : World,
    download_image E tid u out_dir w = (inl (ValueError [message]), w')
    /\ files w' = files w
    /\ closed w' = url response :: closed w
    /\ PyStr.contains (PyStr.repr content_type) message = true
    /\ (plain content_type = true ->
        PyStr.contains content_type message = true).
Proof.
  intros Hget Hstatus Hbad content_type message.
  exists (rejected u response w).
  split; [now apply download_image_rejects |].
  split; [reflexivity |]. split; [reflexivity |].
  unfold message, invalid_image_type. split.
  - apply PyStrFacts.contains_app.
  - intros Hplain. rewrite (PyStrFacts.repr_plain _ Hplain).
    replace (_ +:+ _)
      with (("Invalid image type " +:+ "'") +:+ content_type
            +:+ ("'" +:+ " from " +:+ PyStr.repr u))
      by (now rewrite !PyStrFacts.app_assoc).
    apply PyStrFacts.contains_app.
Qed.

(** The lookup of a header that no entry carries returns the default. *)
Lemma headers_get_absent (hs : list (string * string)) (name default : string) :
  (forall k v, In (k, v) hs -> PyStr.lower k <> PyStr.lower name) ->
  headers_get hs name default = default.
Proof.
  induction hs as [|[k v] hs IH]; intros Habsent; [reflexivity |].
  cbn [headers_get].
  assert (String.eqb (PyStr.lower k) (PyStr.lower name) = false) as ->.
  { apply String.eqb_neq, (Habsent k v). now left. }
  apply IH. intros k' v' Hin. apply (Habsent k' v'). now right.
Qed.

(** CLAIM C10 (as amended): when a response that passes the status check
    carries no Content-Type header, under any spelling of the name, the
    declared content type is the empty string and [download_image] raises
    the same content-type [ValueError] as for a response that is not an
    image; the response has been closed and no file is written. *)
Theorem download_image_missing_content_type (tid : nat) (u out_dir : string)
    (w : World) (response : Response) :
  http_get E (length (requests w)) u = inr response ->
  status_ok response = true ->
  (forall k v, In (k, v) (headers response) ->
               PyStr.lower k <> "content-type") ->
  declared_content_type response = ""
  /\ exists w' : World,
       download_image E tid u out_dir w
       = (inl (ValueError [invalid_image_type "" u]), w')
       /\ files w' = files w
       /\ closed w' = url response :: closed w.
Proof.
  intros Hget Hstatus Habsent.
  assert (declared_content_type response = "") as Hempty.
  { unfold declared_content_type.
    now rewrite (headers_get_absent _ "content-type" "" Habsent). }
  split; [exact Hempty |].
  exists (rejected u response w).
  split; [| split; reflexivity].
  rewrite <- Hempty. apply download_image_rejects; [assumption .. |].
  left. unfold media_type. rewrite Hempty. discriminate.
Qed.

End DownloadImage.

(** [test_wrong_content_type]: a [text/plain] response, by the theorem. *)
Lemma download_image_text_plain :
  let u := "http://abc.de/bla/foobar.jpg" in
  exists w' : World,
    download_image (Mock.env (Mock.content_type "text/plain") "foobar.jpg")
      0 u "tmpdir" Mock.tmpdir
    = (inl (ValueError
              ["Invalid image type 'text/plain' from 'http://abc.de/bla/foobar.jpg'"]),
       w')
    /\ files w' = files Mock.tmpdir
    /\ closed w' = [u]
    /\ PyStr.contains "'text/plain'"
         "Invalid image type 'text/plain' from 'http://abc.de/bla/foobar.jpg'"
       = true
    /\ (plain "text/plain" = true ->
        PyStr.contains "text/plain"
          "Invalid image type 'text/plain' from 'http://abc.de/bla/foobar.jpg'"
        = true).
Proof.
  intros u.
  apply (download_image_invalid_content_type
           (Mock.env (Mock.content_type "text/plain") "foobar.jpg")
           0%nat u "tmpdir" Mock.tmpdir
           (Mock.response 200 (Mock.content_type "text/plain") u)).
  - reflexivity.
  - reflexivity.
  - left. vm_compute. discriminate.
Defined.

(** CLAIM C8 (counterexample): a response declared [text\plain]. The
    message carries the [repr] of the content type, in which the backslash is
    doubled, so the declared content type does not occur in it. *)
Lemma invalid_content_type_message_escapes :
  let u := "http://abc.de/bla/foobar.jpg" in
  let E := Mock.env (Mock.content_type "text\plain") "foobar.jpg" in
  declared_content_type (Mock.response 200 (Mock.content_type "text\plain") u)
  = "text\plain"
  /\ (download_image E 0 u "tmpdir" Mock.tmpdir).1
     = inl (ValueError
              ["Invalid image type 'text\\plain' from 'http://abc.de/bla/foobar.jpg'"])
  /\ PyStr.contains "text\plain"
       "Invalid image type 'text\\plain' from 'http://abc.de/bla/foobar.jpg'"
     = false.
Proof. cbv zeta. split; [| split]; vm_compute; reflexivity. Qed.

(** A response without headers, by the theorem. *)
Lemma download_image_no_headers :
  let u := "http://abc.de/bla/foobar.jpg" in
  declared_content_type (Mock.response 200 [] u) = ""
  /\ exists w' : World,
       download_image (Mock.env [] "foobar.jpg") 0 u "tmpdir" Mock.tmpdir
       = (inl (ValueError
                 ["Invalid image type '' from 'http://abc.de/bla/foobar.jpg'"]),
          w')
       /\ files w' = files Mock.tmpdir
       /\ closed w' = [u].
Proof.
  intros u.
  apply (download_image_missing_content_type (Mock.env [] "foobar.jpg")
           0%nat u "tmpdir" Mock.tmpdir (Mock.response 200 [] u)).
  - reflexivity.
  - reflexivity.
  - intros k v [].
Defined.

(** CLAIM C10 (counterexample): a 404 response without a Content-Type
    header. The status is checked first: [download_image] raises
    [HTTPError], not the content-type [ValueError], and the response is not
    closed. *)
Lemma download_image_no_headers_404 :
  let u := "http://abc.de/bla/foobar.jpg" in
  let run := download_image MockCli.not_found 0 u "tmpdir" Mock.tmpdir in
  http_get MockCli.not_found 0 u = inr (Mock.response 404 [] u)
  /\ headers (Mock.response 404 [] u) = []
  /\ declared_content_type (Mock.response 404 [] u) = ""
  /\ run.1 = inl (HTTPError 404)
  /\ run.1 <> inl (ValueError [invalid_image_type "" u])
  /\ closed run.2 = []
  /\ files run.2 = files Mock.tmpdir.
Proof.
  cbv zeta. repeat (split; [reflexivity |]).
  split; [| split; reflexivity].
  cbn. discriminate.
Qed.

(** CLAIM C5 (refuted by the code): [download_image] returns the name it had
    before the collision check, not the name of the file it wrote.
    With [foobar.jpg] already in the directory, the body is written to
    [foobar_1.jpg], the debug record names [foobar_1.jpg], the file that was
    there is left as it was, and the value returned is [foobar.jpg]. *)
Theorem download_image_returns_name_before_renaming :
  let u := "http://abc.de/bla/foobar.jpg" in
  let E := Mock.env (Mock.content_type "image/jpg") "foobar.jpg" in
  let w := Mock.touch "tmpdir/foobar.jpg" Mock.tmpdir in
  let run := download_image E 0 u "tmpdir" w in
  run.1 = inr "foobar.jpg"
  /\ files run.2 = <["tmpdir/foobar_1.jpg" := File "image data"]> (files w)
  /\ files run.2 !! "tmpdir/foobar.jpg" = Some (File "")
  /\ hd_error (log run.2)
     = Some (LogMsg DEBUG "Saved %r" [Str "foobar_1.jpg"])
  /\ run.1 <> inr (PosixPath.basename "tmpdir/foobar_1.jpg").
Proof.
  cbv zeta.
  set (run := download_image _ _ _ _ _).
  assert (run
          = (inr "foobar.jpg",
             mkWorld
               (<["tmpdir/foobar_1.jpg" := File "image data"]>
                  (files (Mock.touch "tmpdir/foobar.jpg" Mock.tmpdir)))
               [LogMsg DEBUG "Saved %r" [Str "foobar_1.jpg"];
                LogMsg DEBUG "Requesting %r"
                  [Str "http://abc.de/bla/foobar.jpg"]]
               ["http://abc.de/bla/foobar.jpg"] [] 1)) as ->
    by (vm_compute; reflexivity).
  cbn [fst snd files log hd_error].
  split; [reflexivity |]. split; [reflexivity |].
  split; [vm_compute; reflexivity |]. split; [reflexivity |].
  intros [= H].
Qed.

(** ** What a computation leaves untouched *)

Section Frames.
Context {X : Type} (obs : World -> X).

Lemma preserves_ret {A} (a : A) : preserves obs (ret a).
Proof. intros w. reflexivity. Qed.

Lemma preserves_raise {A} (e : exn) : preserves obs (@raise A e).
Proof. intros w. reflexivity. Qed.

Lemma preserves_lift_result {A} (r : exn + A) : preserves obs (lift_result r).
Proof. intros w. reflexivity. Qed.

Lemma preserves_bind {A B} (m : M A) (k : A -> M B) :
  preserves obs m -> (forall a, preserves obs (k a)) ->
  preserves obs (bind m k).
Proof.
  intros Hm Hk w. specialize (Hm w). unfold bind.
  destruct (m w) as [[e | a] w1]; cbn [snd] in *; [exact Hm |].
  now rewrite Hk.
Qed.

Lemma preserves_attempt {A} (m : M A) :
  preserves obs m -> preserves obs (attempt m).
Proof.
  intros Hm w. specialize (Hm w). unfold attempt.
  now destruct (m w) as [r w1].
Qed.

End Frames.

Ltac frame_step :=
  first
    [ apply preserves_ret
    | apply preserves_raise
    | apply preserves_lift_result
    | apply preserves_attempt
    | apply preserves_bind; [| intros ?]
    | match goal with
      | |- preserves _ (match ?x with _ => _ end) => destruct x
      end ].

(** *** Quiet observations *)

Create HintDb frame.

Section QuietSteps.
Context {X : Type} (obs : World -> X) `{!Quiet obs}.

Lemma logger_debug_quiet (fmt : string) (args : list LogArg) :
  preserves obs (logger_debug fmt args).
Proof. intros w. apply quiet_log. Qed.

Lemma logger_warning_quiet (fmt : string) (args : list LogArg) :
  preserves obs (logger_warning fmt args).
Proof. intros w. apply quiet_log. Qed.

Lemma new_Session_quiet : preserves obs new_Session.
Proof. intros w. apply quiet_id. Qed.

Lemma response_close_quiet (r : Response) : preserves obs (response_close r).
Proof. intros w. apply quiet_closed. Qed.

Lemma raise_for_status_quiet (r : Response) :
  preserves obs (raise_for_status r).
Proof. unfold raise_for_status. repeat frame_step. Qed.

Lemma getattr_quiet (o : gmap (nat * string) nat) (tid : nat) (name : string) :
  preserves obs (getattr o tid name).
Proof. unfold getattr. repeat frame_step. Qed.

Lemma open_wb_quiet (p : string) : preserves obs (open_wb p).
Proof.
  intros w. unfold open_wb.
  destruct (_ || _); [reflexivity | apply quiet_files].
Qed.

Lemma copyfileobj_quiet (response : Response) (p : string) :
  preserves obs (copyfileobj response p).
Proof.
  intros w. unfold copyfileobj. cbn [snd].
  destruct (files w !! p) as [[| old] |]; [reflexivity | | reflexivity].
  apply quiet_files.
Qed.

Lemma rename_if_exists_quiet (file_path : string) :
  preserves obs (rename_if_exists file_path).
Proof.
  intros w. unfold rename_if_exists.
  destruct (negb _); [reflexivity |].
  destruct (rename_loop _ _ _ _) as [r [|]]; [reflexivity |].
  apply quiet_log.
Qed.

End QuietSteps.

#[global] Hint Resolve logger_debug_quiet logger_warning_quiet
  new_Session_quiet response_close_quiet raise_for_status_quiet
  getattr_quiet open_wb_quiet copyfileobj_quiet rename_if_exists_quiet : frame.

Ltac frame :=
  repeat first [ frame_step | solve [eauto with frame typeclass_instances] ].

Section QuietFunctions.
Context {X : Type} (obs : World -> X) `{!Quiet obs}.

Lemma get_session_quiet (tid : nat) : preserves obs (get_session tid).
Proof. unfold get_session. frame. Qed.

Lemma get_filename_quiet (E : Env) (response : Response)
    (expected_extension : string) :
  preserves obs (get_filename E response expected_extension).
Proof. unfold get_filename. frame. Qed.

End QuietFunctions.

#[global] Hint Resolve get_session_quiet get_filename_quiet : frame.

(** *** The ERROR records and the requests *)

#[global] Instance logged_errors_quiet : Quiet logged_errors.
Proof. split; reflexivity. Qed.

#[global] Instance requests_quiet : Quiet requests.
Proof. split; reflexivity. Qed.

Lemma session_get_errors (E : Env) (session : nat) (u : string) :
  preserves logged_errors (session_get E session u).
Proof. intros w. reflexivity. Qed.

#[global] Hint Resolve session_get_errors : frame.

(** A task logs nothing at level ERROR. *)
Lemma download_image_errors (E : Env) (tid : nat) (u out_dir : string) :
  preserves logged_errors (download_image E tid u out_dir).
Proof. unfold download_image. frame. Qed.

(** [get_session] never raises: it returns a new object. *)
Lemma get_session_run (tid : nat) (w : World) :
  get_session tid w = (inr (next_id w), bump_id w).
Proof.
  unfold get_session, bind, attempt, getattr, threading_local.
  now rewrite lookup_empty.
Qed.

(** A task issues one request, for its URL, whatever its outcome. *)
Lemma download_image_requests (E : Env) (tid : nat) (u out_dir : string)
    (w : World) :
  requests (download_image E tid u out_dir w).2 = u :: requests w.
Proof.
  unfold download_image.
  unfold bind at 1, logger_debug. unfold bind at 1. rewrite get_session_run.
  unfold bind at 1, session_get.
  destruct (http_get E _ u) as [e | response]; [reflexivity |].
  match goal with
  | |- requests (?m ?w1).2 = _ =>
      assert (preserves requests m) as Hrest by frame; rewrite (Hrest w1)
  end.
  reflexivity.
Qed.

Lemma logged_errors_log_errors (errors : list exn) (w : World) :
  logged_errors (log_errors errors w) = (rev errors ++ logged_errors w)%list.
Proof.
  revert w. induction errors as [|e errors IH]; intros w; [reflexivity |].
  cbn [log_errors fold_left rev]. fold (log_errors errors (add_log (LogExn ERROR e) w)).
  rewrite IH, <- app_assoc. reflexivity.
Qed.

(** ** The script call by call, and the script

    Run without interruption, the functions of [Stepwise] are the
    functions of the script. *)

Section StepwiseRun.
Variable E : Env.

Lemma run_bind {A B} (t : Thread A) (k : A -> Thread B) (m : M A)
    (f : A -> M B) :
  (forall w, run E t w = m w) ->
  (forall a w, run E (k a) w = f a w) ->
  forall w, run E (Stepwise.bind t k) w = bind m f w.
Proof.
  intros Ht Hk w. unfold bind. rewrite <- Ht. clear Ht m.
  revert w. induction t as [[e | a] | X c k' IH]; intros w.
  - reflexivity.
  - cbn. now rewrite Hk.
  - cbn. destruct (perform E c w) as [r w']. apply IH.
Qed.

Lemma run_attempt {A} (t : Thread A) (m : M A) :
  (forall w, run E t w = m w) ->
  forall w, run E (Stepwise.attempt t) w = attempt m w.
Proof.
  intros Ht w. unfold attempt. rewrite <- Ht. clear Ht m.
  revert w. induction t as [r | X c k IH]; intros w; [reflexivity |].
  cbn. destruct (perform E c w) as [r w']. apply IH.
Qed.

Lemma run_call {X} (c : Call X) (w : World) :
  run E (Stepwise.call c) w = perform E c w.
Proof. cbn. now destruct (perform E c w). Qed.

Lemma stepwise_get_session (tid : nat) (w : World) :
  run E (Stepwise.get_session tid) w = get_session tid w.
Proof.
  revert w. unfold Stepwise.get_session, get_session.
  apply run_bind.
  - apply run_attempt. intros w. unfold Stepwise.getattr, getattr.
    now destruct (_ !! _).
  - intros [e | session] w; [| reflexivity].
    destruct e; reflexivity.
Qed.

Lemma stepwise_rename_loop (orig : string) (indices : list Z)
    (current : string) (w : World) :
  run E (Stepwise.rename_loop orig indices current) w
  = (inr (rename_loop orig w indices current), w).
Proof.
  revert current. induction indices as [|i indices IH]; intros current;
    [reflexivity |].
  cbn. destruct (path_exists (candidate orig i) w); cbn; [apply IH |].
  reflexivity.
Qed.

Lemma stepwise_rename_if_exists (file_path : string) (w : World) :
  run E (Stepwise.rename_if_exists file_path) w = rename_if_exists file_path w.
Proof.
  unfold Stepwise.rename_if_exists, rename_if_exists. cbn.
  destruct (path_exists file_path w); cbn [negb]; [| reflexivity].
  rewrite (run_bind _ _ (fun w => (inr (rename_loop file_path w (range 1 10000)
                                          file_path), w))
             (fun found =>
                match found with
                | (file_path, true) => ret file_path
                | (file_path, false) =>
                    logger_warning "Failed to rename %r" [Str file_path];;
                    ret file_path
                end)).
  - unfold bind. now destruct (rename_loop _ _ _ _) as [r [|]].
  - intros w'. apply stepwise_rename_loop.
  - intros [r [|]] w'; reflexivity.
Qed.

Lemma stepwise_get_filename (response : Response)
    (expected_extension : string) (w : World) :
  run E (Stepwise.get_filename E response expected_extension) w
  = get_filename E response expected_extension w.
Proof.
  revert w. unfold Stepwise.get_filename, get_filename.
  apply run_bind; [now apply run_attempt |].
  intros [error | cd] w; [| reflexivity].
  revert w. apply run_bind; [apply run_call |]. intros _.
  apply run_bind; [reflexivity |]. reflexivity.
Qed.

(** The task of a pool thread, run without interruption, is
    [download_image]: same outcome, same world. *)
Lemma stepwise_download_image (tid : nat) (u out_dir : string) (w : World) :
  run E (Stepwise.download_image E tid u out_dir) w
  = download_image E tid u out_dir w.
Proof.
  revert w. unfold Stepwise.download_image, download_image.
  apply run_bind; [apply run_call |]. intros _.
  apply run_bind; [apply stepwise_get_session |]. intros session.
  apply run_bind; [apply run_call |]. intros response.
  apply run_bind.
  { intros w. unfold Stepwise.raise_for_status, raise_for_status.
    now destruct (_ && _). }
  intros _.
  destruct (PyStr.partition "/" _) as [[media sep] sub].
  destruct (negb (String.eqb media "image") || PyStr.is_empty sub).
  { apply run_bind; [apply run_call | reflexivity]. }
  apply run_bind; [apply stepwise_get_filename |]. intros filename.
  apply run_bind; [apply stepwise_rename_if_exists |]. intros file_path.
  apply run_bind; [apply run_call |]. intros _.
  apply run_bind; [apply run_call |]. intros _.
  apply run_bind; [apply run_call |]. reflexivity.
Qed.

(** The worker's identity has no part in the task. *)
Lemma stepwise_download_image_any_worker (tid tid' : nat) (u out_dir : string) :
  Stepwise.download_image E tid u out_dir
  = Stepwise.download_image E tid' u out_dir.
Proof. reflexivity. Qed.

End StepwiseRun.

(** ** The course of a task: [download_image] keeps to it *)

Section CourseFacts.
Variable E : Env.
Variable w0 : World.
Variable u : string.

Lemma proceeds_weaken {A} (Q Q' : Phase -> exn + A -> Prop) (t : Thread A)
    (ph : Phase) :
  (forall ph' r, Q ph' r -> Q' ph' r) ->
  proceeds E w0 u ph t Q -> proceeds E w0 u ph t Q'.
Proof.
  intros HQ. revert ph. induction t as [r | X c k IH]; intros ph; cbn.
  - apply HQ.
  - intros Ht r Hr. destruct (Ht r Hr) as (ph' & Hmove & Hk).
    exists ph'. split; [exact Hmove | now apply IH].
Qed.

Lemma proceeds_bind {A B} (t : Thread A) (k : A -> Thread B) (ph : Phase)
    (Q : Phase -> exn + B -> Prop) :
  proceeds E w0 u ph t
    (fun ph' r =>
       match r with
       | inl e => Q ph' (inl e)
       | inr a => proceeds E w0 u ph' (k a) Q
       end) ->
  proceeds E w0 u ph (Stepwise.bind t k) Q.
Proof.
  revert ph. induction t as [[e | a] | X c k' IH]; intros ph; cbn;
    [auto .. |].
  intros Ht r Hr. destruct (Ht r Hr) as (ph' & Hmove & Hk).
  exists ph'. split; [exact Hmove | now apply IH].
Qed.

Lemma proceeds_call {X} (c : Call X) (ph : Phase)
    (Q : Phase -> exn + X -> Prop) :
  (forall r, possible c r -> exists ph', moves E w0 u ph c r ph' /\ Q ph' r) ->
  proceeds E w0 u ph (Stepwise.call c) Q.
Proof. intros H. exact H. Qed.

(** A call that does not change the phase and does not fail. *)
Lemma proceeds_log {B} (fmt : string) (args : list LogArg) (ph : Phase)
    (k : unit -> Thread B) (Q : Phase -> exn + B -> Prop) (warning : bool) :
  proceeds E w0 u ph (k tt) Q ->
  proceeds E w0 u ph
    (Stepwise.bind
       (if warning then Stepwise.logger_warning fmt args
        else Stepwise.logger_debug fmt args) k) Q.
Proof.
  intros Hk. apply proceeds_bind.
  destruct warning; apply proceeds_call; intros r ->; exists ph;
    (split; [reflexivity | exact Hk]).
Qed.

Lemma get_session_proceeds (tid : nat) :
  proceeds E w0 u (Starting false) (Stepwise.get_session tid)
    (fun ph r => ph = Starting true /\ exists session, r = inr session).
Proof.
  unfold Stepwise.get_session, Stepwise.getattr, threading_local.
  rewrite lookup_empty. cbn.
  intros r [session ->]. exists (Starting true). cbn. eauto.
Qed.

Lemma get_filename_proceeds (response : Response)
    (expected_extension : string) :
  proceeds E w0 u (Checking response)
    (Stepwise.get_filename E response expected_extension)
    (fun ph r =>
       ph = Checking response
       /\ r = (get_filename E response expected_extension w0).1).
Proof.
  unfold Stepwise.get_filename, get_filename, bind, attempt, lift_result.
  destruct (parse_requests_response E response) as [error | cd]; cbn.
  - intros r ->. exists (Checking response). split; [reflexivity |].
    cbn. destruct (unquote_unreserved E (url response)); cbn; auto.
  - auto.
Qed.

Lemma rename_loop_proceeds (response : Response) (orig : string)
    (indices : list Z) (current : string) :
  proceeds E w0 u (Checking response)
    (Stepwise.rename_loop orig indices current)
    (fun ph r => ph = Checking response /\ exists found, r = inr found).
Proof.
  revert current. induction indices as [|i indices IH]; intros current; cbn.
  - eauto.
  - intros r [taken ->]. exists (Checking response).
    split; [eauto |]. cbn. destruct taken; cbn; [apply IH | eauto].
Qed.

Lemma rename_if_exists_proceeds (response : Response) (file_path : string) :
  proceeds E w0 u (Checking response) (Stepwise.rename_if_exists file_path)
    (fun ph r => ph = Checking response /\ exists p, r = inr p).
Proof.
  unfold Stepwise.rename_if_exists. apply proceeds_bind, proceeds_call.
  intros r [taken ->]. exists (Checking response). split; [cbn; eauto |].
  destruct taken; cbn [negb]; [| cbn; eauto].
  apply proceeds_bind.
  eapply proceeds_weaken; [| apply rename_loop_proceeds].
  intros ph r [-> [[p broke] ->]]. cbn beta iota.
  destruct broke; [cbn; eauto |].
  apply (proceeds_log _ _ _ _ _ true). cbn. eauto.
Qed.

(** The task of a pool thread keeps to the course of a task, from its
    start. *)
Lemma download_image_obeys (tid : nat) (out_dir : string) :
  obeys E w0 u (Starting false) (Stepwise.download_image E tid u out_dir).
Proof.
  unfold obeys, Stepwise.download_image.
  apply (proceeds_log _ _ _ _ _ false).
  apply proceeds_bind.
  eapply proceeds_weaken; [| apply get_session_proceeds].
  intros ph r [-> [session ->]]. cbn beta iota.
  apply proceeds_bind, proceeds_call. intros r _.
  eexists. split; [cbn; eauto |].
  destruct r as [e | response]; [reflexivity |].
  unfold Stepwise.raise_for_status.
  destruct ((400 <=? status_code response) && (status_code response <? 600))
    eqn:Hstatus.
  { cbn. unfold explained, status_ok. rewrite Hstatus. cbn. eauto. }
  cbn [Stepwise.bind Stepwise.ret].
  fold (declared_content_type response).
  pose proof (eq_refl (media_type response)) as Hmedia.
  pose proof (eq_refl (subtype response)) as Hsub.
  unfold media_type at 2 in Hmedia. unfold subtype at 2 in Hsub.
  destruct (PyStr.partition "/" (declared_content_type response))
    as [[media sep] sub]. cbn [fst snd] in Hmedia, Hsub. subst media sub.
  destruct (negb (String.eqb (media_type response) "image")
            || PyStr.is_empty (subtype response)) eqn:Hct.
  { apply proceeds_bind, proceeds_call. intros r ->.
    exists (Checking response). split; [cbn; auto |].
    cbn. unfold explained, status_ok. rewrite Hstatus, Hct. cbn. eauto. }
  apply proceeds_bind.
  eapply proceeds_weaken; [| apply get_filename_proceeds].
  intros ph r [-> ->]. cbn beta.
  destruct (get_filename E response (subtype response) w0).1
    as [e | name] eqn:Hname.
  { cbn beta iota. cbn [proceeds final]. split; [| eauto].
    unfold explained, status_ok. rewrite Hstatus, Hct. cbn [negb].
    now rewrite Hname. }
  apply proceeds_bind.
  eapply proceeds_weaken; [| apply rename_if_exists_proceeds].
  intros ph r [-> [file_path ->]]. cbn beta iota.
  assert (passes E w0 response) as Hpasses.
  { split; [| eauto].
    unfold is_image, status_ok. now rewrite Hstatus, Hct. }
  apply proceeds_bind, proceeds_call. intros r Hr.
  eexists. split; [cbn; eauto |].
  destruct Hr as [-> | ->]; [| reflexivity].
  apply proceeds_bind, proceeds_call. intros r Hr.
  eexists. split; [cbn; eauto |].
  destruct r as [e | []]; [reflexivity |].
  apply (proceeds_log _ _ _ _ _ false). cbn. eauto.
Qed.

End CourseFacts.

(** ** The account of a run, call by call *)

Lemma perform_possible (E : Env) {X} (c : Call X) (w : World) :
  possible c (perform E c w).1.
Proof.
  destruct c; cbn; eauto.
  - unfold open_wb. destruct (_ || _); cbn; auto.
Qed.

(** No call of a task logs an exception at level ERROR. *)
Lemma perform_errors (E : Env) {X} (c : Call X) (w : World) :
  logged_errors (perform E c w).2 = logged_errors w.
Proof.
  destruct c; cbn; try reflexivity.
  - unfold open_wb. now destruct (_ || _).
  - unfold copyfileobj. cbn. now destruct (files w !! p) as [[| old] |].
Qed.

Lemma path_exists_insert (p q : string) (node : Node) (w : World) :
  path_exists p w = true ->
  path_exists p (set_files (<[q := node]> (files w)) w) = true.
Proof.
  unfold path_exists. cbn. destruct (decide (q = p)) as [-> | Hne].
  - now rewrite lookup_insert_eq.
  - now rewrite lookup_insert_ne.
Qed.

Lemma size_insert_le (q : string) (node : Node) (m : gmap string Node) :
  (size (<[q := node]> m) <= S (size m))%nat.
Proof. rewrite map_size_insert. destruct (m !! q); cbn; lia. Qed.

Section Accounting.
Variable E : Env.
Variable w0 : World.

Lemma accounted_perm (w : World) (entries entries' : list (Task * Status)) :
  Permutation entries entries' ->
  accounted E w0 w entries -> accounted E w0 w entries'.
Proof.
  intros Hperm. unfold accounted, count, owed_requests.
  now rewrite Hperm.
Qed.

(** A record logged changes nothing in the account. *)
Lemma accounted_log (r : LogRecord) (w : World)
    (entries : list (Task * Status)) :
  accounted E w0 w entries -> accounted E w0 (add_log r w) entries.
Proof. exact id. Qed.

(** A worker taking a task changes nothing in the account. *)
Lemma accounted_start (item : Task) (w : World) (rest : list (Task * Status)) :
  accounted E w0 w ((item, Queued) :: rest) ->
  accounted E w0 w ((item, Working (Starting false)) :: rest).
Proof. exact id. Qed.

Ltac account :=
  unfold accounted, count, owed_requests, extends, logger_debug,
    logger_warning, new_Session, response_close in *;
  cbn [flat_map sum_list_with map fst snd length owes_request owes_session
       may_open holds_file app requests next_id files add_log add_request
       add_closed bump_id set_files path_exists] in *.

(** A call of a task, in the account. *)
Lemma call_accounted {X} (c : Call X) (item : Task) (ph ph' : Phase)
    (rest : list (Task * Status)) (w : World) :
  accounted E w0 w ((item, Working ph) :: rest) ->
  good E w0 item.1 ph ->
  moves E w0 item.1 ph c (perform E c w).1 ph' ->
  accounted E w0 (perform E c w).2 ((item, Working ph') :: rest)
  /\ good E w0 item.1 ph'.
Proof.
  intros (Hreq & Hext & Hid & Hopen & Hpaths & Hheld) [Hsound Hanswer] Hmove.
  destruct c; cbn [perform moves] in *.
  - (* logger.debug *)
    subst ph'. split; [| now split]. now account.
  - (* logger.warning *)
    subst ph'. split; [| now split]. now account.
  - (* requests.Session() *)
    destruct Hmove as [-> ->]. split; [| split; [exact I | discriminate]].
    account. repeat split; auto. lia.
  - (* session.get *)
    destruct Hmove as (-> & -> & ->).
    unfold session_get in *. cbn [fst snd] in *.
    split.
    + account. destruct Hext as [added Hadded].
      destruct (http_get E (length (requests w)) item.1);
        account; (repeat split; auto; try lia);
        try (now exists (item.1 :: added); rewrite Hadded);
        (etransitivity; [| exact Hreq]);
        cbn; apply Permutation_middle.
    + destruct Hext as [added Hadded].
      assert (length (requests w0) <= length (requests w))%nat as Hlen
        by (rewrite Hadded, length_app; lia).
      destruct (http_get E (length (requests w)) item.1) eqn:Hget;
        (split; [exact I |]); intros got [= <-]; eauto.
  - (* response.close *)
    destruct Hmove as [-> ->]. split; [| now split]. now account.
  - (* path.exists *)
    destruct Hmove as [_ ->]. split; [| now split]. now account.
  - (* open *)
    destruct Hmove as (response & -> & Hpasses & ->).
    unfold open_wb in *.
    destruct (path_isdir p w
              || negb (PyStr.is_empty (PosixPath.dirname p)
                       || path_isdir (PosixPath.dirname p) w));
      cbn [fst snd] in *.
    + split.
      * account. repeat split; auto. lia.
      * split; [cbn; eauto |]. exact Hanswer.
    + split.
      * pose proof (size_insert_le p (File "") (files w)).
        account. repeat split; auto; try lia.
        -- intros q Hq. apply (path_exists_insert q p (File "") w).
           now apply Hpaths.
        -- intros Hintact. specialize (Hheld Hintact). lia.
      * split; [exact Hpasses | exact Hanswer].
  - (* copyfileobj *)
    destruct Hmove as (-> & ->). cbn [sound] in Hsound.
    unfold copyfileobj in *. cbn [fst snd] in *.
    assert (size (files match files w !! p with
                        | Some (File old) =>
                            set_files
                              (<[p := File (overwrite (raw r) old)]> (files w)) w
                        | _ => w
                        end) = size (files w)
            /\ forall q, path_exists q w = true ->
                 path_exists q match files w !! p with
                               | Some (File old) =>
                                   set_files
                                     (<[p := File (overwrite (raw r) old)]>
                                        (files w)) w
                               | _ => w
                               end = true) as [Hsize Hkept].
    { destruct (files w !! p) as [[| old] |] eqn:Hp; [now split | | now split].
      split.
      - cbn. apply map_size_insert_Some. now rewrite Hp.
      - intros q. apply path_exists_insert. }
    destruct (files w !! p) as [[| old] |] eqn:Hp;
      destruct (raw_error r) as [e |] eqn:Hraw;
      (split;
       [ account; rewrite ?Hsize; repeat split; auto; try lia;
         intros Hintact;
         destruct (Hanswer _ eq_refl) as (n & _ & Hget);
         specialize (Hintact _ _ _ Hget); congruence
       | split; [cbn; auto | exact Hanswer] ]).
Qed.

(** The end of a task, in the account. *)
Lemma finish_accounted (item : Task) (ph : Phase) (outcome : exn + string)
    (rest : list (Task * Status)) (w : World) :
  accounted E w0 w ((item, Working ph) :: rest) ->
  good E w0 item.1 ph ->
  final E w0 item.1 ph outcome ->
  accounted E w0 w ((item, Done outcome) :: rest)
  /\ entry_ok E w0 (item, Done outcome).
Proof.
  intros (Hreq & Hext & Hid & Hopen & Hpaths & Hheld) [Hsound Hanswer] Hfinal.
  destruct ph as [session | e | response | response | response | response e];
    cbn [final] in Hfinal; try contradiction.
  - (* the request raised *)
    subst outcome. split; [now account |].
    destruct (Hanswer _ eq_refl) as (n & Hn & Hget).
    exists n. split; [exact Hn |]. cbn. now rewrite Hget.
  - (* an error of the checks or of the naming *)
    destruct Hfinal as [Hexplained [e ->]]. split.
    + account. repeat split; auto. lia.
    + destruct (Hanswer _ eq_refl) as (n & Hn & Hget).
      exists n. split; [exact Hn |]. cbn. now rewrite Hget.
  - (* the file is saved *)
    destruct Hfinal as (name & Hname & ->). split; [now account |].
    destruct (Hanswer _ eq_refl) as (n & Hn & Hget).
    exists n. split; [exact Hn |]. cbn [fst snd]. rewrite Hget.
    destruct Hsound as [[Himage _] Hraw].
    unfold explained. unfold is_image in Himage.
    apply andb_true_iff in Himage as [-> Hct].
    apply negb_true_iff in Hct. rewrite Hct. cbn [negb].
    now rewrite Hname.
  - (* opening or copying raised *)
    subst outcome. split; [now account |].
    destruct (Hanswer _ eq_refl) as (n & Hn & Hget).
    exists n. split; [exact Hn |]. cbn [fst snd]. rewrite Hget.
    destruct Hsound as [[Himage [name Hname]] Hwhy].
    unfold explained. unfold is_image in Himage.
    apply andb_true_iff in Himage as [-> Hct].
    apply negb_true_iff in Hct. rewrite Hct. cbn [negb].
    now rewrite Hname.
Qed.

(** A thread left to itself: it ends, and its task is done. *)
Lemma run_accounted (item : Task) (t : Thread string) (ph : Phase)
    (rest : list (Task * Status)) (w : World) :
  obeys E w0 item.1 ph t ->
  good E w0 item.1 ph ->
  accounted E w0 w ((item, Working ph) :: rest) ->
  accounted E w0 (run E t w).2 ((item, Done (run E t w).1) :: rest)
  /\ entry_ok E w0 (item, Done (run E t w).1)
  /\ logged_errors (run E t w).2 = logged_errors w.
Proof.
  unfold obeys. revert ph w.
  induction t as [outcome | X c k IH]; intros ph w Hobeys Hgood Haccount.
  - cbn [run fst snd].
    destruct (finish_accounted item ph outcome rest w Haccount Hgood Hobeys).
    auto.
  - cbn [run proceeds] in *.
    pose proof (perform_possible E c w) as Hpossible.
    pose proof (perform_errors E c w) as Herrors.
    destruct (Hobeys _ Hpossible) as (ph' & Hmove & Hrest).
    destruct (call_accounted c item ph ph' rest w Haccount Hgood Hmove)
      as [Haccount' Hgood'].
    destruct (perform E c w) as [r w']. cbn [fst snd] in *.
    destruct (IH r ph' w' Hrest Hgood' Haccount') as (Hdone & Hok & Hlog).
    split; [exact Hdone |]. split; [exact Hok |]. now rewrite Hlog.
Qed.

End Accounting.

(** ** The account of a run, turn by turn *)

Lemma count_errors_spec (completed : list (Task * (exn + string)))
    (error_count : Z) (w : World) :
  count_errors completed error_count w
  = (inr (error_count + Z.of_nat (length (failures completed))),
     log_errors (failures completed) w).
Proof.
  revert error_count w.
  induction completed as [|[t [e | name]] completed IH];
    intros error_count w.
  - cbn. now rewrite Z.add_0_r.
  - cbn [count_errors failures length]. unfold bind, logger_error.
    rewrite IH. cbn [log_errors fold_left]. do 2 f_equal. lia.
  - cbn [count_errors failures]. apply IH.
Qed.

Lemma failures_app (a b : list (Task * (exn + string))) :
  failures (a ++ b) = (failures a ++ failures b)%list.
Proof.
  induction a as [|[t [e | name]] a IH]; cbn; [reflexivity | | exact IH].
  now rewrite IH.
Qed.

Lemma length_failures (completed : list (Task * (exn + string))) :
  (length (failures completed) <= length completed)%nat.
Proof.
  induction completed as [|[t [e | name]] completed IH]; cbn; lia.
Qed.


Lemma perm_extract {A} (q a1 a2 d : list A) (e : A) :
  Permutation (q ++ (a1 ++ e :: a2) ++ d) (e :: q ++ (a1 ++ a2) ++ d).
Proof. solve_Permutation. Qed.

Section PoolAccount.
Variable E : Env.
Variable w0 : World.
Variable fs : list Task.

Lemma consistent_perm (w : World) (entries entries' : list (Task * Status)) :
  Permutation entries entries' ->
  consistent E w0 fs w entries -> consistent E w0 fs w entries'.
Proof.
  intros Hperm (Hfs & Hok & Haccount). split; [| split].
  - now rewrite <- Hperm.
  - now rewrite <- Hperm.
  - exact (accounted_perm E w0 w _ _ Hperm Haccount).
Qed.

Lemma consistent_log_errors (errors : list exn) (w : World)
    (entries : list (Task * Status)) :
  consistent E w0 fs w entries ->
  consistent E w0 fs (log_errors errors w) entries.
Proof.
  revert w. induction errors as [|e errors IH]; intros w H; [exact H |].
  cbn [log_errors fold_left].
  fold (log_errors errors (add_log (LogExn ERROR e) w)). apply IH.
  destruct H as (Hfs & Hok & Haccount). now split.
Qed.

Lemma consistent_start (item : Task) (w : World) (rest : list (Task * Status)) :
  consistent E w0 fs w ((item, Queued) :: rest) ->
  consistent E w0 fs w ((item, Working (Starting false)) :: rest).
Proof.
  intros (Hfs & Hok & Haccount). split; [exact Hfs |]. split; [| exact Haccount].
  apply Forall_cons. apply Forall_cons in Hok as [_ Hok].
  split; [| exact Hok]. split; [exact I | discriminate].
Qed.

Lemma consistent_finish (item : Task) (ph : Phase) (outcome : exn + string)
    (rest : list (Task * Status)) (w : World) :
  final E w0 item.1 ph outcome ->
  consistent E w0 fs w ((item, Working ph) :: rest) ->
  consistent E w0 fs w ((item, Done outcome) :: rest).
Proof.
  intros Hfinal (Hfs & Hok & Haccount).
  apply Forall_cons in Hok as [Hgood Hok].
  destruct (finish_accounted E w0 item ph outcome rest w Haccount Hgood Hfinal)
    as [Haccount' Hdone].
  split; [exact Hfs |]. split; [| exact Haccount'].
  apply Forall_cons. now split.
Qed.

(** One step of a thread at work. *)
Lemma consistent_step (item : Task) (t : Thread string) (ph : Phase)
    (rest : list (Task * Status)) (w : World) :
  obeys E w0 item.1 ph t ->
  consistent E w0 fs w ((item, Working ph) :: rest) ->
  exists ph',
    obeys E w0 item.1 ph' (step E t w).1
    /\ consistent E w0 fs (step E t w).2 ((item, Working ph') :: rest)
    /\ logged_errors (step E t w).2 = logged_errors w.
Proof.
  intros Hobeys Hconsistent. destruct t as [outcome | X c k].
  - exists ph. now cbn.
  - destruct Hconsistent as (Hfs & Hok & Haccount).
    apply Forall_cons in Hok as [Hgood Hok].
    unfold obeys in *. cbn [proceeds step] in *.
    pose proof (perform_possible E c w) as Hpossible.
    pose proof (perform_errors E c w) as Herrors.
    destruct (Hobeys _ Hpossible) as (ph' & Hmove & Hrest).
    destruct (call_accounted E w0 c item ph ph' rest w Haccount Hgood Hmove)
      as [Haccount' Hgood'].
    destruct (perform E c w) as [r w']. cbn [fst snd] in *.
    exists ph'. split; [exact Hrest |]. split; [| exact Herrors].
    split; [exact Hfs |]. split; [| exact Haccount'].
    apply Forall_cons. now split.
Qed.

(** A thread at work left to itself. *)
Lemma consistent_run (item : Task) (t : Thread string) (ph : Phase)
    (rest : list (Task * Status)) (w : World) :
  obeys E w0 item.1 ph t ->
  consistent E w0 fs w ((item, Working ph) :: rest) ->
  consistent E w0 fs (run E t w).2 ((item, Done (run E t w).1) :: rest)
  /\ logged_errors (run E t w).2 = logged_errors w.
Proof.
  intros Hobeys (Hfs & Hok & Haccount).
  apply Forall_cons in Hok as [Hgood Hok].
  destruct (run_accounted E w0 item t ph rest w Hobeys Hgood Haccount)
    as (Haccount' & Hdone & Hlog).
  split; [| exact Hlog].
  split; [exact Hfs |]. split; [| exact Haccount'].
  apply Forall_cons. now split.
Qed.

(** The turn of a worker. *)
Lemma worker_turn_accounted (k : nat) (pool : Pool)
    (completed : list (Task * (exn + string))) (w : World) :
  pool_accounted E w0 fs w pool completed ->
  pool_accounted E w0 fs (worker_turn E k pool w).2
    (worker_turn E k pool w).1 completed
  /\ logged_errors (worker_turn E k pool w).2 = logged_errors w.
Proof.
  intros (at_work & Htracked & Hconsistent). unfold worker_turn.
  destruct (workers pool !! k) as [worker |] eqn:Hk;
    [| split; [now exists at_work | reflexivity]].
  destruct (Forall2_lookup_l _ _ _ _ _ Htracked Hk)
    as ([item st] & Hentry & Hitem & ph & Hst & Hobeys).
  cbn [fst snd] in Hitem, Hst. subst item st.
  pose proof (take_drop_middle _ _ _ Hk) as Hworkers.
  pose proof (take_drop_middle _ _ _ Hentry) as Hat_work.
  pose proof (Forall2_take _ _ _ k Htracked) as Hbefore.
  pose proof (Forall2_drop _ _ _ (S k) Htracked) as Hafter.
  pose proof (lookup_lt_Some _ _ _ Hk) as Hlt.
  set (before := take k at_work) in *. set (after := drop (S k) at_work) in *.
  rewrite <- Hat_work in Hconsistent.
  apply (consistent_perm _ _ _ (perm_extract _ _ _ _ _)) in Hconsistent.
  destruct (consistent_step _ _ _ _ _ Hobeys Hconsistent)
    as (ph' & Hobeys' & Hconsistent' & Hlog).
  destruct (step E (thread worker) w) as [t w'] eqn:Hstep.
  cbn [fst snd] in Hobeys', Hconsistent', Hlog.
  destruct t as [outcome | X c k'].
  - (* the task has ended *)
    apply (consistent_finish _ _ outcome) in Hconsistent'; [| exact Hobeys'].
    destruct (work_queue pool) as [| next queue] eqn:Hqueue; cbn [fst snd].
    + split; [| exact Hlog]. exists (before ++ after)%list.
      cbn [workers work_queue finished]. split.
      * rewrite delete_take_drop. now apply Forall2_app.
      * eapply consistent_perm; [| exact Hconsistent'].
        cbn [map app]. rewrite !map_app. cbn [map].
        change (done (work_item worker, outcome))
          with (work_item worker, Done outcome).
        solve_Permutation.
    + split; [| exact Hlog].
      exists (before ++ (next, Working (Starting false)) :: after)%list.
      cbn [workers work_queue finished]. split.
      * rewrite insert_take_drop by exact Hlt.
        apply Forall2_app; [exact Hbefore |].
        constructor; [| exact Hafter].
        split; [reflexivity |]. exists (Starting false).
        split; [reflexivity |]. apply download_image_obeys.
      * cbn [map app] in Hconsistent'.
        apply (consistent_perm _ _
                 ((next, Queued)
                  :: (work_item worker, Done outcome)
                  :: map queued queue ++ (before ++ after)
                  ++ map done (finished pool ++ completed))%list)
          in Hconsistent'; [| apply perm_swap].
        apply consistent_start in Hconsistent'.
        eapply consistent_perm; [| exact Hconsistent'].
        rewrite !map_app. cbn [map].
        change (done (work_item worker, outcome))
          with (work_item worker, Done outcome).
        solve_Permutation.
  - (* the task goes on *)
    cbn [fst snd]. split; [| exact Hlog].
    exists (before ++ (work_item worker, Working ph') :: after)%list.
    cbn [workers work_queue finished]. split.
    + rewrite insert_take_drop by exact Hlt.
      apply Forall2_app; [exact Hbefore |].
      constructor; [| exact Hafter].
      split; [reflexivity |]. exists ph'. now split.
    + eapply consistent_perm; [| exact Hconsistent'].
      symmetry. apply perm_extract.
Qed.

(** Workers taking the tasks of a queue. *)
Lemma consistent_start_all (queue : list Task) (w : World)
    (rest : list (Task * Status)) :
  consistent E w0 fs w (map queued queue ++ rest) ->
  consistent E w0 fs w
    (map (fun item => (item, Working (Starting false))) queue ++ rest).
Proof.
  revert rest. induction queue as [|item queue IH]; intros rest H; [exact H |].
  cbn [map app] in *. apply consistent_start in H.
  apply (consistent_perm _ _
           (map queued queue ++ (item, Working (Starting false)) :: rest)%list)
    in H; [| solve_Permutation].
  apply IH in H. eapply consistent_perm; [| exact H]. solve_Permutation.
Qed.

(** Threads left to themselves one after the other. *)
Lemma run_each_accounted (items : list (Task * Thread string))
    (pending rest : list (Task * Status)) (w : World) :
  Forall2 (follows E w0) items pending ->
  consistent E w0 fs w (pending ++ rest) ->
  exists outcomes w',
    run_each E items w = (inr outcomes, w')
    /\ consistent E w0 fs w' (map done outcomes ++ rest)
    /\ logged_errors w' = logged_errors w.
Proof.
  intros Hitems. revert rest w.
  induction Hitems as [| [item t] [item' st] items pending Hfollows _ IH];
    intros rest w Hconsistent.
  - exists [], w. now cbn.
  - destruct Hfollows as (Hitem & ph & Hst & Hobeys).
    cbn [fst snd work_item thread] in *. subst item' st.
    cbn [app] in Hconsistent.
    destruct (consistent_run _ _ _ _ _ Hobeys Hconsistent)
      as [Hconsistent' Hlog].
    cbn [run_each]. unfold bind at 1, attempt.
    destruct (run E t w) as [outcome w1]. cbn [fst snd] in *.
    apply (consistent_perm _ _
             (pending ++ (item, Done outcome) :: rest)%list)
      in Hconsistent'; [| solve_Permutation].
    destruct (IH _ _ Hconsistent') as (outcomes & w2 & Hrun & Hdone & Hlog').
    exists ((item, outcome) :: outcomes), w2. unfold bind.
    rewrite Hrun. cbn [ret]. split; [reflexivity |].
    split; [| now rewrite Hlog'].
    eapply consistent_perm; [| exact Hdone].
    cbn [map]. change (done (item, outcome)) with (item, Done outcome).
    solve_Permutation.
Qed.

(** The pool left to itself. *)
Lemma drain_accounted (pool : Pool) (completed : list (Task * (exn + string)))
    (w : World) :
  pool_accounted E w0 fs w pool completed ->
  exists rest w',
    drain E pool w = (inr rest, w')
    /\ consistent E w0 fs w' (map done (completed ++ rest))
    /\ logged_errors w' = logged_errors w.
Proof.
  intros (at_work & Htracked & Hconsistent).
  apply consistent_start_all in Hconsistent.
  apply (consistent_perm _ _
           ((at_work
             ++ map (fun item => (item, Working (Starting false)))
                  (work_queue pool))
            ++ map done (finished pool ++ completed))%list)
    in Hconsistent; [| solve_Permutation].
  assert (Forall2 (follows E w0)
            (map (fun worker => (work_item worker, thread worker))
               (workers pool)
             ++ map (fun item => (item, thread (start E 0 item)))
                  (work_queue pool))
            (at_work
             ++ map (fun item => (item, Working (Starting false)))
                  (work_queue pool))) as Hitems.
  { apply Forall2_app.
    - clear Hconsistent.
      induction Htracked as [| worker entry ? ? Hhead _ IH];
        constructor; [| exact IH].
      exact Hhead.
    - clear. induction (work_queue pool) as [| item queue IH];
        constructor; [| exact IH].
      split; [reflexivity |]. exists (Starting false).
      split; [reflexivity |]. apply download_image_obeys. }
  destruct (run_each_accounted _ _ _ _ Hitems Hconsistent)
    as (outcomes & w' & Hrun & Hdone & Hlog).
  exists (finished pool ++ outcomes)%list, w'. unfold drain, bind.
  rewrite Hrun. cbn [ret]. split; [reflexivity |]. split; [| exact Hlog].
  eapply consistent_perm; [| exact Hdone].
  rewrite !map_app. solve_Permutation.
Qed.

(** The manager's loop while the pool is at work. *)
Lemma as_completed_accounted (turns : list Turn) (pool : Pool)
    (completed : list (Task * (exn + string))) (error_count : Z) (w : World) :
  pool_accounted E w0 fs w pool completed ->
  exists added w',
    as_completed E turns pool completed error_count w
    = (inr ((completed ++ added)%list,
            error_count + Z.of_nat (length (failures added))), w')
    /\ consistent E w0 fs w' (map done (completed ++ added))
    /\ logged_errors w' = (rev (failures added) ++ logged_errors w)%list.
Proof.
  revert pool completed error_count w.
  induction turns as [| [k | j] turns IH];
    intros pool completed error_count w Hpool.
  - (* the schedule is used up *)
    destruct (drain_accounted _ _ _ Hpool)
      as (rest & w1 & Hdrain & Hdone & Hlog).
    exists rest, (log_errors (failures rest) w1).
    cbn [as_completed]. unfold bind at 1. rewrite Hdrain.
    unfold bind. rewrite count_errors_spec. cbn [ret].
    split; [reflexivity |].
    split; [now apply consistent_log_errors |].
    now rewrite logged_errors_log_errors, Hlog.
  - (* a worker *)
    cbn [as_completed].
    destruct (worker_turn_accounted k pool completed w Hpool)
      as [Hpool' Hlog].
    destruct (worker_turn E k pool w) as [pool' w1]. cbn [fst snd] in *.
    destruct (IH pool' completed error_count w1 Hpool')
      as (added & w' & Hrun & Hdone & Hlog').
    exists added, w'. split; [exact Hrun |]. split; [exact Hdone |].
    now rewrite Hlog', Hlog.
  - (* the loop *)
    cbn [as_completed].
    destruct (finished pool !! j) as [f |] eqn:Hj; [| now apply IH].
    unfold bind at 1. rewrite count_errors_spec.
    set (w1 := log_errors (failures [f]) w).
    set (pool' := mkPool (work_queue pool) (workers pool)
                    (delete j (finished pool))).
    assert (pool_accounted E w0 fs w1 pool' (completed ++ [f])) as Hpool'.
    { destruct Hpool as (at_work & Htracked & Hconsistent).
      exists at_work. split; [exact Htracked |].
      apply consistent_log_errors.
      eapply consistent_perm; [| exact Hconsistent].
      cbn [work_queue workers finished pool'].
      rewrite (delete_Permutation _ _ _ Hj) at 1.
      rewrite !map_app. cbn [map]. solve_Permutation. }
    destruct (IH pool' (completed ++ [f])%list
                (error_count + Z.of_nat (length (failures [f]))) w1 Hpool')
      as (added & w' & Hrun & Hdone & Hlog).
    exists (f :: added), w'.
    rewrite <- !app_assoc in Hrun, Hdone. cbn [app] in Hrun, Hdone.
    split.
    + rewrite Hrun. do 3 f_equal.
      change (f :: added) with ([f] ++ added)%list.
      rewrite failures_app, length_app. lia.
    + split; [exact Hdone |].
      rewrite Hlog. unfold w1. rewrite logged_errors_log_errors.
      change (f :: added) with ([f] ++ added)%list.
      now rewrite failures_app, rev_app_distr, <- app_assoc.
Qed.

(** The pool shut down while no one collects. *)
Lemma shutdown_accounted (turns : list Turn) (pool : Pool) (w : World) :
  pool_accounted E w0 fs w pool [] ->
  exists outcomes w',
    shutdown E turns pool w = (inr tt, w')
    /\ consistent E w0 fs w' (map done outcomes)
    /\ logged_errors w' = logged_errors w.
Proof.
  revert pool w. induction turns as [| [k | j] turns IH]; intros pool w Hpool.
  - destruct (drain_accounted _ _ _ Hpool)
      as (rest & w' & Hdrain & Hdone & Hlog).
    exists rest, w'. cbn [shutdown]. unfold bind. rewrite Hdrain.
    cbn [ret]. auto.
  - cbn [shutdown].
    destruct (worker_turn_accounted k pool [] w Hpool) as [Hpool' Hlog].
    destruct (worker_turn E k pool w) as [pool' w1]. cbn [fst snd] in *.
    destruct (IH pool' w1 Hpool') as (outcomes & w' & Hrun & Hdone & Hlog').
    exists outcomes, w'. split; [exact Hrun |]. split; [exact Hdone |].
    now rewrite Hlog'.
  - cbn [shutdown]. now apply IH.
Qed.

End PoolAccount.

(** ** The account at the start and at the end of a run *)

Lemma queued_counts (f : Status -> bool) (fs : list Task) :
  f Queued = true -> count f (map queued fs) = length fs.
Proof.
  intros Hf. unfold count.
  induction fs as [| item fs IH]; cbn; [reflexivity |].
  cbn in IH. now rewrite Hf, IH.
Qed.

Lemma queued_owed (fs : list Task) :
  owed_requests (map queued fs) = map fst fs.
Proof.
  unfold owed_requests.
  induction fs as [| item fs IH]; cbn; [reflexivity |]. now rewrite IH.
Qed.

Lemma queued_tasks (fs : list Task) : map fst (map queued fs) = fs.
Proof. induction fs as [| item fs IH]; cbn; [reflexivity |]. now rewrite IH. Qed.

Lemma done_tasks (completed : list (Task * (exn + string))) :
  map fst (map done completed) = map fst completed.
Proof.
  induction completed as [| f completed IH]; cbn; [reflexivity |].
  now rewrite IH.
Qed.

Lemma done_counts (completed : list (Task * (exn + string))) :
  owed_requests (map done completed) = []
  /\ count owes_session (map done completed) = 0%nat
  /\ count may_open (map done completed) = 0%nat
  /\ count holds_file (map done completed) = successes completed.
Proof.
  unfold owed_requests, count.
  induction completed as [| [item [e | name]] completed IH]; cbn;
    [now repeat split | |];
    destruct IH as (-> & -> & -> & ->); now repeat split.
Qed.

Section RunAccount.
Variable E : Env.

Lemma started_tracked (w0 : World) (g : nat -> nat) (items : list Task) :
  Forall2 (tracked E w0) (imap (fun i => start E (g i)) items)
    (map (fun item => (item, Working (Starting false))) items).
Proof.
  revert g. induction items as [| item items IH]; intros g; [constructor |].
  rewrite imap_cons. cbn [map]. constructor; [| apply (IH (g ∘ S))].
  split; [reflexivity |]. exists (Starting false).
  split; [reflexivity |]. apply download_image_obeys.
Qed.

(** Before the first turn: every task submitted, none begun. *)
Lemma submit_accounted (executor : Z) (fs : list Task) (w : World) :
  pool_accounted E w fs w (submit E executor fs) [].
Proof.
  set (n := Z.to_nat executor).
  exists (map (fun item => (item, Working (Starting false))) (take n fs)).
  unfold submit. fold n. cbn [workers work_queue finished app map].
  split; [apply (started_tracked w id) |].
  assert (consistent E w fs w (map queued fs)) as Hqueued.
  { split; [now rewrite queued_tasks |]. split.
    - clear. induction fs as [| item fs IH]; constructor; [exact I | exact IH].
    - unfold accounted.
      rewrite queued_owed, !queued_counts, queued_tasks, length_map
        by reflexivity.
      split; [apply Permutation_app_comm |].
      split; [now exists [] |].
      repeat split; auto; lia. }
  rewrite <- (take_drop n fs) in Hqueued at 2.
  rewrite map_app in Hqueued. apply consistent_start_all in Hqueued.
  eapply consistent_perm; [| exact Hqueued]. solve_Permutation.
Qed.

(** After the last turn: what the account says when every task is done. *)
Lemma consistent_done (w0 w : World) (fs : list Task)
    (completed : list (Task * (exn + string))) :
  consistent E w0 fs w (map done completed) ->
  Permutation (map fst completed) fs
  /\ Forall (fun f =>
               exists n,
                 (length (requests w0) <= n)%nat
                 /\ explained E w0 f.1.1 (http_get E n f.1.1) f.2)
       completed
  /\ (exists issued,
        requests w = (issued ++ requests w0)%list
        /\ Permutation issued (map fst fs))
  /\ next_id w = (next_id w0 + length fs)%nat
  /\ (size (files w) <= size (files w0) + length fs)%nat
  /\ (forall p, path_exists p w0 = true -> path_exists p w = true)
  /\ (streams_intact E ->
      (size (files w) <= size (files w0) + successes completed)%nat).
Proof.
  intros (Hfs & Hok & Hreq & [issued Hissued] & Hid & Hopen & Hpaths & Hheld).
  destruct (done_counts completed) as (Howed & Hsessions & Hmay & Hholds).
  rewrite Howed, app_nil_r in Hreq. rewrite Hsessions in Hid.
  rewrite Hmay in Hopen. rewrite Hholds in Hheld.
  rewrite done_tasks in Hfs.
  pose proof (Permutation_length Hfs) as Hlen.
  rewrite !length_map in *.
  split; [exact Hfs |]. split.
  { clear -Hok. induction completed as [| f completed IH]; [constructor |].
    cbn [map] in Hok. apply Forall_cons in Hok as [Hf Hok].
    constructor; [exact Hf | now apply IH]. }
  split.
  { exists issued. split; [exact Hissued |].
    rewrite Hissued, done_tasks, Hfs in Hreq.
    now apply Permutation_app_inv_r in Hreq. }
  repeat split; auto; lia.
Qed.

End RunAccount.

(** ** [download_manager] *)

Section DownloadManager.
Variable E : Env.

(** Opening the input changes nothing. *)
Lemma open_url_file_world (url_file : UrlFile) (w : World) :
  (open_url_file E url_file w).2 = w.
Proof.
  destruct url_file as [f | name]; [reflexivity |].
  unfold open_url_file, bind, open_read.
  now destruct (files w !! name) as [[|content]|].
Qed.

Lemma length_tasks_of (lines : list string) (out_dir : string) :
  length (tasks_of lines out_dir) = length (non_blank lines).
Proof. unfold tasks_of, read_urls, non_blank. now rewrite !length_map. Qed.

Lemma urls_tasks_of (lines : list string) (out_dir : string) :
  map fst (tasks_of lines out_dir) = read_urls lines.
Proof. unfold tasks_of. rewrite map_map. cbn [fst]. apply map_id. Qed.

(** The executor is created for every pool size but those that are not
    positive. *)
Lemma executor_created (max_workers : option Z) (w : World) :
  (forall n, max_workers = Some n -> 0 < n) ->
  exists executor,
    ThreadPoolExecutor E
      match max_workers with
      | None => if python_major E <? 3 then Some 10 else None
      | Some n => Some n
      end w = (inr executor, w).
Proof.
  intros Hworkers. destruct max_workers as [n |]; cbn [ThreadPoolExecutor].
  - specialize (Hworkers n eq_refl).
    exists n. destruct (Z.leb_spec n 0); [lia | reflexivity].
  - destruct (python_major E <? 3); eexists; reflexivity.
Qed.

(** A run that passes the checks, on an input that reads to its end. *)
Lemma download_manager_run (url_file : UrlFile) (out_dir : string)
    (max_workers : option Z) (w : World) (lines : list string) :
  (open_url_file E url_file w).1 = inr (mkTextFile lines None) ->
  path_isdir out_dir w = true ->
  (forall n, max_workers = Some n -> 0 < n) ->
  exists executor completed w',
    as_completed E (schedule E) (submit E executor (tasks_of lines out_dir))
      [] 0 w
    = (inr (completed, Z.of_nat (length (failures completed))), w')
    /\ consistent E w (tasks_of lines out_dir) w' (map done completed)
    /\ logged_errors w' = (rev (failures completed) ++ logged_errors w)%list
    /\ download_manager E url_file out_dir max_workers w
       = (inr (mkDownloadStats
                 (Z.of_nat (length (tasks_of lines out_dir))
                  - Z.of_nat (length (failures completed)))
                 (Z.of_nat (length (failures completed)))
                 (Z.of_nat (length (tasks_of lines out_dir)))),
          w').
Proof.
  intros Hopen Hdir Hworkers.
  destruct (executor_created max_workers w Hworkers) as [executor Hexecutor].
  destruct (as_completed_accounted E w (tasks_of lines out_dir) (schedule E)
              (submit E executor (tasks_of lines out_dir)) [] 0 w
              (submit_accounted E executor _ w))
    as (completed & w' & Hrun & Hdone & Hlog).
  cbn [app] in Hrun, Hdone. rewrite Z.add_0_l in Hrun.
  exists executor, completed, w'.
  split; [exact Hrun |]. split; [exact Hdone |]. split; [exact Hlog |].
  unfold download_manager. unfold bind at 1.
  pose proof (open_url_file_world url_file w) as Hsame.
  destruct (open_url_file E url_file w) as [r w0].
  cbn [fst snd] in Hopen, Hsame. subst r w0.
  unfold bind at 1. rewrite Hdir. cbn [negb ret].
  unfold bind at 1. rewrite Hexecutor. cbn [read_error file_lines].
  fold (tasks_of lines out_dir). unfold bind. rewrite Hrun. reflexivity.
Qed.

(** A run that passes the checks, on an input whose reading raises. *)
Lemma download_manager_interrupted (url_file : UrlFile) (out_dir : string)
    (max_workers : option Z) (w : World) (f : TextFile) (error : exn) :
  (open_url_file E url_file w).1 = inr f ->
  read_error f = Some error ->
  path_isdir out_dir w = true ->
  (forall n, max_workers = Some n -> 0 < n) ->
  exists outcomes w',
    consistent E w (tasks_of (file_lines f) out_dir) w' (map done outcomes)
    /\ logged_errors w' = logged_errors w
    /\ download_manager E url_file out_dir max_workers w = (inl error, w').
Proof.
  intros Hopen Herror Hdir Hworkers.
  destruct (executor_created max_workers w Hworkers) as [executor Hexecutor].
  destruct (shutdown_accounted E w (tasks_of (file_lines f) out_dir)
              (schedule E)
              (submit E executor (tasks_of (file_lines f) out_dir)) w
              (submit_accounted E executor _ w))
    as (outcomes & w' & Hrun & Hdone & Hlog).
  exists outcomes, w'. split; [exact Hdone |]. split; [exact Hlog |].
  unfold download_manager. unfold bind at 1.
  pose proof (open_url_file_world url_file w) as Hsame.
  destruct (open_url_file E url_file w) as [r w0].
  cbn [fst snd] in Hopen, Hsame. subst r w0.
  unfold bind at 1. rewrite Hdir. cbn [negb ret].
  unfold bind at 1. rewrite Hexecutor, Herror.
  fold (tasks_of (file_lines f) out_dir). unfold bind. now rewrite Hrun.
Qed.

(** The two configuration errors, for an input that opens. *)
Lemma download_manager_rejects_out_dir (url_file : UrlFile)
    (out_dir : string) (max_workers : option Z) (w : World) (f : TextFile) :
  (open_url_file E url_file w).1 = inr f ->
  path_isdir out_dir w = false ->
  download_manager E url_file out_dir max_workers w
  = (inl (ValueError ["Invalid output directory %r"; out_dir]), w).
Proof.
  intros Hopen Hdir. unfold download_manager. unfold bind at 1.
  pose proof (open_url_file_world url_file w) as Hsame.
  destruct (open_url_file E url_file w) as [r w0].
  cbn [fst snd] in Hopen, Hsame. subst r w0.
  unfold bind at 1. now rewrite Hdir.
Qed.

Lemma download_manager_rejects_workers (url_file : UrlFile)
    (out_dir : string) (w : World) (f : TextFile) (n : Z) :
  (open_url_file E url_file w).1 = inr f ->
  path_isdir out_dir w = true ->
  n <= 0 ->
  download_manager E url_file out_dir (Some n) w
  = (inl (ValueError ["max_workers must be greater than 0"]), w).
Proof.
  intros Hopen Hdir Hn. unfold download_manager. unfold bind at 1.
  pose proof (open_url_file_world url_file w) as Hsame.
  destruct (open_url_file E url_file w) as [r w0].
  cbn [fst snd] in Hopen, Hsame. subst r w0.
  unfold bind at 1. rewrite Hdir. cbn [negb ret].
  unfold bind at 1. cbn [ThreadPoolExecutor].
  destruct (Z.leb_spec n 0); [reflexivity | lia].
Qed.

Lemma download_manager_open_error (url_file : UrlFile)
    (out_dir : string) (max_workers : option Z) (w : World) (e : exn) :
  (open_url_file E url_file w).1 = inl e ->
  download_manager E url_file out_dir max_workers w = (inl e, w).
Proof.
  intros Hopen. unfold download_manager. unfold bind at 1.
  pose proof (open_url_file_world url_file w) as Hsame.
  destruct (open_url_file E url_file w) as [r w0].
  cbn [fst snd] in Hopen, Hsame. now subst r w0.
Qed.

(** Every case of [download_manager]: what it needs to return, and how it
    raises otherwise. *)
Lemma download_manager_outcome (url_file : UrlFile) (out_dir : string)
    (max_workers : option Z) (w : World) :
  let run := download_manager E url_file out_dir max_workers w in
  match (open_url_file E url_file w).1 with
  | inl e => run = (inl e, w)
  | inr f =>
      if path_isdir out_dir w then
        match max_workers with
        | Some n =>
            if n <=? 0
            then run = (inl (ValueError ["max_workers must be greater than 0"]), w)
            else match read_error f with
                 | Some error => run.1 = inl error
                 | None => exists stats, run.1 = inr stats
                 end
        | None =>
            match read_error f with
            | Some error => run.1 = inl error
            | None => exists stats, run.1 = inr stats
            end
        end
      else run = (inl (ValueError ["Invalid output directory %r"; out_dir]), w)
  end.
Proof.
  cbv zeta.
  destruct (open_url_file E url_file w).1 as [e | f] eqn:Hopen;
    [now apply download_manager_open_error |].
  destruct (path_isdir out_dir w) eqn:Hdir;
    [| now apply (download_manager_rejects_out_dir _ _ _ _ f)].
  assert ((forall n, max_workers = Some n -> 0 < n) ->
          match read_error f with
          | Some error =>
              (download_manager E url_file out_dir max_workers w).1 = inl error
          | None =>
              exists stats,
                (download_manager E url_file out_dir max_workers w).1
                = inr stats
          end) as Hruns.
  { intros Hworkers. destruct f as [lines [error |]]; cbn [read_error].
    - destruct (download_manager_interrupted url_file out_dir max_workers w
                  (mkTextFile lines (Some error)) error Hopen eq_refl Hdir
                  Hworkers) as (outcomes & w' & _ & _ & ->).
      reflexivity.
    - destruct (download_manager_run url_file out_dir max_workers w lines
                  Hopen Hdir Hworkers) as (executor & completed & w' & _ & _
                                           & _ & ->).
      eauto. }
  destruct max_workers as [n |].
  - destruct (Z.leb_spec n 0) as [Hn | Hn].
    + now apply (download_manager_rejects_workers _ _ _ f).
    + apply Hruns. intros ? [= <-]. exact Hn.
  - apply Hruns. discriminate.
Qed.

(** A run that returns statistics passed the checks and read its input to
    the end. *)
Lemma download_manager_returned (url_file : UrlFile) (out_dir : string)
    (max_workers : option Z) (w w' : World) (stats : DownloadStats) :
  download_manager E url_file out_dir max_workers w = (inr stats, w') ->
  (exists lines, (open_url_file E url_file w).1 = inr (mkTextFile lines None))
  /\ path_isdir out_dir w = true
  /\ (forall n, max_workers = Some n -> 0 < n).
Proof.
  intros Hrun.
  pose proof (download_manager_outcome url_file out_dir max_workers w) as H.
  cbv zeta in H. rewrite Hrun in H. cbn [fst] in H.
  destruct (open_url_file E url_file w).1 as [e | [lines failure]];
    [discriminate |].
  destruct (path_isdir out_dir w); [| discriminate].
  cbn [read_error] in H.
  destruct max_workers as [n |].
  - destruct (Z.leb_spec n 0); [discriminate |].
    destruct failure; [discriminate |].
    split; [eauto |]. split; [reflexivity |]. now intros ? [= <-].
  - destruct failure; [discriminate |].
    split; [eauto |]. split; [reflexivity |]. discriminate.
Qed.

End DownloadManager.

(** ** The outcome of a task and [download_image] *)

Section Settled.
Variable E : Env.

(** What [get_filename] returns does not depend on the world. *)
Lemma get_filename_result (response : Response) (expected_extension : string)
    (w w' : World) :
  (get_filename E response expected_extension w).1
  = (get_filename E response expected_extension w').1.
Proof.
  unfold get_filename, bind, attempt, lift_result.
  destruct (parse_requests_response E response) as [error | cd];
    [| reflexivity].
  cbn. now destruct (unquote_unreserved E (url response)).
Qed.

(** When the answer settles the outcome, the outcome it calls for is the
    exception [download_image] raises on that answer, in whatever world it
    gets it. *)
Lemma download_image_settled (tid : nat) (u out_dir : string) (w w1 : World)
    (outcome : exn + string) :
  settled_early E w (http_get E (length (requests w1)) u) = true ->
  explained E w u (http_get E (length (requests w1)) u) outcome ->
  outcome = (download_image E tid u out_dir w1).1.
Proof.
  unfold settled_early, explained, is_image, status_ok, download_image.
  unfold bind at 1, logger_debug. unfold bind at 1. rewrite get_session_run.
  unfold bind at 1, session_get. cbn [requests add_log bump_id length].
  destruct (http_get E (length (requests w1)) u) as [e | response];
    [now intros _ -> |].
  unfold bind at 1, raise_for_status.
  destruct ((400 <=? status_code response) && (status_code response <? 600));
    cbn [negb andb orb]; [now intros _ -> |].
  cbn [ret]. fold (declared_content_type response).
  pose proof (eq_refl (media_type response)) as Hmedia.
  pose proof (eq_refl (subtype response)) as Hsub.
  unfold media_type at 2 in Hmedia. unfold subtype at 2 in Hsub.
  destruct (PyStr.partition "/" (declared_content_type response))
    as [[media sep] sub]. cbn [fst snd] in Hmedia, Hsub. subst media sub.
  destruct (negb (String.eqb (media_type response) "image")
            || PyStr.is_empty (subtype response));
    cbn [negb orb]; [now intros _ -> |].
  unfold bind at 1.
  rewrite (get_filename_result response (subtype response) w
             (add_request u
                (bump_id (add_log (LogMsg DEBUG "Requesting %r" [Str u]) w1)))).
  destruct (get_filename E response (subtype response) _) as [[e | name] w2];
    cbn [fst]; [now intros _ -> | discriminate].
Qed.

End Settled.

(** CLAIM C1: for every input and every output directory that exists, the
    statistics [download_manager] returns satisfy
    [success + failed = total]; [total] is the number of lines of the input
    that are not blank, [failed] the number of tasks whose outcome was an
    exception, and [success = total - failed], which is not negative. The
    outcomes are those of the tasks the pool ran, one for each task queued,
    whatever the order of the turns. Statistics are returned whenever the
    input opens and reads to its end and the pool size is accepted. *)
Theorem download_stats_invariant (E : Env) (url_file : UrlFile)
    (out_dir : string) (max_workers : option Z) (w : World) :
  path_isdir out_dir w = true ->
  (forall stats w',
     download_manager E url_file out_dir max_workers w = (inr stats, w') ->
     exists lines executor completed,
       (open_url_file E url_file w).1 = inr (mkTextFile lines None)
       /\ as_completed E (schedule E)
            (submit E executor (tasks_of lines out_dir)) [] 0 w
          = (inr (completed, failed stats), w')
       /\ Permutation (map fst completed) (tasks_of lines out_dir)
       /\ success stats + failed stats = total stats
       /\ total stats = Z.of_nat (length (non_blank lines))
       /\ failed stats = Z.of_nat (length (failures completed))
       /\ success stats = total stats - failed stats
       /\ 0 <= success stats)
  /\ (forall lines,
        (open_url_file E url_file w).1 = inr (mkTextFile lines None) ->
        (forall n, max_workers = Some n -> 0 < n) ->
        exists stats w',
          download_manager E url_file out_dir max_workers w = (inr stats, w')).
Proof.
  intros Hdir. split.
  - intros stats w' Hreturned.
    destruct (download_manager_returned E _ _ _ _ _ _ Hreturned)
      as ([lines Hopen] & _ & Hworkers).
    destruct (download_manager_run E _ _ _ _ _ Hopen Hdir Hworkers)
      as (executor & completed & w1 & Hrun & Hdone & _ & Hstats).
    rewrite Hstats in Hreturned. injection Hreturned as <- <-.
    exists lines, executor, completed. cbn [success failed total].
    destruct (consistent_done E _ _ _ _ Hdone) as (Hperm & _).
    pose proof (Permutation_length Hperm) as Hlen.
    rewrite length_map in Hlen.
    pose proof (length_failures completed).
    rewrite <- length_tasks_of with (out_dir := out_dir).
    repeat (split; [first [assumption | lia] |]). lia.
  - intros lines Hopen Hworkers.
    destruct (download_manager_run E _ _ _ _ _ Hopen Hdir Hworkers)
      as (executor & completed & w1 & _ & _ & _ & Hstats).
    eauto.
Qed.

(** CLAIM C2: when the input opens and reads to its end, the output
    directory exists and the pool size is accepted, [download_manager]
    returns statistics whatever the outcomes of the tasks are: no
    exception of a task reaches the caller, and every task queued has run
    to its end, whatever the order of the turns. The outcome of each task
    is the one the answer to its request calls for; when that answer
    settles it (the request raised, the status is an error, the response is
    no image, or no file name is found), the outcome is the very exception
    [download_image] raises on that answer, and otherwise it is the name
    returned or the error of the opening or of the copy. The exceptions
    among the outcomes are counted in [failed], and each is logged at level
    ERROR, in the order in which the loop got them. *)
Theorem download_manager_absorbs_task_errors (E : Env) (url_file : UrlFile)
    (out_dir : string) (max_workers : option Z) (w : World)
    (lines : list string) :
  (open_url_file E url_file w).1 = inr (mkTextFile lines None) ->
  path_isdir out_dir w = true ->
  (forall n, max_workers = Some n -> 0 < n) ->
  exists stats executor completed w',
    download_manager E url_file out_dir max_workers w = (inr stats, w')
    /\ as_completed E (schedule E)
         (submit E executor (tasks_of lines out_dir)) [] 0 w
       = (inr (completed, failed stats), w')
    /\ Permutation (map fst completed) (tasks_of lines out_dir)
    /\ total stats = Z.of_nat (length (tasks_of lines out_dir))
    /\ failed stats = Z.of_nat (length (failures completed))
    /\ logged_errors w' = (rev (failures completed) ++ logged_errors w)%list
    /\ Forall
         (fun f : Task * (exn + string) =>
            exists n,
              (length (requests w) <= n)%nat
              /\ explained E w f.1.1 (http_get E n f.1.1) f.2
              /\ forall tid w1,
                   length (requests w1) = n ->
                   settled_early E w (http_get E n f.1.1) = true ->
                   f.2 = (download_image E tid f.1.1 f.1.2 w1).1)
         completed.
Proof.
  intros Hopen Hdir Hworkers.
  destruct (download_manager_run E _ _ _ _ _ Hopen Hdir Hworkers)
    as (executor & completed & w' & Hrun & Hdone & Hlog & Hstats).
  destruct (consistent_done E _ _ _ _ Hdone) as (Hperm & Hexplained & _).
  eexists _, executor, completed, w'.
  split; [exact Hstats |]. split; [exact Hrun |]. split; [exact Hperm |].
  split; [reflexivity |]. split; [reflexivity |]. split; [exact Hlog |].
  eapply Forall_impl; [exact Hexplained |].
  intros [[u dir] outcome] (n & Hn & Hwhy). cbn [fst snd] in *.
  exists n. split; [exact Hn |]. split; [exact Hwhy |].
  intros tid w1 <- Hsettled.
  now apply (download_image_settled E tid u dir w w1).
Qed.

(** CLAIM C7 (as amended): an absent [max_workers] does not make
    [download_manager] fail: the run is the run with 10 workers on
    Python 2 and with the executor's own default otherwise, and so it
    returns statistics when the input reads to its end and the output
    directory exists. A [max_workers] that is not positive is handed to the
    executor as it is, which rejects it with a [ValueError] before any task
    is queued. *)
Theorem download_manager_workers (E : Env) (url_file : UrlFile)
    (out_dir : string) (w : World) (lines : list string) :
  (open_url_file E url_file w).1 = inr (mkTextFile lines None) ->
  path_isdir out_dir w = true ->
  (exists stats w',
     download_manager E url_file out_dir None w = (inr stats, w')
     /\ total stats = Z.of_nat (length (non_blank lines)))
  /\ download_manager E url_file out_dir None w
     = download_manager E url_file out_dir
         (Some (if python_major E <? 3 then 10
                else Z.pos (default_workers E))) w
  /\ (forall n,
        n <= 0 ->
        download_manager E url_file out_dir (Some n) w
        = (inl (ValueError ["max_workers must be greater than 0"]), w)).
Proof.
  intros Hopen Hdir. split; [| split].
  - destruct (download_manager_run E url_file out_dir None w lines Hopen Hdir)
      as (executor & completed & w1 & _ & _ & _ & Hstats); [discriminate |].
    eexists _, _. split; [exact Hstats |].
    cbn [total]. now rewrite length_tasks_of.
  - unfold download_manager. now destruct (python_major E <? 3).
  - intros n Hn.
    now apply (download_manager_rejects_workers E _ _ _ (mkTextFile lines None)).
Qed.

(** CLAIM C9: when [out_dir] is not an existing directory,
    [download_manager] raises and leaves the world as it was: nothing is
    queued, no request is issued, no file is written and nothing is logged.
    The exception is the [ValueError] for the output directory whenever the
    input opens (it is the error of [open] otherwise). *)
Theorem download_manager_checks_out_dir_first (E : Env) (url_file : UrlFile)
    (out_dir : string) (max_workers : option Z) (w : World) :
  path_isdir out_dir w = false ->
  exists e,
    download_manager E url_file out_dir max_workers w = (inl e, w)
    /\ ((exists f, (open_url_file E url_file w).1 = inr f) ->
        e = ValueError ["Invalid output directory %r"; out_dir])
    /\ (forall e', (open_url_file E url_file w).1 = inl e' -> e = e').
Proof.
  intros Hdir.
  destruct (open_url_file E url_file w).1 as [e | f] eqn:Hopen.
  - exists e. split; [now apply download_manager_open_error |]. split.
    + intros [f [=]].
    + now intros e' [= <-].
  - eexists. split; [now apply (download_manager_rejects_out_dir E _ _ _ _ f) |].
    split; [reflexivity |]. intros e' [=].
Qed.

(** ** The run of [test_download_manager] *)

Module MockRun.

Lemma two_workers (n : Z) : Some 2 = Some n -> 0 < n.
Proof. intros [= <-]. lia. Qed.

(** Five lines are not blank: the statistics add up to five. *)
Lemma stats_add_up :
  exists stats w',
    download_manager Mock.jpg_env (FileObj (StringIO Mock.url_list)) "tmpdir"
      (Some 2) Mock.tmpdir
    = (inr stats, w')
    /\ success stats + failed stats = total stats
    /\ total stats = 5
    /\ 0 <= success stats.
Proof.
  destruct (download_stats_invariant Mock.jpg_env
              (FileObj (StringIO Mock.url_list)) "tmpdir"
              (Some 2) Mock.tmpdir eq_refl)
    as [Hinvariant Hreturns].
  destruct (Hreturns Mock.url_list eq_refl two_workers)
    as (stats & w' & Hrun).
  destruct (Hinvariant stats w' Hrun)
    as (lines & executor & completed & Hopen & _ & _ & Hsum & Htotal & _ & _
        & Hpos).
  injection Hopen as <-.
  exists stats, w'. repeat (split; [assumption |]). assumption.
Defined.

(** Two of the five tasks fail with a 404: the run returns all the same,
    with the two failures counted and logged, and each outcome is the one
    its answer calls for. *)
Lemma failures_absorbed :
  exists stats executor completed w',
    download_manager Mock.jpg_env (FileObj (StringIO Mock.url_list)) "tmpdir"
      (Some 2) Mock.tmpdir
    = (inr stats, w')
    /\ as_completed Mock.jpg_env (schedule Mock.jpg_env)
         (submit Mock.jpg_env executor (tasks_of Mock.url_list "tmpdir")) [] 0
         Mock.tmpdir
       = (inr (completed, failed stats), w')
    /\ Permutation (map fst completed) (tasks_of Mock.url_list "tmpdir")
    /\ total stats = Z.of_nat (length (tasks_of Mock.url_list "tmpdir"))
    /\ failed stats = Z.of_nat (length (failures completed))
    /\ logged_errors w'
       = (rev (failures completed) ++ logged_errors Mock.tmpdir)%list
    /\ Forall
         (fun f : Task * (exn + string) =>
            exists n,
              (length (requests Mock.tmpdir) <= n)%nat
              /\ explained Mock.jpg_env Mock.tmpdir f.1.1
                   (http_get Mock.jpg_env n f.1.1) f.2
              /\ forall tid w1,
                   length (requests w1) = n ->
                   settled_early Mock.jpg_env Mock.tmpdir
                     (http_get Mock.jpg_env n f.1.1) = true ->
                   f.2 = (download_image Mock.jpg_env tid f.1.1 f.1.2 w1).1)
         completed.
Proof.
  exact (download_manager_absorbs_task_errors Mock.jpg_env
           (FileObj (StringIO Mock.url_list))
           "tmpdir" (Some 2) Mock.tmpdir Mock.url_list
           eq_refl eq_refl two_workers).
Defined.

(** The figures the test expects, and the errors logged. *)
Example stats_3_2_5 :
  let run :=
    download_manager Mock.jpg_env (FileObj (StringIO Mock.url_list)) "tmpdir"
      (Some 2) Mock.tmpdir in
  run.1 = inr (mkDownloadStats 3 2 5)
  /\ logged_errors run.2 = [HTTPError 404; HTTPError 404].
Proof. cbv zeta. split; vm_compute; reflexivity. Qed.

(** The size of the pool shows: two tasks for one URL, and turns in which
    the second worker looks for its file name before the first has opened
    its file. With two workers both write to [foobar.jpg]; with one worker
    the turns of the second are void, and there are two files. *)
Example pool_size_matters :
  let run (n : Z) :=
    download_manager MockCli.racing (FileObj (StringIO MockCli.twice))
      "tmpdir" (Some n) Mock.tmpdir in
  (run 2).1 = inr (mkDownloadStats 2 0 2)
  /\ size (files (run 2).2) = 2%nat
  /\ path_exists "tmpdir/foobar_1.jpg" (run 2).2 = false
  /\ (run 1).1 = inr (mkDownloadStats 2 0 2)
  /\ size (files (run 1).2) = 3%nat
  /\ path_exists "tmpdir/foobar_1.jpg" (run 1).2 = true.
Proof. cbv zeta. repeat split; vm_compute; reflexivity. Qed.

(** Without [max_workers] the run is that with five workers; zero workers
    are refused. *)
Lemma default_workers_accepted :
  (exists stats w',
     download_manager Mock.jpg_env (FileObj (StringIO Mock.url_list)) "tmpdir"
       None Mock.tmpdir
     = (inr stats, w')
     /\ total stats = Z.of_nat (length (non_blank Mock.url_list)))
  /\ download_manager Mock.jpg_env (FileObj (StringIO Mock.url_list)) "tmpdir"
       None Mock.tmpdir
     = download_manager Mock.jpg_env (FileObj (StringIO Mock.url_list))
         "tmpdir" (Some 5) Mock.tmpdir
  /\ (forall n,
        n <= 0 ->
        download_manager Mock.jpg_env (FileObj (StringIO Mock.url_list))
          "tmpdir" (Some n) Mock.tmpdir
        = (inl (ValueError ["max_workers must be greater than 0"]),
           Mock.tmpdir)).
Proof.
  exact (download_manager_workers Mock.jpg_env
           (FileObj (StringIO Mock.url_list)) "tmpdir"
           Mock.tmpdir Mock.url_list eq_refl eq_refl).
Defined.

(** CLAIM C7 (counterexample): [max_workers = 0], and likewise [-1], with
    a valid input and output directory. [download_manager] raises the
    [ValueError] of the executor; no task is queued and no request is
    issued. *)
Lemma zero_workers_rejected :
  let run (n : Z) :=
    download_manager Mock.jpg_env (FileObj (StringIO Mock.url_list)) "tmpdir"
      (Some n) Mock.tmpdir in
  path_isdir "tmpdir" Mock.tmpdir = true
  /\ run 0
     = (inl (ValueError ["max_workers must be greater than 0"]), Mock.tmpdir)
  /\ run (-1)
     = (inl (ValueError ["max_workers must be greater than 0"]), Mock.tmpdir)
  /\ requests (run 0).2 = [].
Proof. cbv zeta. repeat split. Qed.

(** A directory that does not exist: nothing happens but the exception. *)
Lemma missing_out_dir :
  exists e,
    download_manager Mock.jpg_env (FileObj (StringIO Mock.url_list)) "nodir"
      (Some 2) Mock.tmpdir
    = (inl e, Mock.tmpdir)
    /\ ((exists f,
           (open_url_file Mock.jpg_env (FileObj (StringIO Mock.url_list))
              Mock.tmpdir).1 = inr f) ->
        e = ValueError ["Invalid output directory %r"; "nodir"])
    /\ (forall e',
          (open_url_file Mock.jpg_env (FileObj (StringIO Mock.url_list))
             Mock.tmpdir).1 = inl e' ->
          e = e').
Proof.
  exact (download_manager_checks_out_dir_first Mock.jpg_env
           (FileObj (StringIO Mock.url_list))
           "nodir" (Some 2) Mock.tmpdir eq_refl).
Defined.

End MockRun.

(** * Further properties of the script *)

(** ** [rename_if_exists]: the path returned *)

Section RenameFresh.
Variable file_path : string.
Variable w : World.

(** The loop leaves by [break] on a free path, and runs out only when all
    its candidates are taken. *)
Lemma rename_loop_result (indices : list Z) (current r : string) (broke : bool) :
  rename_loop file_path w indices current = (r, broke) ->
  if broke then path_exists r w = false
  else (forall j, In j indices -> path_exists (candidate file_path j) w = true)
       /\ r = List.last (map (candidate file_path) indices) current.
Proof.
  revert current. induction indices as [|i indices IH]; intros current.
  - cbn. intros [= <- <-]. now split.
  - cbn [rename_loop].
    destruct (path_exists (candidate file_path i) w) eqn:Hi; cbn [negb].
    + intros Hrun. specialize (IH _ Hrun). destruct broke; [exact IH |].
      destruct IH as [Hall ->]. split.
      * intros j [<- | Hj]; [exact Hi | now apply Hall].
      * destruct indices as [|i' indices]; [reflexivity |].
        cbn [map]. apply last_nonempty.
    + intros [= <- <-]. exact Hi.
Qed.

(** [rename_if_exists], case by case: a free path and no change, or the
    last candidate and a warning when every name is taken. *)
Lemma rename_if_exists_cases :
  exists r : string,
    (rename_if_exists file_path w = (inr r, w) /\ path_exists r w = false)
    \/ (rename_if_exists file_path w
        = (inr r, add_log (LogMsg WARNING "Failed to rename %r" [Str r]) w)
        /\ r = candidate file_path 9999
        /\ path_exists file_path w = true
        /\ forall j, 1 <= j <= 9999 ->
                     path_exists (candidate file_path j) w = true).
Proof.
  unfold rename_if_exists.
  destruct (path_exists file_path w) eqn:Htaken; cbn [negb].
  - destruct (rename_loop file_path w (range 1 10000) file_path)
      as [r broke] eqn:Hloop.
    exists r. pose proof (rename_loop_result _ _ _ _ Hloop) as Hr.
    destruct broke.
    + left. now split.
    + right. destruct Hr as [Hall ->].
      assert (List.last (map (candidate file_path) (range 1 10000)) file_path
              = candidate file_path 9999) as ->.
      { rewrite (range_split 1 9999 10000) by lia.
        change (range (9999 + 1) 10000) with (@nil Z).
        rewrite map_app. cbn [map]. now rewrite List.last_last. }
      split; [reflexivity |]. split; [reflexivity |]. split; [reflexivity |].
      intros j Hj. apply Hall, in_range. lia.
  - exists file_path. left. now split.
Qed.

(** PROPERTY X1: the path [rename_if_exists] returns does not exist, unless
    the path given and all its 9999 candidates exist; only then is a
    warning logged, and the path returned is the last candidate. Nothing
    but the log is changed, and resolving the returned free path again
    returns it as it is. *)
Theorem rename_if_exists_fresh :
  exists r : string,
    (rename_if_exists file_path w).1 = inr r
    /\ files (rename_if_exists file_path w).2 = files w
    /\ requests (rename_if_exists file_path w).2 = requests w
    /\ closed (rename_if_exists file_path w).2 = closed w
    /\ ((path_exists r w = false
         /\ log (rename_if_exists file_path w).2 = log w
         /\ rename_if_exists r w = (inr r, w))
        \/ (path_exists r w = true
            /\ log (rename_if_exists file_path w).2
               = LogMsg WARNING "Failed to rename %r" [Str r] :: log w
            /\ r = candidate file_path 9999
            /\ path_exists file_path w = true
            /\ forall j, 1 <= j <= 9999 ->
                         path_exists (candidate file_path j) w = true)).
Proof.
  destruct rename_if_exists_cases
    as [r [[Hrun Hfree] | (Hrun & Hlast & Htaken & Hall)]];
    exists r; rewrite Hrun; cbn [fst snd];
    (split; [reflexivity |]); (split; [reflexivity |]);
    (split; [reflexivity |]); (split; [reflexivity |]).
  - left. split; [exact Hfree |]. split; [reflexivity |].
    unfold rename_if_exists. now rewrite Hfree.
  - right. split.
    + rewrite Hlast. apply Hall. lia.
    + auto.
Qed.

End RenameFresh.

(** [path_exists] and [rename_if_exists] look at the files only. *)
Lemma path_exists_files (p : string) (w1 w2 : World) :
  files w1 = files w2 -> path_exists p w1 = path_exists p w2.
Proof. unfold path_exists. now intros ->. Qed.

Lemma rename_loop_files (orig : string) (w1 w2 : World) (indices : list Z)
    (current : string) :
  files w1 = files w2 ->
  rename_loop orig w1 indices current = rename_loop orig w2 indices current.
Proof.
  intros Hfiles. revert current.
  induction indices as [|i indices IH]; intros current; [reflexivity |].
  cbn [rename_loop]. rewrite (path_exists_files _ w1 w2 Hfiles).
  now rewrite IH.
Qed.

Lemma rename_if_exists_files (p : string) (w1 w2 : World) :
  files w1 = files w2 ->
  (rename_if_exists p w1).1 = (rename_if_exists p w2).1.
Proof.
  intros Hfiles. unfold rename_if_exists.
  rewrite (path_exists_files _ w1 w2 Hfiles),
    (rename_loop_files _ w1 w2 _ _ Hfiles).
  destruct (negb _); [reflexivity |].
  now destruct (rename_loop _ _ _ _) as [r [|]].
Qed.

(** ** [get_filename]: effect and fall-back *)

Lemma has_char_app (c : ascii) (a b : string) :
  PyStr.has_char c (a +:+ b) = PyStr.has_char c a || PyStr.has_char c b.
Proof.
  induction a as [|x a IH]; [reflexivity |].
  rewrite PyStrFacts.app_cons. cbn [PyStr.has_char].
  now rewrite IH, orb_assoc.
Qed.

Lemma rsplit1_last_no_sep (sep : ascii) (s : string) :
  PyStr.has_char sep (PyStr.rsplit1_last sep s) = false.
Proof.
  unfold PyStr.rsplit1_last.
  pose proof (PyStrFacts.rpartition_spec sep s) as H.
  destruct (PyStr.rpartition sep s) as [[a m] b]. now destruct H as (_ & H & _).
Qed.

Lemma rsplit1_last_trailing (sep : ascii) (s : string) :
  PyStr.endswith s (String sep "") = true -> PyStr.rsplit1_last sep s = "".
Proof.
  intros H. apply PyStrFacts.endswith_inv in H as [p ->].
  unfold PyStr.rsplit1_last. now rewrite PyStrFacts.rpartition_last.
Qed.

Section GetFilenameFallback.
Variable E : Env.

(** [get_filename] changes the log only, by one warning when the header
    does not parse. *)
Lemma get_filename_effect (response : Response) (expected_extension : string)
    (w : World) :
  let run := get_filename E response expected_extension w in
  match parse_requests_response E response with
  | inr _ => run.2 = w
  | inl error => run.2 = add_log (parse_warning response error) w
  end.
Proof.
  unfold get_filename, bind, attempt, lift_result.
  destruct (parse_requests_response E response) as [error | cd];
    [| reflexivity].
  cbn. now destruct (unquote_unreserved E (url response)).
Qed.

(** PROPERTY X2: when the content-disposition header does not parse,
    [get_filename] logs one warning and falls back on the URL: the name is
    what follows the last slash of the unquoted URL, or [file] when nothing
    follows it, with a dot and the expected extension appended. The name is
    never empty, its part before the extension holds no slash, and an error
    of the unquoting is raised as it is. *)
Theorem get_filename_fallback (response : Response)
    (expected_extension : string) (error : exn) (w : World) :
  parse_requests_response E response = inl error ->
  let w' := add_log (parse_warning response error) w in
  (forall unquoted,
     unquote_unreserved E (url response) = inr unquoted ->
     exists stem,
       get_filename E response expected_extension w
       = (inr (stem +:+ "." +:+ expected_extension), w')
       /\ stem <> ""
       /\ PyStr.has_char "/" stem = false
       /\ (stem = PyStr.rsplit1_last "/" unquoted
           \/ PyStr.rsplit1_last "/" unquoted = "" /\ stem = "file")
       /\ (PyStr.endswith unquoted "/" = true -> stem = "file"))
  /\ (forall e,
        unquote_unreserved E (url response) = inl e ->
        get_filename E response expected_extension w = (inl e, w')).
Proof.
  intros Hparse w'. split.
  - intros unquoted Hunquote.
    assert (forall stem,
              stem = (if PyStr.is_empty (PyStr.rsplit1_last "/" unquoted)
                      then "file" else PyStr.rsplit1_last "/" unquoted) ->
              get_filename E response expected_extension w
              = (inr (stem +:+ "." +:+ expected_extension), w')) as Hrun.
    { intros stem ->. unfold get_filename, bind, attempt, lift_result.
      rewrite Hparse. cbn. now rewrite Hunquote. }
    pose proof (rsplit1_last_no_sep "/" unquoted) as Hslash.
    destruct (PyStr.rsplit1_last "/" unquoted) as [|c base] eqn:Hbase.
    + exists "file". split; [now apply Hrun |]. split; [discriminate |].
      split; [reflexivity |]. split; [now right |]. reflexivity.
    + exists (String c base). split; [now apply Hrun |].
      split; [discriminate |]. split; [exact Hslash |]. split; [now left |].
      intros Hends. apply rsplit1_last_trailing in Hends. congruence.
  - intros e Hunquote. unfold get_filename, bind, attempt, lift_result.
    rewrite Hparse. cbn. now rewrite Hunquote.
Qed.

End GetFilenameFallback.

(** A URL that ends with a slash and one that does not, by the theorem. *)
Lemma get_filename_fallback_tests :
  let run (u : string) :=
    get_filename MockCli.unparsed
      (Mock.response 200 (Mock.content_type "image/jpeg") u) "jpeg"
      Mock.tmpdir in
  (exists w', run "http://abc.de/bla/" = (inr "file.jpeg", w'))
  /\ (exists w', run "http://abc.de/bla/foobar" = (inr "foobar.jpeg", w')).
Proof.
  intros run. unfold run. split.
  - destruct (proj1 (get_filename_fallback MockCli.unparsed
                       (Mock.response 200 (Mock.content_type "image/jpeg")
                          "http://abc.de/bla/")
                       "jpeg" (ParseError "content-disposition") Mock.tmpdir
                       eq_refl) "http://abc.de/bla/" eq_refl)
      as (stem & Hrun & _ & _ & _ & Hfile).
    rewrite (Hfile eq_refl) in Hrun. eexists. exact Hrun.
  - destruct (proj1 (get_filename_fallback MockCli.unparsed
                       (Mock.response 200 (Mock.content_type "image/jpeg")
                          "http://abc.de/bla/foobar")
                       "jpeg" (ParseError "content-disposition") Mock.tmpdir
                       eq_refl) "http://abc.de/bla/foobar" eq_refl)
      as (stem & Hrun & _ & _ & [-> | [Hempty _]] & _).
    + eexists. exact Hrun.
    + discriminate Hempty.
Defined.

(** ** [download_image]: every outcome *)

Lemma overwrite_empty (data : string) : overwrite data "" = data.
Proof. induction data as [| c data IH]; cbn; [reflexivity | now rewrite IH]. Qed.

Section DownloadImageEffect.
Variable E : Env.

(** The two steps of the saving, on a file [open] has just created or
    truncated. *)
Lemma copy_after_open (response : Response) (fp : string) (w : World) :
  copyfileobj response fp (set_files (<[fp := File ""]> (files w)) w)
  = (match raw_error response with Some e => inl e | None => inr tt end,
     set_files (<[fp := File (raw response)]> (files w)) w).
Proof.
  unfold copyfileobj. cbn [files set_files].
  rewrite lookup_insert_eq, overwrite_empty, insert_insert_eq.
  reflexivity.
Qed.

(** What a call of [download_image] does to the world, whatever its
    outcome: one session is allocated; either no file is touched, the call
    raises, and the response is closed only for the content-type error; or
    the file whose path [rename_if_exists] chose holds what the stream of
    the response delivered, the response is not closed, and the call
    returns the name unless the stream broke. *)
Lemma download_image_effect (tid : nat) (u out_dir : string) (w : World) :
  let run := download_image E tid u out_dir w in
  next_id run.2 = S (next_id w)
  /\ (rename_failures (log w) <= rename_failures (log run.2))%nat
  /\ ((exists e, run.1 = inl e)
      /\ files run.2 = files w
      /\ (closed run.2 = closed w
          \/ exists response,
               http_get E (length (requests w)) u = inr response
               /\ closed run.2 = url response :: closed w
               /\ run.1
                  = inl (ValueError
                           [invalid_image_type
                              (declared_content_type response) u]))
      \/ exists name response fp,
           run.1 = match raw_error response with
                   | Some e => inl e
                   | None => inr name
                   end
           /\ http_get E (length (requests w)) u = inr response
           /\ status_ok response = true
           /\ media_type response = "image"
           /\ subtype response <> ""
           /\ closed run.2 = closed w
           /\ (rename_if_exists (PosixPath.join out_dir name) w).1 = inr fp
           /\ files run.2 = <[fp := File (raw response)]> (files w)
           /\ rename_failures (log run.2)
              = (rename_failures (log w)
                 + (if path_exists fp w then 1 else 0))%nat).
Proof.
  intros run.
  assert (run = download_image E tid u out_dir w) as Hrun by reflexivity.
  clearbody run. unfold download_image in Hrun.
  unfold bind at 1, logger_debug in Hrun. unfold bind at 1 in Hrun.
  rewrite get_session_run in Hrun.
  unfold bind at 1, session_get in Hrun.
  cbn [requests add_log bump_id length] in Hrun.
  fold (started u w) in Hrun.
  destruct (http_get E (length (requests w)) u) as [e | response] eqn:Hget.
  { subst run. cbn. split; [reflexivity |]. split; [lia |]. left. eauto. }
  unfold bind at 1, raise_for_status in Hrun.
  destruct ((400 <=? status_code response) && (status_code response <? 600))
    eqn:Hstatus.
  { subst run. cbn. split; [reflexivity |]. split; [lia |]. left. eauto. }
  cbn [ret] in Hrun.
  fold (declared_content_type response) in Hrun.
  pose proof (eq_refl (media_type response)) as Hmedia.
  pose proof (eq_refl (subtype response)) as Hsub.
  unfold media_type at 2 in Hmedia. unfold subtype at 2 in Hsub.
  destruct (PyStr.partition "/" (declared_content_type response))
    as [[media sep] sub]. cbn [fst snd] in Hmedia, Hsub. subst media sub.
  destruct (negb (String.eqb (media_type response) "image")
            || PyStr.is_empty (subtype response)) eqn:Hct.
  { subst run. cbn. split; [reflexivity |]. split; [lia |]. left.
    split; [eauto |]. split; [reflexivity |]. right. exists response. auto. }
  apply orb_false_iff in Hct as [Hmedia Hsub].
  apply negb_false_iff, String.eqb_eq in Hmedia.
  assert (subtype response <> "") as Hsubtype
    by (intros Hempty; rewrite Hempty in Hsub; discriminate).
  assert (status_ok response = true) as Hok
    by (unfold status_ok; now rewrite Hstatus).
  unfold bind at 1 in Hrun.
  pose proof (get_filename_effect E response (subtype response) (started u w))
    as Hname. cbv zeta in Hname.
  destruct (get_filename E response (subtype response) (started u w))
    as [outcome w2]. cbn [snd] in Hname.
  assert (files w2 = files w /\ closed w2 = closed w
          /\ next_id w2 = S (next_id w)
          /\ rename_failures (log w2) = rename_failures (log w))
    as (Hf2 & Hc2 & Hi2 & Hr2)
    by (destruct (parse_requests_response E response); subst w2;
        repeat split).
  clear Hname.
  destruct outcome as [e | name].
  { subst run. cbn [fst snd]. split; [exact Hi2 |]. split; [lia |].
    left. eauto. }
  set (filename := sanitize_filename E name) in Hrun.
  unfold bind at 1 in Hrun.
  pose proof (rename_if_exists_files (PosixPath.join out_dir filename) w2 w Hf2)
    as Hsame.
  assert (forall fp w3,
            files w3 = files w -> closed w3 = closed w ->
            next_id w3 = S (next_id w) ->
            rename_failures (log w3)
            = (rename_failures (log w) + (if path_exists fp w then 1 else 0))%nat ->
            (rename_if_exists (PosixPath.join out_dir filename) w).1 = inr fp ->
            run
            = (let! _ := open_wb fp in
               let! _ := copyfileobj response fp in
               let! _ :=
                 logger_debug "Saved %r" [Str (PosixPath.basename fp)] in
               ret filename) w3 ->
            next_id run.2 = S (next_id w)
            /\ (rename_failures (log w) <= rename_failures (log run.2))%nat
            /\ ((exists e, run.1 = inl e)
                /\ files run.2 = files w
                /\ (closed run.2 = closed w
                    \/ exists response,
                         http_get E (length (requests w)) u = inr response
                         /\ closed run.2 = url response :: closed w
                         /\ run.1
                            = inl (ValueError
                                     [invalid_image_type
                                        (declared_content_type response) u]))
                \/ exists name response fp,
                     run.1 = match raw_error response with
                             | Some e => inl e
                             | None => inr name
                             end
                     /\ http_get E (length (requests w)) u = inr response
                     /\ status_ok response = true
                     /\ media_type response = "image"
                     /\ subtype response <> ""
                     /\ closed run.2 = closed w
                     /\ (rename_if_exists (PosixPath.join out_dir name) w).1
                        = inr fp
                     /\ files run.2 = <[fp := File (raw response)]> (files w)
                     /\ rename_failures (log run.2)
                        = (rename_failures (log w)
                           + (if path_exists fp w then 1 else 0))%nat))
    as Hsave.
  { intros fp w3 Hf3 Hc3 Hi3 Hr3 Hfp Hrun3. clear Hrun.
    assert (rename_failures (log w) <= rename_failures (log w3))%nat
      by (rewrite Hr3; lia).
    unfold bind at 1, open_wb in Hrun3.
    destruct (path_isdir fp w3
              || negb (PyStr.is_empty (PosixPath.dirname fp)
                       || path_isdir (PosixPath.dirname fp) w3)).
    { subst run. cbn [fst snd]. split; [exact Hi3 |]. split; [lia |].
      left. eauto. }
    unfold bind at 1 in Hrun3. rewrite copy_after_open in Hrun3.
    assert (run
            = (match raw_error response with
               | Some e => inl e
               | None => inr filename
               end,
               run.2)
            /\ files run.2 = <[fp := File (raw response)]> (files w)
            /\ closed run.2 = closed w
            /\ next_id run.2 = S (next_id w)
            /\ rename_failures (log run.2) = rename_failures (log w3))
      as (Hout & Hfiles & Hclosed & Hid & Hlog).
    { subst run. destruct (raw_error response); cbn; rewrite Hf3;
        now repeat split. }
    clear Hrun3. rewrite Hout. cbn [fst snd].
    split; [exact Hid |]. split; [lia |]. right.
    exists filename, response, fp. repeat (split; [assumption |]).
    split; [reflexivity |]. repeat (split; [assumption |]). congruence. }
  rewrite Hget in Hsave.
  destruct (rename_if_exists_cases (PosixPath.join out_dir filename) w2)
    as [fp [(Hrename & Hfree) | (Hrename & Hlast & _ & Hall)]];
    rewrite Hrename in Hrun, Hsame; cbn [fst] in Hsame.
  - rewrite (path_exists_files fp w2 w Hf2) in Hfree.
    apply (Hsave fp w2); [assumption .. | | now symmetry | exact Hrun].
    rewrite Hfree, Hr2. lia.
  - assert (path_exists fp w = true) as Htaken.
    { rewrite <- (path_exists_files _ w2 w Hf2), Hlast. apply Hall. lia. }
    apply (Hsave fp (add_log (LogMsg WARNING "Failed to rename %r" [Str fp]) w2));
      [assumption .. | | now symmetry | exact Hrun].
    rewrite Htaken. cbn. rewrite Hr2. lia.
Qed.

End DownloadImageEffect.

Section DownloadImageOutcomes.
Variable E : Env.

(** PROPERTY X3: errors that come before the content type is read. When the
    request fails, [download_image] raises the error of [requests]; when the
    response has a status from 400 to 599 it raises [HTTPError], whatever
    the Content-Type says. In both cases one request was issued, no file is
    written and no response is closed. *)
Theorem download_image_transport_errors (tid : nat) (u out_dir : string)
    (w : World) :
  (forall e,
     http_get E (length (requests w)) u = inl e ->
     download_image E tid u out_dir w = (inl e, started u w))
  /\ (forall response,
        http_get E (length (requests w)) u = inr response ->
        status_ok response = false ->
        download_image E tid u out_dir w
        = (inl (HTTPError (status_code response)), started u w))
  /\ files (started u w) = files w
  /\ closed (started u w) = closed w
  /\ requests (started u w) = u :: requests w.
Proof.
  split; [| split; [| repeat split]].
  - intros e Hget. unfold download_image.
    unfold bind at 1, logger_debug. unfold bind at 1. rewrite get_session_run.
    unfold bind at 1, session_get. cbn [requests add_log bump_id length].
    now rewrite Hget.
  - intros response Hget Hstatus. unfold download_image.
    unfold bind at 1, logger_debug. unfold bind at 1. rewrite get_session_run.
    unfold bind at 1, session_get. cbn [requests add_log bump_id length].
    rewrite Hget. unfold bind at 1, raise_for_status.
    unfold status_ok in Hstatus. apply negb_false_iff in Hstatus.
    now rewrite Hstatus.
Qed.

(** PROPERTY X4: when [download_image] returns a name, the response passed
    the status check and declared an image, its body is the content of the
    file at the path [rename_if_exists] chose for that name in [out_dir],
    no other path has changed, the response was not closed, and a file of
    the returned name exists in [out_dir]. *)
Theorem download_image_saves_body (tid : nat) (u out_dir name : string)
    (w w' : World) :
  download_image E tid u out_dir w = (inr name, w') ->
  exists response fp,
    http_get E (length (requests w)) u = inr response
    /\ status_ok response = true
    /\ media_type response = "image"
    /\ subtype response <> ""
    /\ (rename_if_exists (PosixPath.join out_dir name) w).1 = inr fp
    /\ files w' = <[fp := File (raw response)]> (files w)
    /\ files w' !! fp = Some (File (raw response))
    /\ closed w' = closed w
    /\ path_exists (PosixPath.join out_dir name) w' = true.
Proof.
  intros Hrun.
  pose proof (download_image_effect E tid u out_dir w) as Heffect.
  cbv zeta in Heffect. rewrite Hrun in Heffect. cbn [fst snd] in Heffect.
  destruct Heffect as (_ & _ & [([e He] & _) | Hsaved]); [discriminate |].
  destruct Hsaved
    as (name' & response & fp & Hname & Hget & Hok & Hmedia & Hsub & Hclosed
        & Hrename & Hfiles & _).
  destruct (raw_error response); [discriminate |].
  injection Hname as <-.
  exists response, fp. repeat (split; [assumption |]).
  split; [rewrite Hfiles; apply lookup_insert_eq |].
  split; [assumption |].
  unfold path_exists. rewrite Hfiles.
  destruct (decide (fp = PosixPath.join out_dir name)) as [-> | Hne].
  - now rewrite lookup_insert_eq.
  - rewrite lookup_insert_ne by assumption.
    unfold rename_if_exists in Hrename.
    unfold path_exists in Hrename.
    destruct (files w !! PosixPath.join out_dir name); [reflexivity |].
    cbn in Hrename. congruence.
Qed.


(** PROPERTY X6: [download_image] closes the response only when it rejects
    its content type. When it returns, and when it raises any other error
    (of the request, the status, the file name or the write), no response
    is closed. Every call allocates one session. *)
Theorem download_image_closes_only_when_rejecting (tid : nat)
    (u out_dir : string) (w : World) :
  let run := download_image E tid u out_dir w in
  next_id run.2 = S (next_id w)
  /\ (closed run.2 = closed w
      \/ exists response,
           http_get E (length (requests w)) u = inr response
           /\ closed run.2 = url response :: closed w
           /\ run.1
              = inl (ValueError
                       [invalid_image_type (declared_content_type response) u]))
  /\ (forall name, run.1 = inr name -> closed run.2 = closed w).
Proof.
  intros run.
  pose proof (download_image_effect E tid u out_dir w) as Heffect.
  cbv zeta in Heffect. fold run in Heffect.
  destruct Heffect as (Hid & _ & [([e He] & _ & Hclosed) | Hsaved]).
  - split; [exact Hid |]. split; [exact Hclosed |].
    intros name Hname. congruence.
  - destruct Hsaved as (name & response & fp & _ & _ & _ & _ & _ & Hclosed & _).
    split; [exact Hid |]. split; [now left |]. now intros _ _.
Qed.

End DownloadImageOutcomes.
(** ** The URLs [download_manager] queues *)

Module StripFacts.
Import PyStr.

Lemma rstrip_idempotent (s : string) : rstrip (rstrip s) = rstrip s.
Proof.
  induction s as [|c s IH]; [reflexivity |].
  cbn [rstrip].
  destruct (isspace c && is_empty (rstrip s)) eqn:Hdrop; [reflexivity |].
  cbn [rstrip]. now rewrite IH, Hdrop.
Qed.

(** A string without trailing white space keeps none after [lstrip]. *)
Lemma rstrip_lstrip (s : string) : rstrip s = s -> rstrip (lstrip s) = lstrip s.
Proof.
  induction s as [|c s IH]; [reflexivity |].
  intros Hs. cbn [lstrip].
  destruct (isspace c) eqn:Hc; [| exact Hs].
  apply IH. cbn [rstrip] in Hs. rewrite Hc in Hs.
  destruct (is_empty (rstrip s)); [discriminate |].
  cbn in Hs. congruence.
Qed.

Lemma lstrip_idempotent (s : string) : lstrip (lstrip s) = lstrip s.
Proof.
  induction s as [|c s IH]; [reflexivity |].
  cbn [lstrip]. destruct (isspace c) eqn:Hc; [exact IH |].
  cbn [lstrip]. now rewrite Hc.
Qed.

Lemma strip_idempotent (s : string) : strip (strip s) = strip s.
Proof.
  unfold strip.
  rewrite (rstrip_lstrip (rstrip s)) by apply rstrip_idempotent.
  apply lstrip_idempotent.
Qed.

(** What [lstrip] returns does not start with white space. *)
Lemma lstrip_head (s : string) (c : ascii) (rest : string) :
  lstrip s = String c rest -> isspace c = false.
Proof.
  induction s as [|x s IH]; [discriminate |].
  cbn [lstrip]. destruct (isspace x) eqn:Hx; [exact IH |].
  now intros [= <- _].
Qed.

(** A string that [rstrip] leaves as it is does not end with white space. *)
Lemma rstrip_last (c : ascii) (front : string) :
  rstrip (front +:+ String c "") = front +:+ String c "" -> isspace c = false.
Proof.
  induction front as [|x front IH].
  - rewrite PyStrFacts.app_nil_l. cbn. now destruct (isspace c).
  - rewrite PyStrFacts.app_cons. cbn [rstrip].
    destruct (isspace x && is_empty (rstrip (front +:+ String c "")));
      [discriminate |].
    intros [= H]. now apply IH.
Qed.

End StripFacts.

(** PROPERTY X7: the URLs [download_manager] queues are the non-blank lines
    of the input, in their order, each without the white space around it:
    a queued URL is never empty, starts and ends with a character that is
    not white space, and stripping it again changes nothing. *)
Theorem read_urls_stripped (lines : list string) :
  read_urls lines = map PyStr.strip (non_blank lines)
  /\ (length (read_urls lines) <= length lines)%nat
  /\ forall u,
       In u (read_urls lines) ->
       u <> ""
       /\ PyStr.strip u = u
       /\ (exists line, In line lines /\ u = PyStr.strip line)
       /\ (forall c rest, u = String c rest -> PyStr.isspace c = false)
       /\ (forall front c, u = front +:+ String c "" ->
                           PyStr.isspace c = false).
Proof.
  split; [reflexivity |]. split.
  { unfold read_urls. rewrite length_map. apply List.filter_length_le. }
  intros u Hu. unfold read_urls in Hu.
  apply in_map_iff in Hu as (line & <- & Hline).
  apply List.filter_In in Hline as [Hline Hblank].
  split.
  { intros Hempty. rewrite Hempty in Hblank. discriminate. }
  split; [apply StripFacts.strip_idempotent |].
  split; [now exists line |].
  split.
  - intros c rest Hhead. unfold PyStr.strip in Hhead.
    exact (StripFacts.lstrip_head _ _ _ Hhead).
  - intros front c Hlast.
    apply (StripFacts.rstrip_last c front).
    rewrite <- Hlast. unfold PyStr.strip.
    apply StripFacts.rstrip_lstrip, StripFacts.rstrip_idempotent.
Qed.

(** ** [download_manager]: files, sessions and requests *)

Section DownloadManagerEffect.
Variable E : Env.

(** A pool without tasks: no turn does anything. *)
Lemma as_completed_idle (turns : list Turn) (w : World) :
  as_completed E turns (mkPool [] [] []) [] 0 w = (inr ([], 0), w).
Proof.
  induction turns as [| [k | j] turns IH]; [reflexivity | |].
  - cbn [as_completed]. unfold worker_turn. cbn [workers].
    rewrite lookup_nil. exact IH.
  - cbn [as_completed finished]. rewrite lookup_nil. exact IH.
Qed.

(** The ways in which [download_manager] raises: before anything is done,
    or from the reading of the input, once the tasks of the lines read
    have run. *)
Lemma download_manager_raise_cases (url_file : UrlFile) (out_dir : string)
    (max_workers : option Z) (w w' : World) (e : exn) :
  download_manager E url_file out_dir max_workers w = (inl e, w') ->
  match (open_url_file E url_file w).1 with
  | inl e' => e = e' /\ w' = w
  | inr f =>
      if path_isdir out_dir w
      then (exists n, max_workers = Some n /\ n <= 0
                      /\ e = ValueError ["max_workers must be greater than 0"]
                      /\ w' = w)
           \/ ((forall n, max_workers = Some n -> 0 < n)
               /\ read_error f = Some e
               /\ logged_errors w' = logged_errors w
               /\ exists outcomes,
                    consistent E w (tasks_of (file_lines f) out_dir) w'
                      (map done outcomes))
      else e = ValueError ["Invalid output directory %r"; out_dir] /\ w' = w
  end.
Proof.
  intros Hraise.
  destruct (open_url_file E url_file w).1 as [e' | f] eqn:Hopen.
  { rewrite (download_manager_open_error E _ _ _ _ _ Hopen) in Hraise.
    now injection Hraise as <- <-. }
  destruct (path_isdir out_dir w) eqn:Hdir.
  2:{ rewrite (download_manager_rejects_out_dir E _ _ _ _ _ Hopen Hdir)
        in Hraise.
      now injection Hraise as <- <-. }
  assert ((forall n, max_workers = Some n -> 0 < n) ->
          read_error f = Some e
          /\ logged_errors w' = logged_errors w
          /\ exists outcomes,
               consistent E w (tasks_of (file_lines f) out_dir) w'
                 (map done outcomes)) as Hruns.
  { intros Hworkers. destruct f as [lines [error |]].
    - destruct (download_manager_interrupted E url_file out_dir max_workers w
                  (mkTextFile lines (Some error)) error Hopen eq_refl Hdir
                  Hworkers) as (outcomes & w1 & Hdone & Hlog & Hrun).
      rewrite Hrun in Hraise. injection Hraise as <- <-.
      split; [reflexivity |]. split; [exact Hlog |]. now exists outcomes.
    - destruct (download_manager_run E url_file out_dir max_workers w lines
                  Hopen Hdir Hworkers)
        as (executor & completed & w1 & _ & _ & _ & Hrun).
      rewrite Hrun in Hraise. discriminate. }
  destruct max_workers as [n |].
  - destruct (Z.leb_spec n 0) as [Hn | Hn].
    + rewrite (download_manager_rejects_workers E _ _ _ _ _ Hopen Hdir Hn)
        in Hraise.
      injection Hraise as <- <-. left. now exists n.
    + right. split; [now intros ? [= <-] |].
      apply Hruns. now intros ? [= <-].
  - right. split; [discriminate |]. apply Hruns. discriminate.
Qed.

(** PROPERTY X8: how [download_manager] raises. The error of opening the
    input, the [ValueError] for the output directory and the [ValueError]
    of the executor for a pool size that is not positive, in this order of
    precedence, are raised before anything is done: the world is as it
    was. Otherwise the exception is the error of reading the input, raised
    from within the [with] block: the tasks of the lines read before the
    error have run, each has issued its request and allocated its session,
    no path was removed, and no ERROR record was logged for them. *)
Theorem download_manager_raises (url_file : UrlFile) (out_dir : string)
    (max_workers : option Z) (w w' : World) (e : exn) :
  download_manager E url_file out_dir max_workers w = (inl e, w') ->
  match (open_url_file E url_file w).1 with
  | inl e' => e = e' /\ w' = w
  | inr f =>
      if path_isdir out_dir w
      then (exists n, max_workers = Some n /\ n <= 0
                      /\ e = ValueError ["max_workers must be greater than 0"]
                      /\ w' = w)
           \/ ((forall n, max_workers = Some n -> 0 < n)
               /\ read_error f = Some e
               /\ logged_errors w' = logged_errors w
               /\ (exists issued,
                     requests w' = (issued ++ requests w)%list
                     /\ Permutation issued (read_urls (file_lines f)))
               /\ next_id w'
                  = (next_id w + length (read_urls (file_lines f)))%nat
               /\ (forall p,
                     path_exists p w = true -> path_exists p w' = true))
      else e = ValueError ["Invalid output directory %r"; out_dir] /\ w' = w
  end.
Proof.
  intros Hraise. apply download_manager_raise_cases in Hraise.
  destruct (open_url_file E url_file w).1 as [e' | f]; [exact Hraise |].
  destruct (path_isdir out_dir w); [| exact Hraise].
  destruct Hraise as [Hearly | (Hworkers & Hread & Hlog & outcomes & Hdone)];
    [now left | right].
  apply consistent_done in Hdone
    as (_ & _ & Hissued & Hid & _ & Hpaths & _).
  rewrite urls_tasks_of in Hissued.
  rewrite length_tasks_of in Hid.
  unfold read_urls. rewrite length_map. fold (non_blank (file_lines f)).
  auto 7.
Qed.

(** PROPERTY X9: a run of [download_manager] that returns has issued one
    request for each queued URL, that is for each non-blank line of the
    input, stripped, each once, and has allocated one session for each of
    them: no session serves two requests. This holds however the workers
    take their turns. *)
Theorem download_manager_requests_and_sessions (url_file : UrlFile)
    (out_dir : string) (max_workers : option Z) (w w' : World)
    (stats : DownloadStats) :
  download_manager E url_file out_dir max_workers w = (inr stats, w') ->
  exists lines issued,
    (open_url_file E url_file w).1 = inr (mkTextFile lines None)
    /\ requests w' = (issued ++ requests w)%list
    /\ Permutation issued (read_urls lines)
    /\ total stats = Z.of_nat (length issued)
    /\ next_id w' = (next_id w + length issued)%nat.
Proof.
  intros Hreturned.
  destruct (download_manager_returned E _ _ _ _ _ _ Hreturned)
    as ([lines Hopen] & Hdir & Hworkers).
  destruct (download_manager_run E _ _ _ _ _ Hopen Hdir Hworkers)
    as (executor & completed & w1 & _ & Hdone & _ & Hstats).
  rewrite Hstats in Hreturned. injection Hreturned as <- <-.
  apply consistent_done in Hdone
    as (_ & _ & (issued & Hreq & Hissued) & Hid & _).
  rewrite urls_tasks_of in Hissued.
  pose proof (Permutation_length Hissued) as Hlen.
  exists lines, issued. split; [exact Hopen |]. split; [exact Hreq |].
  split; [exact Hissued |]. cbn [total]. unfold tasks_of in *.
  rewrite length_map in *. split; [now rewrite Hlen | now rewrite Hlen].
Qed.


(** PROPERTY X11: when no line of the input holds a URL (the input is
    empty, or all its lines are blank), [download_manager] returns the
    statistics 0, 0, 0 and leaves the world as it was: no request is issued
    and nothing is logged. *)
Theorem download_manager_no_urls (url_file : UrlFile) (out_dir : string)
    (max_workers : option Z) (w : World) (lines : list string) :
  (open_url_file E url_file w).1 = inr (mkTextFile lines None) ->
  path_isdir out_dir w = true ->
  (forall n, max_workers = Some n -> 0 < n) ->
  non_blank lines = [] ->
  download_manager E url_file out_dir max_workers w
  = (inr (mkDownloadStats 0 0 0), w).
Proof.
  intros Hopen Hdir Hworkers Hblank.
  destruct (executor_created E max_workers w Hworkers) as [executor Hexecutor].
  unfold download_manager. unfold bind at 1.
  pose proof (open_url_file_world E url_file w) as Hsame.
  destruct (open_url_file E url_file w) as [r w0].
  cbn [fst snd] in Hopen, Hsame. subst r w0.
  unfold bind at 1. rewrite Hdir. cbn [negb ret].
  unfold bind at 1. rewrite Hexecutor. cbn [read_error file_lines].
  unfold read_urls. fold (non_blank lines). rewrite Hblank. cbn [map].
  unfold submit. rewrite take_nil, drop_nil. cbn [imap].
  unfold bind. now rewrite as_completed_idle.
Qed.

End DownloadManagerEffect.
(** ** [main] *)

Section Main.
Variable P : Cli.Platform.
Variable E : Env.
Variable options : Cli.Options.

Variable w : World.

(** The directory step of [main], case by case. *)
Lemma ensure_out_dir_cases :
  let made := Cli.makedirs P (Cli.out_dir options) (Cli.creating P options w) in
  Cli.ensure_out_dir P options w
  = if path_exists (Cli.out_dir options) w then (inr None, w)
    else match made.1 with
         | inr _ => (inr None, made.2)
         | inl (OSError _) =>
             (inr (Some (-1)),
              add_log (LogMsg ERROR "Invalid output directory %r"
                         [Str (Cli.normpath P (Cli.out_dir options))]) made.2)
         | inl e => (inl e, made.2)
         end.
Proof.
  cbv zeta. unfold Cli.ensure_out_dir.
  destruct (path_exists (Cli.out_dir options) w); [reflexivity |].
  cbn [negb]. unfold bind at 1, Cli.logger_info. fold (Cli.creating P options w).
  unfold bind at 1, attempt.
  destruct (Cli.makedirs P (Cli.out_dir options) (Cli.creating P options w)) as [[e | []] w1];
    [| reflexivity].
  now destruct e.
Qed.

(** [main], case by case. *)
Lemma main_cases (level : Level) :
  Cli.main P E options (Cli.mkProcess level w)
  = let set := if Cli.verbose options then DEBUG else INFO in
    match Cli.ensure_out_dir P options w with
    | (inl e, w1) => (inl e, Cli.mkProcess set w1)
    | (inr (Some code), w1) => (inr (Some code), Cli.mkProcess set w1)
    | (inr None, w1) =>
        match download_manager E (FileObj (Cli.filename options))
                (Cli.out_dir options) (Cli.max_workers options) w1 with
        | (inl e, w2) => (inl e, Cli.mkProcess set w2)
        | (inr stats, w2) =>
            (inr None, Cli.mkProcess set (add_log (Cli.summary stats) w2))
        end
    end.
Proof.
  unfold Cli.main. cbn [Cli.world]. unfold bind at 1.
  destruct (Cli.ensure_out_dir P options w) as [[e | [code |]] w1];
    [reflexivity .. |].
  unfold bind at 1.
  now destruct (download_manager E _ _ _ w1) as [[e | stats] w2].
Qed.

(** PROPERTY X12: [main] returns a code only as -1, and exactly when the
    output directory did not exist and [os.makedirs] raised an [OSError];
    the error is then logged and [download_manager] is not called: the
    world is that [os.makedirs] left, with one ERROR record added. In every
    case the level of the logger is DEBUG if [verbose] is set and INFO
    otherwise. *)
Theorem main_exit_code (level : Level) :
  let run := Cli.main P E options (Cli.mkProcess level w) in
  let made := Cli.makedirs P (Cli.out_dir options) (Cli.creating P options w) in
  Cli.logger_level run.2 = (if Cli.verbose options then DEBUG else INFO)
  /\ (forall code,
        run.1 = inr (Some code)
        <-> code = -1
            /\ path_exists (Cli.out_dir options) w = false
            /\ exists path, made.1 = inl (OSError path))
  /\ (forall code,
        run.1 = inr (Some code) ->
        Cli.world run.2
        = add_log (LogMsg ERROR "Invalid output directory %r"
                     [Str (Cli.normpath P (Cli.out_dir options))]) made.2).
Proof.
  cbv zeta. rewrite main_cases, ensure_out_dir_cases. cbv zeta.
  destruct (path_exists (Cli.out_dir options) w) eqn:Hexists.
  - destruct (download_manager E _ _ _ w) as [[e | stats] w1];
      cbn [fst snd Cli.logger_level Cli.world];
      (split; [reflexivity |]); (split; [| discriminate]);
      intros code; (split; [discriminate |]);
      intros (_ & ? & _); discriminate.
  - destruct (Cli.makedirs P (Cli.out_dir options) (Cli.creating P options w))
      as [[e | []] w1]; cbn [fst snd].
    + destruct e; cbn [fst snd Cli.logger_level Cli.world];
        (split; [reflexivity |]);
        try ((split; [| discriminate]);
             intros code; (split; [discriminate |]);
             intros (_ & _ & path & [=])).
      split.
      * intros code. split.
        -- intros [= <-]. eauto.
        -- now intros (-> & _).
      * now intros code _.
    + destruct (download_manager E _ _ _ w1) as [[e | stats] w2];
        cbn [fst snd Cli.logger_level Cli.world];
        (split; [reflexivity |]); (split; [| discriminate]);
        intros code; (split; [discriminate |]);
        intros (_ & _ & path & [=]).
Qed.

(** PROPERTY X13: when the output directory exists as a directory and the
    pool size is accepted, what [main] does depends on the reading of the
    file only. When the file reads to its end, [main] returns [None],
    whatever the outcomes of the downloads: failed downloads do not change
    what [main] returns. It logs one INFO record with the three figures of
    the statistics, which add up, the third being the number of non-blank
    lines. When the reading of the file raises, [main] raises that error
    and logs no summary. *)
Theorem main_summary (level : Level) :
  path_isdir (Cli.out_dir options) w = true ->
  (forall n, Cli.max_workers options = Some n -> 0 < n) ->
  match read_error (Cli.filename options) with
  | None =>
      exists stats w1,
        download_manager E (FileObj (Cli.filename options))
          (Cli.out_dir options) (Cli.max_workers options) w
        = (inr stats, w1)
        /\ Cli.main P E options (Cli.mkProcess level w)
           = (inr None,
              Cli.mkProcess (if Cli.verbose options then DEBUG else INFO)
                (add_log (Cli.summary stats) w1))
        /\ success stats + failed stats = total stats
        /\ total stats
           = Z.of_nat (length (non_blank (file_lines (Cli.filename options))))
  | Some error =>
      exists w1,
        download_manager E (FileObj (Cli.filename options))
          (Cli.out_dir options) (Cli.max_workers options) w
        = (inl error, w1)
        /\ Cli.main P E options (Cli.mkProcess level w)
           = (inl error,
              Cli.mkProcess (if Cli.verbose options then DEBUG else INFO) w1)
  end.
Proof.
  intros Hdir Hworkers.
  assert (path_exists (Cli.out_dir options) w = true) as Hexists.
  { unfold path_isdir in Hdir. unfold path_exists.
    now destruct (files w !! Cli.out_dir options). }
  destruct (Cli.filename options) as [lines [error |]] eqn:Hfile;
    cbn [read_error file_lines].
  - destruct (download_manager_interrupted E (FileObj (Cli.filename options))
                (Cli.out_dir options) (Cli.max_workers options) w
                (Cli.filename options) error eq_refl
                ltac:(now rewrite Hfile) Hdir Hworkers)
      as (outcomes & w1 & _ & _ & Hraise).
    rewrite Hfile in Hraise.
    exists w1. split; [exact Hraise |].
    rewrite main_cases, ensure_out_dir_cases. cbv zeta.
    now rewrite Hexists, Hfile, Hraise.
  - destruct (download_manager_run E (FileObj (Cli.filename options))
                (Cli.out_dir options) (Cli.max_workers options) w
                lines ltac:(now rewrite Hfile) Hdir Hworkers)
      as (executor & completed & w1 & _ & _ & _ & Hstats).
    rewrite Hfile in Hstats.
    eexists _, _. split; [exact Hstats |].
    split.
    + rewrite main_cases, ensure_out_dir_cases. cbv zeta.
      now rewrite Hexists, Hfile, Hstats.
    + cbn [success failed total]. rewrite length_tasks_of. lia.
Qed.

(** PROPERTY X14: [main] does not catch the errors of [download_manager].
    When the output directory exists but is not a directory, [main] raises
    the [ValueError] for the output directory, with the world as it was;
    when it is a directory and the pool size is not positive, [main] raises
    the [ValueError] of the executor. In neither case does it return -1. *)
Theorem main_lets_configuration_errors_through (level : Level) :
  let run := Cli.main P E options (Cli.mkProcess level w) in
  (path_exists (Cli.out_dir options) w = true ->
   path_isdir (Cli.out_dir options) w = false ->
   run.1 = inl (ValueError ["Invalid output directory %r"; Cli.out_dir options])
   /\ Cli.world run.2 = w)
  /\ (forall n,
        path_isdir (Cli.out_dir options) w = true ->
        Cli.max_workers options = Some n ->
        n <= 0 ->
        run.1 = inl (ValueError ["max_workers must be greater than 0"])
        /\ Cli.world run.2 = w).
Proof.
  cbv zeta. rewrite main_cases, ensure_out_dir_cases. cbv zeta. split.
  - intros Hexists Hdir. rewrite Hexists.
    rewrite (download_manager_rejects_out_dir E
               (FileObj (Cli.filename options)) (Cli.out_dir options)
               (Cli.max_workers options) w (Cli.filename options)
               eq_refl Hdir).
    now split.
  - intros n Hdir Hn Hle.
    assert (path_exists (Cli.out_dir options) w = true) as ->.
    { unfold path_isdir in Hdir. unfold path_exists.
      now destruct (files w !! Cli.out_dir options). }
    rewrite Hn.
    rewrite (download_manager_rejects_workers E
               (FileObj (Cli.filename options)) (Cli.out_dir options) w
               (Cli.filename options) n eq_refl Hdir Hle).
    now split.
Qed.

End Main.
(** ** [rename_if_exists]: the directory of the candidates *)

Module PathFacts.
Import PyStr PosixPath.

Lemma rstrip_char_idempotent (c : ascii) (s : string) :
  rstrip_char c (rstrip_char c s) = rstrip_char c s.
Proof.
  induction s as [|x s IH]; [reflexivity |].
  cbn [rstrip_char].
  destruct (Ascii.eqb x c && is_empty (rstrip_char c s)) eqn:Hdrop;
    [reflexivity |].
  cbn [rstrip_char]. now rewrite IH, Hdrop.
Qed.

Lemma rstrip_char_snoc (c : ascii) (s : string) :
  rstrip_char c (s +:+ String c "") = rstrip_char c s.
Proof.
  induction s as [|x s IH].
  - rewrite PyStrFacts.app_nil_l. cbn [rstrip_char is_empty].
    now rewrite Ascii.eqb_refl.
  - rewrite PyStrFacts.app_cons. cbn [rstrip_char]. now rewrite IH.
Qed.

Lemma rstrip_char_empty (c : ascii) (s : string) :
  rstrip_char c s = "" -> s <> "" -> endswith s (String c "") = true.
Proof.
  induction s as [|x s IH]; [congruence |].
  intros Hstrip _. cbn [rstrip_char] in Hstrip.
  destruct (Ascii.eqb_spec x c) as [-> | _]; [| discriminate].
  destruct (rstrip_char c s) eqn:Hs; [| discriminate].
  rewrite PyStrFacts.endswith_unfold.
  destruct s as [|y s]; [now rewrite String.eqb_refl |].
  rewrite IH by congruence. apply orb_true_r.
Qed.

Lemma rstrip_char_fixed (c : ascii) (s : string) :
  rstrip_char c s = s -> s <> "" -> endswith s (String c "") = false.
Proof.
  induction s as [|x s IH]; [congruence |].
  intros Hstrip _. cbn [rstrip_char] in Hstrip.
  destruct (Ascii.eqb x c && is_empty (rstrip_char c s)) eqn:Hdrop;
    [discriminate |].
  injection Hstrip as Hs. rewrite PyStrFacts.endswith_unfold.
  destruct s as [|y s].
  - cbn [rstrip_char is_empty] in Hdrop. rewrite andb_true_r in Hdrop.
    cbn. now rewrite Hdrop.
  - rewrite IH by congruence. rewrite orb_false_r.
    cbn. destruct (Ascii.eqb x c); reflexivity.
Qed.

(** What [dirname] returns has no trailing slash, or is made of slashes. *)
Lemma dirname_stripped (p : string) :
  rstrip_char "/" (dirname p) = "" \/ rstrip_char "/" (dirname p) = dirname p.
Proof.
  unfold dirname. destruct (rpartition "/" p) as [[a m] b].
  destruct (rstrip_char "/" (a +:+ m)) eqn:Hhead; cbn [is_empty].
  - now left.
  - right. rewrite <- Hhead. apply rstrip_char_idempotent.
Qed.

Lemma basename_no_slash (n : string) : has_char "/" n = false -> basename n = n.
Proof.
  intros Hn. unfold basename, rsplit1_last.
  now rewrite (PyStrFacts.rpartition_none _ _ Hn).
Qed.

(** Joining a name without slash to a directory name that [dirname]
    returned: [basename] and [dirname] give the two back. *)
Lemma split_join (p n : string) :
  has_char "/" n = false ->
  basename (join (dirname p) n) = n
  /\ dirname (join (dirname p) n) = dirname p.
Proof.
  intros Hn. set (d := dirname p).
  pose proof (dirname_stripped p) as Hd. fold d in Hd.
  unfold join. rewrite (PyStrFacts.has_char_startswith _ _ Hn).
  destruct d as [|x d'] eqn:Hdeq.
  - cbn [is_empty orb]. rewrite PyStrFacts.app_nil_l.
    split; [now apply basename_no_slash |].
    unfold dirname. now rewrite (PyStrFacts.rpartition_none _ _ Hn).
  - rewrite <- Hdeq in *. assert (d <> "") as Hne by (rewrite Hdeq; discriminate).
    assert (is_empty d = false) as -> by (rewrite Hdeq; reflexivity).
    cbn [orb].
    destruct Hd as [Hall | Hfixed].
    + pose proof (rstrip_char_empty "/" d Hall Hne) as Hends.
      rewrite Hends.
      destruct (PyStrFacts.endswith_inv _ _ Hends) as [front Hfront].
      rewrite Hfront, PyStrFacts.app_assoc. rewrite PyStrFacts.app_cons,
        PyStrFacts.app_nil_l.
      unfold basename, rsplit1_last, dirname.
      rewrite (PyStrFacts.rpartition_last _ _ _ Hn). cbn [snd].
      split; [reflexivity |].
      rewrite <- Hfront, Hall. reflexivity.
    + rewrite (rstrip_char_fixed "/" d Hfixed Hne).
      unfold basename, rsplit1_last, dirname.
      change (d +:+ "/" +:+ n) with (d +:+ String "/" n).
      rewrite (PyStrFacts.rpartition_last _ _ _ Hn). cbn [snd].
      split; [reflexivity |].
      rewrite rstrip_char_snoc, Hfixed.
      now destruct d.
Qed.

Lemma string_of_uint_no_slash (d : Decimal.uint) :
  has_char "/" (NilEmpty.string_of_uint d) = false.
Proof. induction d; cbn; auto. Qed.

Lemma str_of_int_no_slash (i : Z) : has_char "/" (str_of_int i) = false.
Proof.
  unfold str_of_int, NilZero.string_of_int, NilZero.string_of_uint.
  destruct (Z.to_int i) as [d | d]; destruct d; cbn;
    try reflexivity; apply string_of_uint_no_slash.
Qed.

End PathFacts.

(** Every name [rename_if_exists] tries is in the directory of the path
    given: the candidate of index [i] has the same [dirname], and its
    [basename] is the stem of the given base name, an underscore, the digits
    of [i], a dot and the extension. *)
Lemma candidate_same_directory (file_path : string) (i : Z) :
  let parts := PyStr.rpartition "." (PosixPath.basename file_path) in
  let name :=
    parts.1.1 +:+ "_" +:+ PyStr.str_of_int i +:+ "." +:+ parts.2 in
  PosixPath.dirname (candidate file_path i) = PosixPath.dirname file_path
  /\ PosixPath.basename (candidate file_path i) = name
  /\ PyStr.has_char "/" name = false.
Proof.
  intros parts name.
  assert (PyStr.has_char "/" name = false) as Hname.
  { unfold name, parts.
    pose proof (rsplit1_last_no_sep "/" file_path) as Hbase.
    fold (PosixPath.basename file_path) in Hbase.
    pose proof (PyStrFacts.rpartition_spec "." (PosixPath.basename file_path))
      as Hsplit.
    destruct (PyStr.rpartition "." (PosixPath.basename file_path))
      as [[stem m] ext]. cbn [fst snd].
    destruct Hsplit as (Hdecomp & _ & _).
    rewrite Hdecomp, !has_char_app in Hbase.
    apply orb_false_iff in Hbase as [Hstem Hrest].
    apply orb_false_iff in Hrest as [_ Hext].
    rewrite !has_char_app, Hstem, Hext, PathFacts.str_of_int_no_slash.
    reflexivity. }
  assert (candidate file_path i
          = PosixPath.join (PosixPath.dirname file_path) name) as ->.
  { unfold candidate, name, parts.
    now destruct (PyStr.rpartition "." (PosixPath.basename file_path))
      as [[stem m] ext]. }
  destruct (PathFacts.split_join file_path name Hname) as [Hb Hd].
  auto.
Qed.

Lemma rename_loop_candidate (orig : string) (w : World) (indices : list Z)
    (current r : string) (broke : bool) :
  rename_loop orig w indices current = (r, broke) ->
  r = current \/ exists j, In j indices /\ r = candidate orig j.
Proof.
  revert current. induction indices as [|i indices IH]; intros current.
  - cbn. intros [= <- _]. now left.
  - cbn [rename_loop]. destruct (negb (path_exists (candidate orig i) w)).
    + intros [= <- _]. right. exists i. split; [now left | reflexivity].
    + intros Hrun. destruct (IH _ Hrun) as [-> | (j & Hj & ->)].
      * right. exists i. split; [now left | reflexivity].
      * right. exists j. split; [now right | reflexivity].
Qed.

(** PROPERTY X15: the path [rename_if_exists] returns is in the directory
    of the path given: it has the same [dirname]. It is the path given, or
    its base name is the stem of the given base name, an underscore, the
    digits of an index from 1 to 9999, a dot and the extension. *)
Theorem rename_if_exists_same_directory (file_path : string) (w : World) :
  exists r,
    (rename_if_exists file_path w).1 = inr r
    /\ PosixPath.dirname r = PosixPath.dirname file_path
    /\ (r = file_path
        \/ exists i,
             1 <= i <= 9999
             /\ let parts := PyStr.rpartition "." (PosixPath.basename file_path) in
                PosixPath.basename r
                = parts.1.1 +:+ "_" +:+ PyStr.str_of_int i +:+ "." +:+ parts.2).
Proof.
  unfold rename_if_exists.
  destruct (negb (path_exists file_path w)).
  { exists file_path. auto. }
  destruct (rename_loop file_path w (range 1 10000) file_path)
    as [r broke] eqn:Hloop.
  exists r. split; [now destruct broke |].
  destruct (rename_loop_candidate _ _ _ _ _ _ Hloop) as [-> | (j & Hj & ->)].
  - auto.
  - destruct (candidate_same_directory file_path j) as (Hd & Hb & _).
    split; [exact Hd |]. right. exists j. apply in_range in Hj.
    split; [lia | exact Hb].
Qed.

(** ** The further properties on the test doubles *)

Module MockChecks.

(** [test_invalid_url] and [test_fail404]. *)
Lemma transport_errors :
  let u := "http://nonexistent.de/image.png" in
  let v := "http://abc.de/bla/raise.jpg" in
  download_image MockCli.offline 0 u "tmpdir" Mock.tmpdir
  = (inl (RequestException "ConnectionError"), started u Mock.tmpdir)
  /\ download_image Mock.jpg_env 0 v "tmpdir" Mock.tmpdir
     = (inl (HTTPError 404), started v Mock.tmpdir).
Proof.
  intros u v. split.
  - apply (proj1 (download_image_transport_errors MockCli.offline 0%nat u
                    "tmpdir" Mock.tmpdir)).
    reflexivity.
  - apply (proj1 (proj2 (download_image_transport_errors Mock.jpg_env 0%nat v
                           "tmpdir" Mock.tmpdir))
             (Mock.response 404 (Mock.content_type "text/plain") v));
      reflexivity.
Defined.

(** [test_download_image]: the file named by the value returned exists. *)
Lemma saved_body :
  let u := "http://abc.de/bla/foobar.jpg" in
  let run := download_image Mock.jpg_env 0 u "tmpdir" Mock.tmpdir in
  run.1 = inr "foobar.jpg"
  /\ files run.2 !! "tmpdir/foobar.jpg" = Some (File "image data")
  /\ path_exists (PosixPath.join "tmpdir" "foobar.jpg") run.2 = true.
Proof.
  intros u run.
  assert (run = (inr "foobar.jpg", run.2)) as Hrun
    by (vm_compute; reflexivity).
  destruct (download_image_saves_body Mock.jpg_env 0%nat u "tmpdir"
              "foobar.jpg" Mock.tmpdir run.2 Hrun)
    as (response & fp & Hget & _ & _ & _ & Hrename & _ & Hbody & _ & Hexists).
  injection Hget as <-. injection Hrename as <-.
  split; [now rewrite Hrun |]. split; [exact Hbody | exact Hexists].
Defined.


(** A file whose third line does not decode: the run raises the error of
    the decoder once the two URLs read before it have been requested, and
    logs no ERROR record for the one that failed. *)
Lemma raises_late :
  let run :=
    download_manager Mock.jpg_env (FileObj MockCli.undecodable) "tmpdir"
      (Some 2) Mock.tmpdir in
  run.1 = inl (UnicodeDecodeError "invalid start byte")
  /\ logged_errors run.2 = []
  /\ (exists issued,
        requests run.2 = issued
        /\ Permutation issued ["success"; "raise"])
  /\ next_id run.2 = 2%nat.
Proof.
  intros run.
  assert (run = (inl (UnicodeDecodeError "invalid start byte"), run.2))
    as Hrun by (vm_compute; reflexivity).
  pose proof (download_manager_raises Mock.jpg_env
                (FileObj MockCli.undecodable) "tmpdir" (Some 2) Mock.tmpdir
                run.2 _ Hrun) as Hraises.
  unfold open_url_file in Hraises. cbn [ret fst] in Hraises.
  change (path_isdir "tmpdir" Mock.tmpdir) with true in Hraises.
  destruct Hraises
    as [(n & [= <-] & Hn & _)
       | (_ & _ & Hlog & (issued & Hreq & Hperm) & Hid & _)]; [lia |].
  split; [now rewrite Hrun |]. split; [exact Hlog |].
  split; [| exact Hid].
  exists issued. split; [now rewrite Hreq, app_nil_r | exact Hperm].
Defined.

(** The run of [test_download_manager]: five requests and five sessions. *)
Lemma requests_and_sessions :
  let run :=
    download_manager Mock.jpg_env (FileObj (StringIO Mock.url_list)) "tmpdir"
      (Some 2) Mock.tmpdir in
  exists issued,
    requests run.2 = (issued ++ requests Mock.tmpdir)%list
    /\ Permutation issued (read_urls Mock.url_list)
    /\ next_id run.2 = (next_id Mock.tmpdir + length issued)%nat.
Proof.
  intros run.
  assert (run = (inr (mkDownloadStats 3 2 5), run.2)) as Hrun
    by (vm_compute; reflexivity).
  destruct (download_manager_requests_and_sessions Mock.jpg_env
              (FileObj (StringIO Mock.url_list)) "tmpdir" (Some 2) Mock.tmpdir
              run.2 _ Hrun)
    as (lines & issued & Hopen & Hreq & Hperm & _ & Hid).
  injection Hopen as <-. exists issued. auto.
Defined.


(** An input of blank lines only. *)
Lemma no_urls :
  download_manager Mock.jpg_env
    (FileObj (StringIO [String LF ""; "   " +:+ String LF ""; ""])) "tmpdir"
    None Mock.tmpdir
  = (inr (mkDownloadStats 0 0 0), Mock.tmpdir).
Proof.
  apply (download_manager_no_urls Mock.jpg_env _ _ _ _
           [String LF ""; "   " +:+ String LF ""; ""]).
  - reflexivity.
  - reflexivity.
  - discriminate.
  - reflexivity.
Defined.

(** [main] on a directory that cannot be created, on the directory of the
    tests, and on a path that is a file. *)
Lemma main_minus_one :
  let run :=
    Cli.main MockCli.read_only Mock.jpg_env (MockCli.options "nodir")
      (Cli.mkProcess WARNING Mock.tmpdir) in
  run.1 = inr (Some (-1)) /\ requests (Cli.world run.2) = [].
Proof.
  cbv zeta.
  destruct (main_exit_code MockCli.read_only Mock.jpg_env
              (MockCli.options "nodir") Mock.tmpdir WARNING)
    as (_ & Hcode & Hworld).
  assert ((Cli.main MockCli.read_only Mock.jpg_env (MockCli.options "nodir")
             (Cli.mkProcess WARNING Mock.tmpdir)).1 = inr (Some (-1)))
    as Hrun.
  { apply Hcode. split; [reflexivity |]. split; [reflexivity |].
    now exists "nodir". }
  split; [exact Hrun |]. now rewrite (Hworld _ Hrun).
Defined.

Lemma main_returns_none :
  exists stats w1,
    Cli.main MockCli.permissive Mock.jpg_env (MockCli.options "tmpdir")
      (Cli.mkProcess WARNING Mock.tmpdir)
    = (inr None, Cli.mkProcess INFO (add_log (Cli.summary stats) w1))
    /\ success stats + failed stats = total stats
    /\ total stats = 5.
Proof.
  destruct (main_summary MockCli.permissive Mock.jpg_env
              (MockCli.options "tmpdir") Mock.tmpdir WARNING eq_refl)
    as (stats & w1 & _ & Hmain & Hsum & Htotal).
  - discriminate.
  - exists stats, w1. auto.
Defined.

Lemma main_out_dir_is_a_file :
  let w := Mock.touch "tmpdir/a.txt" Mock.tmpdir in
  (Cli.main MockCli.permissive Mock.jpg_env (MockCli.options "tmpdir/a.txt")
     (Cli.mkProcess WARNING w)).1
  = inl (ValueError ["Invalid output directory %r"; "tmpdir/a.txt"]).
Proof.
  intros w.
  apply (proj1 (main_lets_configuration_errors_through MockCli.permissive
                  Mock.jpg_env (MockCli.options "tmpdir/a.txt") w WARNING));
    reflexivity.
Defined.

End MockChecks.
